(** * Football environment: the physics engine and the per-tick game engine

    A shallow embedding of [game/entities.py], [game/state.py],
    [game/physics.py] and [game/engine.py].

    Conventions of the embedding.
    - Python [float] values are real numbers ([R]); [math.sqrt] is [sqrt] and
      [v ** 2] is [v ^ 2].  Rounding, overflow and underflow are not
      modelled: an equation between reals stands for the formula that the
      code evaluates in floating point.
    - Python raises [ZeroDivisionError] where [R] has a total division.  The
      two divisions by a computed magnitude that no comparison keeps away
      from zero, in [_clamp_velocity] and in [apply_acceleration], raise here
      as they do there.  The other divisions by a distance or a speed follow
      a comparison with 0.001.  The divisions by masses are total here, so
      statements that involve them assume positive masses.
    - A call returns, raises, or never returns; see [result].
    - Python [int] values are [Z].
    - The four attributes [x], [y], [vx], [vy] which [Physics] reads and
      writes on players and on the ball alike (duck typing) form the record
      [Motion]; [Player] and [Ball] carry one.
    - In-place mutation is explicit state passing.
    - The dictionary of actions is a [gmap] keyed by [(team_id, player_id)]. *)

From stdpp Require Import gmap strings list.
From Stdlib Require Import Reals Lra Lia ZArith.

(** ** Deciding the comparisons of [float] *)

#[global] Instance Rlt_decision : RelDecision Rlt := Rlt_dec.
#[global] Instance Rle_decision : RelDecision Rle := Rle_dec.
#[global] Instance Rgt_decision : RelDecision Rgt := Rgt_dec.
#[global] Instance Rge_decision : RelDecision Rge := Rge_dec.
#[global] Instance Req_decision : EqDecision R := Req_dec_T.

(** ** game/entities.py *)

Record Motion := mkMotion { x : R; y : R; vx : R; vy : R }.

Record Player := mkPlayer {
  p_motion : Motion;
  p_radius : R;
  p_team_id : Z;
  p_player_id : Z;
  p_mass : R;
  p_kick_cooldown : Z
}.

Record Ball := mkBall {
  b_motion : Motion;
  b_radius : R;
  b_mass : R
}.

Record Goal := mkGoal {
  g_x : R;
  g_y : R;
  g_width : R;
  g_height : R;
  g_team_id : Z
}.

Definition set_p_motion (m : Motion) (p : Player) : Player :=
  mkPlayer m (p_radius p) (p_team_id p) (p_player_id p) (p_mass p)
           (p_kick_cooldown p).

Definition set_p_kick_cooldown (c : Z) (p : Player) : Player :=
  mkPlayer (p_motion p) (p_radius p) (p_team_id p) (p_player_id p) (p_mass p) c.

Definition set_b_motion (m : Motion) (b : Ball) : Ball :=
  mkBall m (b_radius b) (b_mass b).

Section Entities.
Local Open Scope R_scope.

(** [Player.speed] and [Ball.speed]. *)
Definition speed (m : Motion) : R := sqrt (vx m ^ 2 + vy m ^ 2).

(** The properties [Goal.top] and [Goal.bottom]. *)
Definition g_top (g : Goal) : R := g_y g - g_height g / 2.
Definition g_bottom (g : Goal) : R := g_y g + g_height g / 2.

End Entities.

(** ** game/config.py *)

(** Modelled from the spec: [game/config.py], which declares [GameConfig],
    is not among the sources.  The configuration exposes the geometry of
    field, goals and entities, the physics constants (maximum speeds and
    acceleration, friction, kick range, power and cooldown ticks), the match
    constants (win score, maximum ticks, celebration duration) and a
    deterministic formation function keyed by team.  The record has exactly
    the attributes that [physics.py] and [engine.py] read; every statement
    below takes the configuration as a parameter. *)

Record GameConfig := mkConfig {
  field_width : R;
  field_height : R;
  corner_radius : R;
  goal_width : R;
  goal_height : R;
  player_radius : R;
  player_mass : R;
  player_max_speed : R;
  player_max_acceleration : R;
  ball_radius : R;
  ball_mass : R;
  ball_max_speed : R;
  ball_friction : R;
  kick_range : R;
  kick_power : R;
  kick_cooldown_ticks : Z;
  goal_celebration_ticks : Z;
  win_score : Z;
  max_ticks : Z;
  get_initial_player_positions : Z -> list (R * R);
  get_initial_ball_position : R * R
}.

(** ** Exceptions and calls that do not return

    A call returns a value, raises an exception, or never returns because it
    waits for a thread that does not finish ([Blocks]); [result] is the monad
    the engine code runs in.  [BaseException_in_agent] stands for an
    exception of an agent's [get_action] that is no [Exception], such as
    [KeyboardInterrupt] or [SystemExit]. *)

Inductive exn :=
  | ValueError_player_not_found (team_id player_id : Z)
  | ValueError_max_workers
  | IndexError
  | ZeroDivisionError_float
  | BaseException_in_agent.

Inductive result (A : Type) :=
  | Return (a : A)
  | Raise (e : exn)
  | Blocks.
Arguments Return {A} a.
Arguments Raise {A} e.
Arguments Blocks {A}.

#[global] Instance result_ret : MRet result := fun A a => Return a.
#[global] Instance result_bind : MBind result := fun A B f m =>
  match m with
  | Return a => f a
  | Raise e => Raise e
  | Blocks => Blocks
  end.

(** Python's [l[i]] for an [int] index: negative indices count from the end,
    anything out of range raises [IndexError]. *)
Definition py_index {A} (l : list A) (i : Z) : result nat :=
  let n := Z.of_nat (length l) in
  if decide (0 <= i < n)%Z then Return (Z.to_nat i)
  else if decide (- n <= i < 0)%Z then Return (Z.to_nat (n + i))
  else Raise IndexError.

Definition py_getitem {A} (l : list A) (i : Z) : result A :=
  k ← py_index l i;
  match l !! k with
  | Some a => Return a
  | None => Raise IndexError
  end.

(** ** game/physics.py *)

Section Physics.
Local Open Scope R_scope.
Variable config : GameConfig.

(** [Physics._clamp_velocity].  The division [entity.vx / speed] raises
    when the speed is zero, which the comparison allows for a negative
    maximum. *)
Definition _clamp_velocity (entity : Motion) (max_speed : R) : result Motion :=
  let speed := sqrt (vx entity ^ 2 + vy entity ^ 2) in
  if decide (speed > max_speed)
  then
    if decide (speed = 0) then Raise ZeroDivisionError_float
    else Return (mkMotion (x entity) (y entity)
                          (vx entity / speed * max_speed)
                          (vy entity / speed * max_speed))
  else Return entity.

(** [Physics.apply_acceleration].  The division [ax / acc_mag] raises when
    the requested acceleration is zero and the maximum is negative. *)
Definition apply_acceleration (player : Player) (ax ay : R) : result Player :=
  let max_acc := player_max_acceleration config in
  let acc_mag := sqrt (ax ^ 2 + ay ^ 2) in
  '(ax, ay) ←
    (if decide (acc_mag > max_acc)
     then
       if decide (acc_mag = 0) then Raise ZeroDivisionError_float
       else Return (ax / acc_mag * max_acc, ay / acc_mag * max_acc)
     else Return (ax, ay));
  let m := p_motion player in
  let m := mkMotion (x m) (y m) (vx m + ax) (vy m + ay) in
  m ← _clamp_velocity m (player_max_speed config);
  Return (set_p_motion m player).

(** One Euler step of an entity: [e.x += e.vx; e.y += e.vy]. *)
Definition advance (m : Motion) : Motion :=
  mkMotion (x m + vx m) (y m + vy m) (vx m) (vy m).

(** [Physics.update_positions]. *)
Definition update_positions (players : list Player) (ball : Ball)
  : result (list Player * Ball) :=
  let players := map (fun p => set_p_motion (advance (p_motion p)) p) players in
  let m := advance (b_motion ball) in
  let m := mkMotion (x m) (y m)
                    (vx m * ball_friction config)
                    (vy m * ball_friction config) in
  m ← _clamp_velocity m (ball_max_speed config);
  Return (players, set_b_motion m ball).

(** [Physics._is_in_corner_region]: the arc centre of the corner region the
    point lies in, if any. *)
Definition _is_in_corner_region (px py : R) : option (R * R) :=
  let field_w := field_width config in
  let field_h := field_height config in
  let corner_r := corner_radius config in
  if decide (px < corner_r /\ py < corner_r)
  then Some (corner_r, corner_r)
  else if decide (px > field_w - corner_r /\ py < corner_r)
  then Some (field_w - corner_r, corner_r)
  else if decide (px < corner_r /\ py > field_h - corner_r)
  then Some (corner_r, field_h - corner_r)
  else if decide (px > field_w - corner_r /\ py > field_h - corner_r)
  then Some (field_w - corner_r, field_h - corner_r)
  else None.

(** The restitution [_enforce_boundary] picks: [0.8 if is_ball else 0.5]. *)
Definition boundary_restitution (is_ball : bool) : R :=
  if is_ball then 8 / 10 else 5 / 10.

(** The corner branch of [_enforce_boundary], entered with the arc centre
    [(cx, cy)]. *)
Definition enforce_corner (entity : Motion) (radius : R) (is_ball : bool)
    (cx cy : R) : Motion :=
  let corner_r := corner_radius config in
  let restitution := boundary_restitution is_ball in
  let dx := x entity - cx in
  let dy := y entity - cy in
  let dist := sqrt (dx ^ 2 + dy ^ 2) in
  let max_dist := corner_r - radius in
  if decide (dist > max_dist) then
    if decide (dist > 1 / 1000) then
      let nx := dx / dist in
      let ny := dy / dist in
      let ex := cx + nx * max_dist in
      let ey := cy + ny * max_dist in
      let dot := vx entity * nx + vy entity * ny in
      if decide (dot > 0)
      then mkMotion ex ey
                    (vx entity - 2 * dot * nx * restitution)
                    (vy entity - 2 * dot * ny * restitution)
      else mkMotion ex ey (vx entity) (vy entity)
    else entity
  else entity.

(** The four straight-wall checks of [_enforce_boundary], in source order. *)
Definition left_wall (e : Motion) (radius : R) (is_ball : bool)
    (goal_top goal_bottom : R) : Motion :=
  let restitution := boundary_restitution is_ball in
  if decide (x e - radius < 0) then
    if negb is_ball || negb (bool_decide (goal_top <= y e /\ y e <= goal_bottom))
    then mkMotion radius (y e)
                  (if decide (vx e < 0) then - vx e * restitution else vx e)
                  (vy e)
    else e
  else e.

Definition right_wall (e : Motion) (radius : R) (is_ball : bool)
    (goal_top goal_bottom : R) : Motion :=
  let field_w := field_width config in
  let restitution := boundary_restitution is_ball in
  if decide (x e + radius > field_w) then
    if negb is_ball || negb (bool_decide (goal_top <= y e /\ y e <= goal_bottom))
    then mkMotion (field_w - radius) (y e)
                  (if decide (vx e > 0) then - vx e * restitution else vx e)
                  (vy e)
    else e
  else e.

Definition top_wall (e : Motion) (radius : R) (is_ball : bool) : Motion :=
  let restitution := boundary_restitution is_ball in
  if decide (y e - radius < 0)
  then mkMotion (x e) radius (vx e)
                (if decide (vy e < 0) then - vy e * restitution else vy e)
  else e.

Definition bottom_wall (e : Motion) (radius : R) (is_ball : bool) : Motion :=
  let field_h := field_height config in
  let restitution := boundary_restitution is_ball in
  if decide (y e + radius > field_h)
  then mkMotion (x e) (field_h - radius) (vx e)
                (if decide (vy e > 0) then - vy e * restitution else vy e)
  else e.

Definition enforce_walls (entity : Motion) (radius : R) (is_ball : bool)
  : Motion :=
  let field_h := field_height config in
  let goal_top := field_h / 2 - goal_height config / 2 in
  let goal_bottom := field_h / 2 + goal_height config / 2 in
  let e := left_wall entity radius is_ball goal_top goal_bottom in
  let e := right_wall e radius is_ball goal_top goal_bottom in
  let e := top_wall e radius is_ball in
  bottom_wall e radius is_ball.

(** [Physics._enforce_boundary]: the corner branch returns early, so the wall
    checks run only outside the corner regions. *)
Definition _enforce_boundary (entity : Motion) (radius : R) (is_ball : bool)
  : Motion :=
  match _is_in_corner_region (x entity) (y entity) with
  | Some (cx, cy) => enforce_corner entity radius is_ball cx cy
  | None => enforce_walls entity radius is_ball
  end.

(** [Physics._resolve_circle_collision]: the two entities after the call and
    the returned flag. *)
Definition _resolve_circle_collision (e1 : Motion) (r1 : R) (e2 : Motion)
    (r2 m1 m2 restitution : R) : Motion * Motion * bool :=
  let dx := x e2 - x e1 in
  let dy := y e2 - y e1 in
  let dist := sqrt (dx ^ 2 + dy ^ 2) in
  let min_dist := r1 + r2 in
  if decide (dist >= min_dist) then (e1, e2, false)
  else
    let '(dx, dy, dist) :=
      if decide (dist < 1 / 1000) then (1, 0, 1) else (dx, dy, dist) in
    let nx := dx / dist in
    let ny := dy / dist in
    let overlap := min_dist - dist in
    let total_mass := m1 + m2 in
    let x1 := x e1 - nx * overlap * (m2 / total_mass) in
    let y1 := y e1 - ny * overlap * (m2 / total_mass) in
    let x2 := x e2 + nx * overlap * (m1 / total_mass) in
    let y2 := y e2 + ny * overlap * (m1 / total_mass) in
    let dvx := vx e2 - vx e1 in
    let dvy := vy e2 - vy e1 in
    let dvn := dvx * nx + dvy * ny in
    if decide (dvn < 0) then
      let j := - (1 + restitution) * dvn / (1 / m1 + 1 / m2) in
      (mkMotion x1 y1 (vx e1 - j / m1 * nx) (vy e1 - j / m1 * ny),
       mkMotion x2 y2 (vx e2 + j / m2 * nx) (vy e2 + j / m2 * ny),
       true)
    else
      (mkMotion x1 y1 (vx e1) (vy e1), mkMotion x2 y2 (vx e2) (vy e2), true).

(** The boundary pass over every entity. *)
Definition enforce_players (players : list Player) : list Player :=
  map (fun p => set_p_motion (_enforce_boundary (p_motion p) (p_radius p) false) p)
      players.

Definition enforce_ball (ball : Ball) : Ball :=
  set_b_motion (_enforce_boundary (b_motion ball) (b_radius ball) true) ball.

(** [for player in players: _resolve_circle_collision(player, ..., ball, ...)]
    with restitution 0.9: the ball is shared by all iterations. *)
Fixpoint player_ball_collisions (players : list Player) (ball : Ball)
  : list Player * Ball * bool :=
  match players with
  | [] => ([], ball, false)
  | player :: rest =>
      let '(e1, e2, hit) :=
        _resolve_circle_collision (p_motion player) (p_radius player)
                                  (b_motion ball) (b_radius ball)
                                  (p_mass player) (b_mass ball) (9 / 10) in
      let '(rest, ball, hits) :=
        player_ball_collisions rest (set_b_motion e2 ball) in
      (set_p_motion e1 player :: rest, ball, hit || hits)
  end.

(** The inner loop [for p2 in players[i + 1:]] for a fixed [p1], restitution
    0.5: [p1] is mutated across the iterations, every [p2] once. *)
Fixpoint collide_with_rest (p1 : Player) (rest : list Player)
  : Player * list Player * bool :=
  match rest with
  | [] => (p1, [], false)
  | p2 :: tl =>
      let '(e1, e2, hit) :=
        _resolve_circle_collision (p_motion p1) (p_radius p1)
                                  (p_motion p2) (p_radius p2)
                                  (p_mass p1) (p_mass p2) (5 / 10) in
      let '(p1, tl, hits) := collide_with_rest (set_p_motion e1 p1) tl in
      (p1, set_p_motion e2 p2 :: tl, hit || hits)
  end.

(** The outer loop [for i, p1 in enumerate(players)]; [n] counts the players
    still to be visited and is [length players] at the call. *)
Fixpoint player_player_collisions (n : nat) (players : list Player)
  : list Player * bool :=
  match n, players with
  | S n, p1 :: rest =>
      let '(p1, rest, hit) := collide_with_rest p1 rest in
      let '(rest, hits) := player_player_collisions n rest in
      (p1 :: rest, hit || hits)
  | _, _ => (players, false)
  end.

(** One pass of the loop body of [handle_all_collisions]. *)
Definition collision_pass (players : list Player) (ball : Ball)
  : list Player * Ball * bool :=
  let players := enforce_players players in
  let ball := enforce_ball ball in
  let '(players, ball, hit_ball) := player_ball_collisions players ball in
  let '(players, hit_players) :=
    player_player_collisions (length players) players in
  let players := enforce_players players in
  let ball := enforce_ball ball in
  (players, ball, hit_ball || hit_players).

(** [for _ in range(max_iterations)] with the early [break]. *)
Fixpoint collision_loop (iterations : nat) (players : list Player) (ball : Ball)
  : list Player * Ball :=
  match iterations with
  | O => (players, ball)
  | S iterations =>
      let '(players, ball, had_collision) := collision_pass players ball in
      if had_collision then collision_loop iterations players ball
      else (players, ball)
  end.

(** [Physics.handle_all_collisions]; the [goals] argument is unused, as in
    the source. *)
Definition handle_all_collisions (players : list Player) (ball : Ball)
    (goals : list Goal) : list Player * Ball :=
  let max_iterations := 10%nat in
  collision_loop max_iterations players ball.

(** [Physics.check_goal]: the team that scored, or [None]. *)
Fixpoint check_goal (ball : Ball) (goals : list Goal) : option Z :=
  match goals with
  | [] => None
  | goal :: goals =>
      let bm := b_motion ball in
      if negb (bool_decide (g_top goal <= y bm /\ y bm <= g_bottom goal))
      then check_goal ball goals
      else if decide (g_team_id goal = 0%Z) then
        if decide (x bm + b_radius ball <= 0)
        then Some (1 - g_team_id goal)%Z
        else check_goal ball goals
      else
        if decide (x bm - b_radius ball >= field_width config)
        then Some (1 - g_team_id goal)%Z
        else check_goal ball goals
  end.

End Physics.

(** ** game/state.py *)

Inductive GameStatus := RUNNING | ENDED.

#[global] Instance GameStatus_eq_dec : EqDecision GameStatus.
Proof. solve_decision. Defined.

(** [GameStatus.value]. *)
Definition status_value (s : GameStatus) : string :=
  match s with
  | RUNNING => "running"
  | ENDED => "ended"
  end.

(** [GameStatus(tag)]: the member with that value; any other tag raises. *)
Definition status_of_value (tag : string) : option GameStatus :=
  if decide (tag = "running") then Some RUNNING
  else if decide (tag = "ended") then Some ENDED
  else None.

Record PlayerState := mkPlayerState {
  ps_x : R;
  ps_y : R;
  ps_vx : R;
  ps_vy : R;
  ps_team_id : Z;
  ps_player_id : Z;
  ps_kick_cooldown : Z
}.

Record BallState := mkBallState {
  bs_x : R;
  bs_y : R;
  bs_vx : R;
  bs_vy : R
}.

Record GameState := mkGameState {
  gs_players : list PlayerState;
  gs_ball : BallState;
  gs_score : list Z;
  gs_tick : Z;
  gs_status : GameStatus;
  gs_field_width : R;
  gs_field_height : R;
  gs_goal_height : R
}.

(** [PlayerState.from_player] and [BallState.from_ball]. *)
Definition from_player (player : Player) : PlayerState :=
  let m := p_motion player in
  mkPlayerState (x m) (y m) (vx m) (vy m)
                (p_team_id player) (p_player_id player) (p_kick_cooldown player).

Definition from_ball (ball : Ball) : BallState :=
  let m := b_motion ball in
  mkBallState (x m) (y m) (vx m) (vy m).

(** [PlayerState.can_kick]. *)
Definition can_kick (p : PlayerState) : bool :=
  bool_decide (ps_kick_cooldown p = 0%Z).

(** [GameState.get_player]: the first player with both identifiers, or
    [ValueError]. *)
Fixpoint find_player (players : list PlayerState) (team_id player_id : Z)
  : result PlayerState :=
  match players with
  | [] => Raise (ValueError_player_not_found team_id player_id)
  | p :: players =>
      if decide (ps_team_id p = team_id /\ ps_player_id p = player_id)
      then Return p
      else find_player players team_id player_id
  end.

Definition get_player (s : GameState) (team_id player_id : Z)
  : result PlayerState :=
  find_player (gs_players s) team_id player_id.

(** [GameState.get_team_players]. *)
Definition get_team_players (s : GameState) (team_id : Z) : list PlayerState :=
  filter (fun p => ps_team_id p = team_id) (gs_players s).

(** *** Dictionary encoding

    The values that [to_dict] produces: numbers, strings, lists and
    dictionaries with string keys.  A dictionary keeps its insertion order,
    so it is an association list. *)

#[warnings="-register-all"]
Inductive pyval :=
  | VFloat (r : R)
  | VInt (z : Z)
  | VStr (s : string)
  | VList (l : list pyval)
  | VDict (d : list (string * pyval)).

(** [d.get(key)]. *)
Fixpoint dict_get (key : string) (d : list (string * pyval)) : option pyval :=
  match d with
  | [] => None
  | (k, v) :: d => if decide (k = key) then Some v else dict_get key d
  end.

(** Reading a field back at its annotated type.  Python stores whatever
    value it is given; the records here are typed, so a value of another
    shape is a decoding failure.  An [int] is accepted where a [float] is
    expected, as Python's numbers are. *)
Definition as_float (v : pyval) : option R :=
  match v with
  | VFloat r => Some r
  | VInt z => Some (IZR z)
  | _ => None
  end.

Definition as_int (v : pyval) : option Z :=
  match v with VInt z => Some z | _ => None end.

Definition as_str (v : pyval) : option string :=
  match v with VStr s => Some s | _ => None end.

Definition as_list (v : pyval) : option (list pyval) :=
  match v with VList l => Some l | _ => None end.

Definition as_dict (v : pyval) : option (list (string * pyval)) :=
  match v with VDict d => Some d | _ => None end.

(** The constructor called on an unpacked dictionary rejects a keyword that
    is not a field of the class. *)
Definition only_keys (fields : list string) (d : list (string * pyval)) : bool :=
  forallb (fun kv => bool_decide (kv.1 ∈ fields)) d.

(** [PlayerState.to_dict]. *)
Definition PlayerState_to_dict (p : PlayerState) : pyval :=
  VDict [ ("x", VFloat (ps_x p));
          ("y", VFloat (ps_y p));
          ("vx", VFloat (ps_vx p));
          ("vy", VFloat (ps_vy p));
          ("team_id", VInt (ps_team_id p));
          ("player_id", VInt (ps_player_id p));
          ("kick_cooldown", VInt (ps_kick_cooldown p)) ].

(** [PlayerState.from_dict] calls the constructor on the unpacked dictionary:
    every key must be a field, every field without a default must be
    present; [kick_cooldown] defaults to 0. *)
Definition PlayerState_from_dict (data : pyval) : option PlayerState :=
  d ← as_dict data;
  if only_keys ["x"; "y"; "vx"; "vy"; "team_id"; "player_id"; "kick_cooldown"] d
  then
    px ← dict_get "x" d ≫= as_float;
    py ← dict_get "y" d ≫= as_float;
    pvx ← dict_get "vx" d ≫= as_float;
    pvy ← dict_get "vy" d ≫= as_float;
    team ← dict_get "team_id" d ≫= as_int;
    player ← dict_get "player_id" d ≫= as_int;
    cooldown ← match dict_get "kick_cooldown" d with
               | Some v => as_int v
               | None => Some 0%Z
               end;
    Some (mkPlayerState px py pvx pvy team player cooldown)
  else None.

(** [BallState.to_dict]. *)
Definition BallState_to_dict (b : BallState) : pyval :=
  VDict [ ("x", VFloat (bs_x b));
          ("y", VFloat (bs_y b));
          ("vx", VFloat (bs_vx b));
          ("vy", VFloat (bs_vy b)) ].

(** [BallState.from_dict], the constructor on the unpacked dictionary. *)
Definition BallState_from_dict (data : pyval) : option BallState :=
  d ← as_dict data;
  if only_keys ["x"; "y"; "vx"; "vy"] d
  then
    bx ← dict_get "x" d ≫= as_float;
    by_ ← dict_get "y" d ≫= as_float;
    bvx ← dict_get "vx" d ≫= as_float;
    bvy ← dict_get "vy" d ≫= as_float;
    Some (mkBallState bx by_ bvx bvy)
  else None.

(** [tuple(f(v) for v in l)] where [f] may raise. *)
Fixpoint decode_all {A} (f : pyval -> option A) (l : list pyval)
  : option (list A) :=
  match l with
  | [] => Some []
  | v :: l => a ← f v; rest ← decode_all f l; Some (a :: rest)
  end.

(** [GameState.to_dict]. *)
Definition GameState_to_dict (s : GameState) : pyval :=
  VDict [ ("players", VList (map PlayerState_to_dict (gs_players s)));
          ("ball", BallState_to_dict (gs_ball s));
          ("score", VList (map VInt (gs_score s)));
          ("tick", VInt (gs_tick s));
          ("status", VStr (status_value (gs_status s)));
          ("field_width", VFloat (gs_field_width s));
          ("field_height", VFloat (gs_field_height s));
          ("goal_height", VFloat (gs_goal_height s)) ].

(** [GameState.from_dict]: the fields are read with [data[key]], so a missing
    key raises and other keys are ignored. *)
Definition GameState_from_dict (data : pyval) : option GameState :=
  d ← as_dict data;
  players ← (dict_get "players" d ≫= as_list) ≫= decode_all PlayerState_from_dict;
  ball ← dict_get "ball" d ≫= BallState_from_dict;
  score ← (dict_get "score" d ≫= as_list) ≫= decode_all as_int;
  tick ← dict_get "tick" d ≫= as_int;
  status ← (dict_get "status" d ≫= as_str) ≫= status_of_value;
  field_w ← dict_get "field_width" d ≫= as_float;
  field_h ← dict_get "field_height" d ≫= as_float;
  goal_h ← dict_get "goal_height" d ≫= as_float;
  Some (mkGameState players ball score tick status field_w field_h goal_h).

(** [Ball.to_dict] of [entities.py], the encoding of the live ball. *)
Definition Ball_to_dict (b : Ball) : pyval :=
  let m := b_motion b in
  VDict [ ("x", VFloat (x m));
          ("y", VFloat (y m));
          ("vx", VFloat (vx m));
          ("vy", VFloat (vy m));
          ("radius", VFloat (b_radius b));
          ("mass", VFloat (b_mass b)) ].

(** ** agents/base.py *)

(** Modelled from the spec: [agents/base.py], which declares [Action], is
    not among the sources.  An action is a requested horizontal and vertical
    acceleration plus a boolean kick intent; [engine.py] reads [ax], [ay] and
    [kick] and builds [Action(0.0, 0.0)], the neutral action with zero
    acceleration and no kick, so [kick] defaults to [False]. *)
Record Action := mkAction { a_ax : R; a_ay : R; a_kick : bool }.

Definition default_action : Action := mkAction 0 0 false.

(** What the engine reads of an agent object: the player it decides for.
    Its [get_action] is external code; what it did on a tick is part of the
    tick's input below. *)
Record Agent := mkAgent { agent_team_id : Z; agent_player_id : Z }.

Definition agent_key (a : Agent) : Z * Z := (agent_team_id a, agent_player_id a).

(** ** game/engine.py *)

(** What [future.result] does for a future that [as_completed] yields: it
    returns the action, raises an [Exception] of the agent, or raises an
    exception of the agent that is no [Exception]. *)
Inductive FutureResult :=
  | Result (a : Action)
  | Exception
  | BaseException.

(** The environment of one tick.  [completed] lists the futures that
    [as_completed] yields before the timeout, in completion order, each named
    by the position of its agent in [all_agents]; the agents that are absent
    from it did not answer in time.  [stuck] lists, by the same positions,
    the agents whose [get_action] never returns on this tick; the other
    agents that did not answer in time finish later.  [uniform k] is the
    value of the [k]-th call to [random.uniform] during the tick. *)
Record TickInput := mkTickInput {
  completed : list (nat * FutureResult);
  stuck : list nat;
  uniform : nat -> R
}.

Record Game := mkGame {
  players : list Player;
  ball : Ball;
  goals : list Goal;
  score : list Z;
  tick : Z;
  status : GameStatus;
  goal_celebration_remaining : Z;
  pending_goal_scorer : option Z
}.

Section Engine.
Variable config : GameConfig.
Variables team0_agents team1_agents : list Agent.

(** [Game._setup_players]. *)
Definition team_players (team_id : Z) : list Player :=
  imap (fun i '(px, py) =>
          mkPlayer (mkMotion px py 0 0) (player_radius config)
                   team_id (Z.of_nat i) (player_mass config) 0)
       (get_initial_player_positions config team_id).

Definition _setup_players : list Player := team_players 0 ++ team_players 1.

(** The kickoff velocity that [_setup_ball] and [reset_positions] draw. *)
Definition kickoff_motion (rand : nat -> R) : Motion :=
  let '(bx, by_) := get_initial_ball_position config in
  let angle := rand 0%nat in
  let speed := rand 1%nat in
  mkMotion bx by_ (cos angle * speed) (sin angle * speed).

(** [Game._setup_ball]. *)
Definition _setup_ball (rand : nat -> R) : Ball :=
  mkBall (kickoff_motion rand) (ball_radius config) (ball_mass config).

(** [Game._setup_goals]. *)
Definition _setup_goals : list Goal :=
  [ mkGoal 0 (field_height config / 2) (goal_width config) (goal_height config) 0;
    mkGoal (field_width config) (field_height config / 2)
           (goal_width config) (goal_height config) 1 ].

(** [Game.__init__]. *)
Definition new_game (rand : nat -> R) : Game :=
  mkGame _setup_players (_setup_ball rand) _setup_goals [0; 0]%Z 0 RUNNING 0 None.

(** [Game.get_state]. *)
Definition get_state (g : Game) : GameState :=
  mkGameState (map from_player (players g)) (from_ball (ball g)) (score g)
              (tick g) (status g)
              (field_width config) (field_height config) (goal_height config).

(** The loop over the players in [Game.reset_positions]; the [k]-th player
    of the list takes the draws [2 + 2k] and [3 + 2k]. *)
Fixpoint reset_players (rand : nat -> R) (k : nat) (ps : list Player)
  : result (list Player) :=
  match ps with
  | [] => Return []
  | player :: ps =>
      let jitter := 20%R in
      '(px, py) ←
        (if decide (p_team_id player = 0%Z)
         then py_getitem (get_initial_player_positions config 0) (p_player_id player)
         else py_getitem (get_initial_player_positions config 1) (p_player_id player));
      let m := mkMotion (px + rand (2 + 2 * k)%nat) (py + rand (3 + 2 * k)%nat) 0 0 in
      let player := set_p_kick_cooldown 0 (set_p_motion m player) in
      ps ← reset_players rand (S k) ps;
      Return (player :: ps)
  end.

(** [Game.reset_positions]; the notifications [agent.reset()] leave the
    engine's state alone. *)
Definition reset_positions (rand : nat -> R) (g : Game) : result Game :=
  let ball := set_b_motion (kickoff_motion rand) (ball g) in
  players ← reset_players rand 0 (players g);
  Return (mkGame players ball (goals g) (score g) (tick g) (status g)
                 (goal_celebration_remaining g) (pending_goal_scorer g)).

(** The body of the loop of [Game._process_kicks] for one player. *)
Definition kick_one (actions : gmap (Z * Z) Action) (player : Player)
    (ball : Ball) : Player * Ball :=
  let key := (p_team_id player, p_player_id player) in
  let action := actions !! key in
  let player :=
    if decide (p_kick_cooldown player > 0)%Z
    then set_p_kick_cooldown (p_kick_cooldown player - 1) player
    else player in
  match action with
  | Some action =>
      if a_kick action && bool_decide (p_kick_cooldown player = 0%Z) then
        let pm := p_motion player in
        let bm := b_motion ball in
        let dx := (x bm - x pm)%R in
        let dy := (y bm - y pm)%R in
        let dist := sqrt (dx ^ 2 + dy ^ 2) in
        if decide (dist <= kick_range config)%R then
          let ball :=
            if decide (dist > 1 / 1000)%R then
              let nx := (dx / dist)%R in
              let ny := (dy / dist)%R in
              set_b_motion (mkMotion (x bm) (y bm)
                                     (vx bm + nx * kick_power config)
                                     (vy bm + ny * kick_power config)) ball
            else
              let player_speed := sqrt (vx pm ^ 2 + vy pm ^ 2) in
              if decide (player_speed > 1 / 1000)%R then
                set_b_motion (mkMotion (x bm) (y bm)
                               (vx bm + vx pm / player_speed * kick_power config)
                               (vy bm + vy pm / player_speed * kick_power config))
                             ball
              else ball in
          (set_p_kick_cooldown (kick_cooldown_ticks config) player, ball)
        else (player, ball)
      else (player, ball)
  | None => (player, ball)
  end.

(** [Game._process_kicks]. *)
Fixpoint _process_kicks (actions : gmap (Z * Z) Action) (players : list Player)
    (ball : Ball) : list Player * Ball :=
  match players with
  | [] => ([], ball)
  | player :: rest =>
      let '(player, ball) := kick_one actions player ball in
      let '(rest, ball) := _process_kicks actions rest ball in
      (player :: rest, ball)
  end.

Definition all_agents : list Agent := team0_agents ++ team1_agents.

(** The loop over [as_completed]: the action of every future that completed
    in time is recorded under its agent's key, the default action if the
    future raised an [Exception]; an exception that [except (TimeoutError,
    Exception)] does not catch leaves the loop. *)
Fixpoint record_completed (done : list (nat * FutureResult))
    (actions : gmap (Z * Z) Action) : result (gmap (Z * Z) Action) :=
  match done with
  | [] => Return actions
  | (i, r) :: done =>
      match all_agents !! i with
      | Some agent =>
          match r with
          | Result a =>
              record_completed done (<[agent_key agent := a]> actions)
          | Exception =>
              record_completed done
                (<[agent_key agent := default_action]> actions)
          | BaseException => Raise BaseException_in_agent
          end
      | None => record_completed done actions
      end
  end.

(** Leaving the [with ThreadPoolExecutor(...)] block calls
    [shutdown(wait=True)], which returns once every worker thread has
    finished: never, when an agent is stuck. *)
Definition workers_finish (stuck : list nat) : bool :=
  forallb (fun i => bool_decide (length all_agents <= i)%nat) stuck.

(** The loop that fills in the actions that are still missing. *)
Fixpoint fill_defaults (agents : list Agent) (actions : gmap (Z * Z) Action)
  : gmap (Z * Z) Action :=
  match agents with
  | [] => actions
  | agent :: agents =>
      let key := agent_key agent in
      fill_defaults agents
        (match actions !! key with
         | None => <[key := default_action]> actions
         | Some _ => actions
         end)
  end.

(** [Game._get_agent_actions].  [ThreadPoolExecutor] refuses
    [max_workers = 0], so the call raises when there is no agent at all.
    Otherwise the loop over [as_completed] runs inside the [with] block; the
    block is left, normally or by an exception, only when the executor has
    shut down, and the missing actions are filled in after it. *)
Definition _get_agent_actions (done : list (nat * FutureResult))
    (stuck : list nat) : result (gmap (Z * Z) Action) :=
  if decide (length all_agents = 0%nat) then Raise ValueError_max_workers
  else
    let gathered := record_completed done ∅ in
    if workers_finish stuck
    then actions ← gathered; Return (fill_defaults all_agents actions)
    else Blocks.

(** [for player in self.players: ... apply_acceleration(...)]. *)
Fixpoint apply_actions (actions : gmap (Z * Z) Action) (ps : list Player)
  : result (list Player) :=
  match ps with
  | [] => Return []
  | player :: ps =>
      player ←
        match actions !! (p_team_id player, p_player_id player) with
        | Some action =>
            apply_acceleration config player (a_ax action) (a_ay action)
        | None => Return player
        end;
      ps ← apply_actions actions ps;
      Return (player :: ps)
  end.

(** [self.score[scoring_team] += 1]. *)
Definition score_point (score : list Z) (scoring_team : Z) : result (list Z) :=
  k ← py_index score scoring_team;
  match score !! k with
  | Some v => Return (<[k := (v + 1)%Z]> score)
  | None => Raise IndexError
  end.

(** The celebration branch of [Game.step]. *)
Definition celebration_tick (rand : nat -> R) (g : Game)
  : result (Game * option Z) :=
  '(ps, b) ← update_positions config (players g) (ball g);
  let '(ps, b) := handle_all_collisions config ps b (goals g) in
  let remaining := (goal_celebration_remaining g - 1)%Z in
  let g := mkGame ps b (goals g) (score g) (tick g) (status g) remaining
                  (pending_goal_scorer g) in
  match pending_goal_scorer g with
  | Some scoring_team =>
      if decide (remaining = 0%Z) then
        new_score ← score_point (score g) scoring_team;
        g ← reset_positions rand
              (mkGame (players g) (ball g) (goals g) new_score (tick g)
                      (status g) remaining (Some scoring_team));
        points ← py_getitem new_score scoring_team;
        let ended :=
          if decide (points >= win_score config)%Z then ENDED else status g in
        Return (mkGame (players g) (ball g) (goals g) (score g) (tick g)
                       ended (goal_celebration_remaining g) None,
                Some scoring_team)
      else Return (g, None)
  | None => Return (g, None)
  end.

(** The normal-play branch of [Game.step]. *)
Definition play_tick (done : list (nat * FutureResult)) (stuck : list nat)
    (g : Game) : result (Game * option Z) :=
  actions ← _get_agent_actions done stuck;
  ps ← apply_actions actions (players g);
  let '(ps, b) := _process_kicks actions ps (ball g) in
  '(ps, b) ← update_positions config ps b;
  let '(ps, b) := handle_all_collisions config ps b (goals g) in
  match check_goal config b (goals g) with
  | Some detected_scorer =>
      Return (mkGame ps b (goals g) (score g) (tick g) (status g)
                     (goal_celebration_ticks config) (Some detected_scorer),
              Some detected_scorer)
  | None =>
      Return (mkGame ps b (goals g) (score g) (tick g) (status g)
                     (goal_celebration_remaining g) (pending_goal_scorer g),
              None)
  end.

(** [Game.step]: the game after the call and the returned scoring team.  The
    snapshot [get_state g] goes to the logger and to the agents only. *)
Definition step (inp : TickInput) (g : Game) : result (Game * option Z) :=
  if decide (status g <> RUNNING) then Return (g, None)
  else
    '(g, scoring_team) ←
      (if decide (goal_celebration_remaining g > 0)%Z
       then celebration_tick (uniform inp) g
       else play_tick (completed inp) (stuck inp) g);
    let now := (tick g + 1)%Z in
    let ended := if decide (now >= max_ticks config)%Z then ENDED else status g in
    Return (mkGame (players g) (ball g) (goals g) (score g) now ended
                   (goal_celebration_remaining g) (pending_goal_scorer g),
            scoring_team).

(** The values [random.uniform] may return during [__init__] and
    [reset_positions]: an angle, a speed, then the jitters. *)
Definition uniform_ok (rand : nat -> R) : Prop :=
  (0 <= rand 0%nat <= 2 * PI)%R /\
  (2 <= rand 1%nat <= 5)%R /\
  forall k, (-20 <= rand (2 + k)%nat <= 20)%R.

(** The games that a run of the engine passes through. *)
Inductive reachable : Game -> Prop :=
  | reachable_new rand :
      uniform_ok rand -> reachable (new_game rand)
  | reachable_step g inp g' scored :
      reachable g -> uniform_ok (uniform inp) ->
      step inp g = Return (g', scored) -> reachable g'.

End Engine.

(** ** game/entities.py, continued: goal geometry and the encodings of the
    live entities *)

Section EntityGeometry.
Local Open Scope R_scope.

(** The properties [Goal.left] and [Goal.right]. *)
Definition g_left (g : Goal) : R := g_x g - g_width g / 2.
Definition g_right (g : Goal) : R := g_x g + g_width g / 2.

(** [Goal.contains_point]. *)
Definition contains_point (g : Goal) (px py : R) : bool :=
  bool_decide (g_left g <= px /\ px <= g_right g)
  && bool_decide (g_top g <= py /\ py <= g_bottom g).

End EntityGeometry.

(** [Player.to_dict]. *)
Definition Player_to_dict (p : Player) : pyval :=
  let m := p_motion p in
  VDict [ ("x", VFloat (x m));
          ("y", VFloat (y m));
          ("vx", VFloat (vx m));
          ("vy", VFloat (vy m));
          ("radius", VFloat (p_radius p));
          ("team_id", VInt (p_team_id p));
          ("player_id", VInt (p_player_id p));
          ("mass", VFloat (p_mass p));
          ("kick_cooldown", VInt (p_kick_cooldown p)) ].

(** The value of a field that has a default in the dataclass. *)
Definition field_or {A} (decode : pyval -> option A) (default : A)
    (key : string) (d : list (string * pyval)) : option A :=
  match dict_get key d with
  | Some v => decode v
  | None => Some default
  end.

(** [Player.from_dict]: the constructor on the unpacked dictionary; [mass]
    defaults to 1.0 and [kick_cooldown] to 0. *)
Definition Player_from_dict (data : pyval) : option Player :=
  d ← as_dict data;
  if only_keys ["x"; "y"; "vx"; "vy"; "radius"; "team_id"; "player_id";
                "mass"; "kick_cooldown"] d
  then
    px ← dict_get "x" d ≫= as_float;
    py ← dict_get "y" d ≫= as_float;
    pvx ← dict_get "vx" d ≫= as_float;
    pvy ← dict_get "vy" d ≫= as_float;
    radius ← dict_get "radius" d ≫= as_float;
    team ← dict_get "team_id" d ≫= as_int;
    player ← dict_get "player_id" d ≫= as_int;
    mass ← field_or as_float 1%R "mass" d;
    cooldown ← field_or as_int 0%Z "kick_cooldown" d;
    Some (mkPlayer (mkMotion px py pvx pvy) radius team player mass cooldown)
  else None.

(** [Ball.from_dict]; [mass] defaults to 0.5. *)
Definition Ball_from_dict (data : pyval) : option Ball :=
  d ← as_dict data;
  if only_keys ["x"; "y"; "vx"; "vy"; "radius"; "mass"] d
  then
    bx ← dict_get "x" d ≫= as_float;
    by_ ← dict_get "y" d ≫= as_float;
    bvx ← dict_get "vx" d ≫= as_float;
    bvy ← dict_get "vy" d ≫= as_float;
    radius ← dict_get "radius" d ≫= as_float;
    mass ← field_or as_float (5 / 10)%R "mass" d;
    Some (mkBall (mkMotion bx by_ bvx bvy) radius mass)
  else None.

(** [Goal.to_dict] and [Goal.from_dict]. *)
Definition Goal_to_dict (g : Goal) : pyval :=
  VDict [ ("x", VFloat (g_x g));
          ("y", VFloat (g_y g));
          ("width", VFloat (g_width g));
          ("height", VFloat (g_height g));
          ("team_id", VInt (g_team_id g)) ].

Definition Goal_from_dict (data : pyval) : option Goal :=
  d ← as_dict data;
  if only_keys ["x"; "y"; "width"; "height"; "team_id"] d
  then
    gx ← dict_get "x" d ≫= as_float;
    gy ← dict_get "y" d ≫= as_float;
    width ← dict_get "width" d ≫= as_float;
    height ← dict_get "height" d ≫= as_float;
    team ← dict_get "team_id" d ≫= as_int;
    Some (mkGoal gx gy width height team)
  else None.

(** ** game/engine.py, continued: the run loop and the winner *)

Section EngineRun.
Variable config : GameConfig.
Variables team0_agents team1_agents : list Agent.

(** The loop [while self.status == GameStatus.RUNNING: self.step()] of
    [Game.run].  The [k]-th iteration takes [inputs k] as the environment of
    its tick.  [None] means that the loop is still running when the fuel is
    used up; [Some Blocks] that a call to [step] never returns. *)
Fixpoint run_loop (fuel : nat) (inputs : nat -> TickInput) (k : nat) (g : Game)
  : option (result Game) :=
  if decide (status g = RUNNING) then
    match fuel with
    | O => None
    | S fuel =>
        match step config team0_agents team1_agents (inputs k) g with
        | Return (g, _) => run_loop fuel inputs (S k) g
        | Raise e => Some (Raise e)
        | Blocks => Some Blocks
        end
    end
  else Some (Return g).

(** [Game.run]: the final game and the returned score [tuple(self.score)];
    the final snapshot goes to the logger only. *)
Definition run (fuel : nat) (inputs : nat -> TickInput) (g : Game)
  : option (result (Game * list Z)) :=
  match run_loop fuel inputs 0 g with
  | Some (Return g) => Some (Return (g, score g))
  | Some (Raise e) => Some (Raise e)
  | Some Blocks => Some Blocks
  | None => None
  end.

End EngineRun.

(** [Game.get_winner]. *)
Definition get_winner (g : Game) : result (option Z) :=
  if decide (status g <> ENDED) then Return None
  else
    s0 ← py_getitem (score g) 0;
    s1 ← py_getitem (score g) 1;
    if decide (s0 > s1)%Z then Return (Some 0%Z)
    else if decide (s1 > s0)%Z then Return (Some 1%Z)
    else Return None.

(** ** game_logging/logger.py *)

(** The state of a [GameLogger] that the engine can observe: the interval,
    the encoded states so far, and whether the log was finalized.  The output
    file is written by [finalize] and is not part of the state. *)
Record GameLogger := mkLogger {
  log_interval : Z;
  states : list pyval;
  finalized : bool
}.

(** [GameLogger.__init__]. *)
Definition new_logger (interval : Z) : GameLogger := mkLogger interval [] false.

Inductive log_error := ZeroDivisionError.

(** [GameLogger.log_state]: [state.tick % self.log_interval] raises when the
    interval is 0; Python's [%] takes the sign of the divisor, as [Z.modulo]
    does. *)
Definition log_state (logger : GameLogger) (state : GameState)
  : log_error + GameLogger :=
  if finalized logger then inr logger
  else if decide (log_interval logger = 0%Z) then inl ZeroDivisionError
  else if decide (gs_tick state mod log_interval logger = 0)%Z
  then inr (mkLogger (log_interval logger)
                     (states logger ++ [GameState_to_dict state]) false)
  else inr logger.

(** [GameLogger.finalize]: the logger afterwards and, when the call writes
    the file, the dictionary it dumps.  [config_dict] stands for
    [self.config.to_dict()]. *)
Definition finalize (config_dict : pyval) (logger : GameLogger)
  : GameLogger * option pyval :=
  if finalized logger then (logger, None)
  else
    (mkLogger (log_interval logger) (states logger) true,
     Some (VDict [ ("version", VStr "1.0");
                   ("config", config_dict);
                   ("states", VList (states logger));
                   ("total_ticks", VInt (Z.of_nat (length (states logger)))) ])).

(** Logging a sequence of snapshots, one call to [log_state] each. *)
Fixpoint log_states (logger : GameLogger) (snapshots : list GameState)
  : log_error + GameLogger :=
  match snapshots with
  | [] => inr logger
  | s :: snapshots =>
      match log_state logger s with
      | inr logger => log_states logger snapshots
      | inl e => inl e
      end
  end.

(** ** main.py: [create_agents] *)

(** The agent classes of [agents/random_agent.py]. *)
Inductive AgentClass :=
  | RandomAgent | ChaserAgent | GoalieAgent | StrikerAgent | DefenderAgent
  | InterceptorAgent | MidfielderAgent | AggressorAgent | WingerAgent.

(** An agent object as [create_agents] builds it: [cls(team_id, player_id)]. *)
Record AgentObject := mkAgentObject {
  agent_class : AgentClass;
  agent_of : Agent
}.

(** The class that [create_agents] picks for player [i] of team [team];
    [choice team i] is what [random.choice] returns for that player in the
    "randomized" line-up.  An unknown [agent_type] matches no branch. *)
Definition agent_class_for (agent_type : string)
    (choice : Z -> nat -> AgentClass) (team : Z) (i : nat) : option AgentClass :=
  if decide (agent_type = "random") then Some RandomAgent
  else if decide (agent_type = "chaser") then Some ChaserAgent
  else if decide (agent_type = "mixed") then
    Some (if decide (i = 0%nat) then GoalieAgent else ChaserAgent)
  else if decide (agent_type = "tactical") then
    Some (if decide (i = 0%nat) then GoalieAgent
          else if decide (i = 1%nat) then DefenderAgent else StrikerAgent)
  else if decide (agent_type = "aggressive") then Some AggressorAgent
  else if decide (agent_type = "interceptor") then
    Some (if decide (i = 0%nat) then GoalieAgent else InterceptorAgent)
  else if decide (agent_type = "balanced") then
    Some (if decide (i = 0%nat) then GoalieAgent
          else if decide (i = 1%nat) then MidfielderAgent else StrikerAgent)
  else if decide (agent_type = "wings") then
    Some (if decide (i = 0%nat) then GoalieAgent else WingerAgent)
  else if decide (agent_type = "diverse") then
    [GoalieAgent; DefenderAgent; StrikerAgent; MidfielderAgent;
     InterceptorAgent; AggressorAgent; WingerAgent] !! (i mod 7)%nat
  else if decide (agent_type = "randomized") then Some (choice team i)
  else None.

(** The agents of one team: [for i in range(n)], nothing when no branch
    matches.  [n] is [config.players_per_team]; [range(n)] is empty for
    [n <= 0]. *)
Definition team_agents (agent_type : string) (choice : Z -> nat -> AgentClass)
    (n : Z) (team : Z) : list AgentObject :=
  omap (fun i => cls ← agent_class_for agent_type choice team i;
                 Some (mkAgentObject cls (mkAgent team (Z.of_nat i))))
       (seq 0 (Z.to_nat n)).

(** [create_agents]. *)
Definition create_agents (n : Z) (agent_type : string)
    (choice : Z -> nat -> AgentClass) : list AgentObject * list AgentObject :=
  (team_agents agent_type choice n 0, team_agents agent_type choice n 1).

(** * Vocabulary of the statements *)

Section Vocabulary.
Local Open Scope R_scope.

(** A player state with the two identifiers asked for. *)
Definition player_matches (team_id player_id : Z) (p : PlayerState) : Prop :=
  ps_team_id p = team_id /\ ps_player_id p = player_id.

(** The vertical span that the two goals of the engine share. *)
Definition in_goal_mouth (config : GameConfig) (ball : Ball) : Prop :=
  field_height config / 2 - goal_height config / 2 <= y (b_motion ball) /\
  y (b_motion ball) <= field_height config / 2 + goal_height config / 2.

(** The distance from the player to the ball that the kick test measures. *)
Definition ball_distance (player : Player) (ball : Ball) : R :=
  sqrt ((x (b_motion ball) - x (p_motion player)) ^ 2
        + (y (b_motion ball) - y (p_motion player)) ^ 2).

(** The cooldown once [if player.kick_cooldown > 0: player.kick_cooldown -= 1]
    has run. *)
Definition cooldown_after_decrement (player : Player) : Z :=
  if decide (p_kick_cooldown player > 0)%Z
  then (p_kick_cooldown player - 1)%Z
  else p_kick_cooldown player.

Definition decrement_cooldown (player : Player) : Player :=
  set_p_kick_cooldown (cooldown_after_decrement player) player.

(** A legal kick: the player's action asks for one and the cooldown is zero
    after the decrement. *)
Definition legal_kick (actions : gmap (Z * Z) Action) (player : Player) : Prop :=
  exists action,
    actions !! (p_team_id player, p_player_id player) = Some action /\
    a_kick action = true /\
    cooldown_after_decrement player = 0%Z.

(** The distance between the centres of two entities. *)
Definition centre_distance (e1 e2 : Motion) : R :=
  sqrt ((x e2 - x e1) ^ 2 + (y e2 - y e1) ^ 2).

(** Every agent decides for a player of its own. *)
Definition distinct_players (team0_agents team1_agents : list Agent) : Prop :=
  NoDup (agent_key <$> all_agents team0_agents team1_agents).

(** The team and player identifiers of the players, in list order. *)
Definition identities (ps : list Player) : list (Z * Z) :=
  (fun p => (p_team_id p, p_player_id p)) <$> ps.

Definition same_identity (p q : Player) : Prop :=
  p_team_id q = p_team_id p /\ p_player_id q = p_player_id p.

(** An identifier pair that [reset_positions] can look up: team 0 or 1 and an
    index into that team's formation. *)
Definition valid_identity (config : GameConfig) (k : Z * Z) : Prop :=
  (k.1 = 0 /\ 0 <= k.2 < Z.of_nat (length (get_initial_player_positions config 0)))%Z \/
  (k.1 = 1 /\ 0 <= k.2 < Z.of_nat (length (get_initial_player_positions config 1)))%Z.

(** What every game of a run satisfies. *)
Definition engine_inv (config : GameConfig) (g : Game) : Prop :=
  goals g = _setup_goals config /\
  (exists s0 s1, score g = [s0; s1]) /\
  (forall t, pending_goal_scorer g = Some t -> t = 0%Z \/ t = 1%Z) /\
  ((goal_celebration_remaining g > 0)%Z -> pending_goal_scorer g <> None) /\
  identities (players g) = identities (_setup_players config).

End Vocabulary.

(** * Vocabulary of the further statements *)

Section MoreVocabulary.
Local Open Scope R_scope.

(** The second player is the first one up to its position and velocity. *)
Definition same_body (p q : Player) : Prop :=
  p_radius q = p_radius p /\ p_team_id q = p_team_id p /\
  p_player_id q = p_player_id p /\ p_mass q = p_mass p /\
  p_kick_cooldown q = p_kick_cooldown p.

(** The second player has the build of the first: radius, mass and
    identifiers. *)
Definition same_build (p q : Player) : Prop :=
  p_radius q = p_radius p /\ p_team_id q = p_team_id p /\
  p_player_id q = p_player_id p /\ p_mass q = p_mass p.

(** An entity of the given radius lies in the playable area: within the four
    walls outside the corner regions, within the limit circle inside one. *)
Definition playable (config : GameConfig) (e : Motion) (radius : R) : Prop :=
  match _is_in_corner_region config (x e) (y e) with
  | Some (cx, cy) =>
      sqrt ((x e - cx) ^ 2 + (y e - cy) ^ 2) <= corner_radius config - radius
  | None =>
      radius <= x e <= field_width config - radius /\
      radius <= y e <= field_height config - radius
  end.


(** Two circles that do not overlap. *)
Definition apart (e1 : Motion) (r1 : R) (e2 : Motion) (r2 : R) : Prop :=
  centre_distance e1 e2 >= r1 + r2.

Definition players_apart (p q : Player) : Prop :=
  apart (p_motion p) (p_radius p) (p_motion q) (p_radius q).

(** No two players of the list overlap. *)
Fixpoint all_apart (ps : list Player) : Prop :=
  match ps with
  | [] => True
  | p :: ps => Forall (players_apart p) ps /\ all_apart ps
  end.

(** The second ball has the radius and the mass of the first. *)
Definition same_ball_build (b b' : Ball) : Prop :=
  b_radius b' = b_radius b /\ b_mass b' = b_mass b.

(** The ball does not overlap the player. *)
Definition ball_apart (ball : Ball) (p : Player) : Prop :=
  apart (p_motion p) (p_radius p) (b_motion ball) (b_radius ball).

(** The test that [check_goal] makes for one goal: the ball is within the
    goal's vertical span and entirely beyond the line of that goal. *)
Definition crossed (config : GameConfig) (goal : Goal) (ball : Ball) : Prop :=
  (g_top goal <= y (b_motion ball) /\ y (b_motion ball) <= g_bottom goal) /\
  if decide (g_team_id goal = 0%Z)
  then x (b_motion ball) + b_radius ball <= 0
  else x (b_motion ball) - b_radius ball >= field_width config.

(** The formation slot that [reset_positions] looks up for a player. *)
Definition formation_slot (config : GameConfig) (p : Player) : result (R * R) :=
  if decide (p_team_id p = 0%Z)
  then py_getitem (get_initial_player_positions config 0) (p_player_id p)
  else py_getitem (get_initial_player_positions config 1) (p_player_id p).

(** A player as [reset_positions] leaves it: at rest, free to kick, and
    within the jitter of 20 of its formation slot in both coordinates. *)
Definition lined_up (config : GameConfig) (p : Player) : Prop :=
  vx (p_motion p) = 0 /\ vy (p_motion p) = 0 /\ p_kick_cooldown p = 0%Z /\
  exists px py,
    formation_slot config p = Return (px, py) /\
    px - 20 <= x (p_motion p) <= px + 20 /\
    py - 20 <= y (p_motion p) <= py + 20.

(** A ball as a kickoff leaves it: at the initial ball position with a speed
    between 2 and 5. *)
Definition kicked_off (config : GameConfig) (b : Ball) : Prop :=
  (x (b_motion b), y (b_motion b)) = get_initial_ball_position config /\
  2 <= speed (b_motion b) <= 5.

(** What [_process_kicks] keeps of a player: everything but the cooldown. *)
Definition same_but_cooldown (p q : Player) : Prop :=
  p_motion q = p_motion p /\ same_build p q.

(** The cooldown of the player is between zero and the configured ticks. *)
Definition cooldown_in_range (config : GameConfig) (p : Player) : Prop :=
  (0 <= p_kick_cooldown p <= kick_cooldown_ticks config)%Z.

(** The momentum of two bodies along each axis. *)
Definition momentum_x (e1 e2 : Motion) (m1 m2 : R) : R :=
  m1 * vx e1 + m2 * vx e2.
Definition momentum_y (e1 e2 : Motion) (m1 m2 : R) : R :=
  m1 * vy e1 + m2 * vy e2.

(** The axis along which [_resolve_circle_collision] separates: the unit
    vector from the first centre to the second, or the x axis when the
    centres are less than 0.001 apart. *)
Definition contact_normal (e1 e2 : Motion) : R * R :=
  let dist := centre_distance e1 e2 in
  if decide (dist < 1 / 1000) then (1, 0)
  else ((x e2 - x e1) / dist, (y e2 - y e1) / dist).

(** The velocity of the second body relative to the first along an axis. *)
Definition closing_speed (e1 e2 : Motion) (n : R * R) : R :=
  (vx e2 - vx e1) * n.1 + (vy e2 - vy e1) * n.2.

End MoreVocabulary.

(** * Sample data

    A 1000 by 600 field with one player per team; the radii and masses are
    those of the entities in the repository's own test script. *)

Section Samples.
Local Open Scope R_scope.

Definition sample_config : GameConfig :=
  {| field_width := 1000; field_height := 600; corner_radius := 50;
     goal_width := 10; goal_height := 120;
     player_radius := 20; player_mass := 1;
     player_max_speed := 5; player_max_acceleration := 1 / 2;
     ball_radius := 10; ball_mass := 1 / 2;
     ball_max_speed := 15; ball_friction := 98 / 100;
     kick_range := 40; kick_power := 10; kick_cooldown_ticks := 30;
     goal_celebration_ticks := 60; win_score := 5; max_ticks := 3000;
     get_initial_player_positions := fun team =>
       if decide (team = 0%Z) then [(250, 300)] else [(750, 300)];
     get_initial_ball_position := (500, 300) |}.

(** One agent per team. *)
Definition home_agent : Agent := mkAgent 0 0.
Definition away_agent : Agent := mkAgent 1 0.

(** The snapshot of the repository's agent test: one player per team. *)
Definition two_player_state : GameState :=
  mkGameState [ mkPlayerState 250 300 0 0 0 0 0; mkPlayerState 750 300 0 0 1 0 0 ]
              (mkBallState 500 300 0 0) [0; 0]%Z 0 RUNNING 1000 600 120.

(** A ball of radius 10 at the height of the goal centre. *)
Definition goal_line_ball (bx : R) : Ball :=
  mkBall (mkMotion bx 300 0 0) 10 (1 / 2).

(** A player of team 0 at (300, 300) at rest, with a given cooldown; a ball
    30 units away, within the kick range of 40, and one 100 units away; an
    action that requests a kick. *)
Definition kicker (cooldown : Z) : Player :=
  mkPlayer (mkMotion 300 300 0 0) 20 0 0 1 cooldown.

Definition near_ball : Ball := mkBall (mkMotion 330 300 0 0) 10 (1 / 2).
Definition far_ball : Ball := mkBall (mkMotion 400 300 0 0) 10 (1 / 2).

Definition kick_actions : gmap (Z * Z) Action :=
  {[ (0%Z, 0%Z) := mkAction 0 0 true ]}.

(** Two circles at rest on the line y = 300 with their centres 20 apart, and
    two with their centres 0.0005 apart. *)
Definition left_circle : Motion := mkMotion 400 300 0 0.
Definition right_circle : Motion := mkMotion 420 300 0 0.
Definition close_left : Motion := mkMotion 400 300 0 0.
Definition close_right : Motion := mkMotion (400 + 1 / 2000) 300 0 0.

(** An entity in the top-left corner region of the sample field, 50 units
    from the arc centre (50, 50), moving straight outwards at speed 5. *)
Definition corner_entity : Motion := mkMotion 20 10 (-3) (-4).

(** A game in play on the sample field: the player of team 0 stands at
    (300, 300), the player of team 1 at (750, 300), and the ball comes at
    the first player from the right at its maximum speed of 15.  Every speed
    is within its maximum and nothing overlaps. *)
Definition standing_home : Player := mkPlayer (mkMotion 300 300 0 0) 20 0 0 1 0.
Definition standing_away : Player := mkPlayer (mkMotion 750 300 0 0) 20 1 0 1 0.
Definition incoming_ball : Ball := mkBall (mkMotion 344 300 (-15) 0) 10 (1 / 2).

Definition struck_game : Game :=
  mkGame [standing_home; standing_away] incoming_ball
         (_setup_goals sample_config) [0; 0]%Z 100 RUNNING 0 None.

(** The draws of a kickoff: angle 0, speed 2, no jitter. *)
Definition kickoff_draws : nat -> R :=
  fun k => match k with 1%nat => 2 | _ => 0 end.

(** The tick in which no agent answers before the timeout, and the actions
    gathered on it. *)
Definition silent_tick : TickInput := mkTickInput [] [] (fun _ => 0).

Definition silent_actions : gmap (Z * Z) Action :=
  fill_defaults (all_agents [home_agent] [away_agent]) ∅.

(** The tick on which the first agent asks for a kick in time and the second
    does not answer before the timeout: once with the second agent
    answering late, once with the second agent never answering. *)
Definition kick_tick : TickInput :=
  mkTickInput [(0%nat, Result (mkAction 0 0 true))] [] kickoff_draws.
Definition stuck_tick : TickInput :=
  mkTickInput [(0%nat, Result (mkAction 0 0 true))] [1%nat] kickoff_draws.

Definition kick_actions_gathered : gmap (Z * Z) Action :=
  fill_defaults (all_agents [home_agent] [away_agent])
    (<[(0%Z, 0%Z) := mkAction 0 0 true]> ∅).

(** The ball after [update_positions], and the first player and the ball
    after the collision between them. *)
Definition arrived_ball : Ball :=
  mkBall (mkMotion 329 300 (-147 / 10) 0) 10 (1 / 2).
Definition pushed_home : Player :=
  mkPlayer (mkMotion (899 / 3) 300 (-931 / 100) 0) 20 0 0 1 0.
Definition bounced_ball : Ball :=
  mkBall (mkMotion (989 / 3) 300 (392 / 100) 0) 10 (1 / 2).


(** The sample configuration with the two players next to the kickoff
    point: the first 30 to its left, within the kick range of 40 and just not
    touching the ball, the second 41 to its right. *)
Definition compact_config : GameConfig :=
  {| field_width := 1000; field_height := 600; corner_radius := 50;
     goal_width := 10; goal_height := 120;
     player_radius := 20; player_mass := 1;
     player_max_speed := 5; player_max_acceleration := 1 / 2;
     ball_radius := 10; ball_mass := 1 / 2;
     ball_max_speed := 15; ball_friction := 98 / 100;
     kick_range := 40; kick_power := 10; kick_cooldown_ticks := 30;
     goal_celebration_ticks := 60; win_score := 5; max_ticks := 3000;
     get_initial_player_positions := fun team =>
       if decide (team = 0%Z) then [(470, 300)] else [(541, 300)];
     get_initial_ball_position := (500, 300) |}.

(** The first tick of a game on [compact_config] with the kickoff of
    [kickoff_draws], on which the first agent asks for a kick: the players
    and the ball at the kickoff, after the kick, after [update_positions],
    and after the collision of the ball with the second player. *)
Definition waiting_home : Player := mkPlayer (mkMotion 470 300 0 0) 20 0 0 1 0.
Definition waiting_away : Player := mkPlayer (mkMotion 541 300 0 0) 20 1 0 1 0.
Definition kickoff_ball : Ball := mkBall (mkMotion 500 300 2 0) 10 (1 / 2).
Definition kicking_home : Player := mkPlayer (mkMotion 470 300 0 0) 20 0 0 1 30.
Definition kicked_ball : Ball := mkBall (mkMotion 500 300 12 0) 10 (1 / 2).
Definition flying_ball : Ball := mkBall (mkMotion 512 300 (294 / 25) 0) 10 (1 / 2).
Definition pushed_away : Player :=
  mkPlayer (mkMotion (1624 / 3) 300 (931 / 125) 0) 20 1 0 1 0.
Definition rebounding_ball : Ball :=
  mkBall (mkMotion (1534 / 3) 300 (-392 / 125) 0) 10 (1 / 2).

Definition kickoff_game : Game :=
  mkGame [waiting_home; waiting_away] kickoff_ball
         (_setup_goals compact_config) [0; 0]%Z 0 RUNNING 0 None.
Definition kicked_game : Game :=
  mkGame [kicking_home; pushed_away] rebounding_ball
         (_setup_goals compact_config) [0; 0]%Z 1 RUNNING 0 None.

(** The last tick of a celebration: the countdown is at 1 and team 1 is the
    pending scorer. *)
Definition celebrating_game : Game :=
  mkGame [standing_home; standing_away] incoming_ball
         (_setup_goals sample_config) [0; 0]%Z 100 RUNNING 1 (Some 1%Z).

(** The game of [struck_game] one tick later. *)
Definition pushed_game : Game :=
  mkGame [pushed_home; standing_away] bounced_ball
         (_setup_goals sample_config) [0; 0]%Z 101 RUNNING 0 None.

(** The tick of a celebration's end: nobody is asked, the kickoff draws are
    those of [kickoff_draws]. *)
Definition kickoff_tick : TickInput := mkTickInput [] [] kickoff_draws.

(** The game of [celebrating_game] one tick later, with the kickoff of
    [kickoff_draws]. *)
Definition awarded_game : Game :=
  mkGame [ mkPlayer (mkMotion 250 300 0 0) 20 0 0 1 0;
           mkPlayer (mkMotion 750 300 0 0) 20 1 0 1 0 ]
         (mkBall (mkMotion 500 300 2 0) 10 (1 / 2))
         (_setup_goals sample_config) [0; 1]%Z 101 RUNNING 0 None.

(** The sample configuration without a celebration phase. *)
Definition hasty_config : GameConfig :=
  {| field_width := 1000; field_height := 600; corner_radius := 50;
     goal_width := 10; goal_height := 120;
     player_radius := 20; player_mass := 1;
     player_max_speed := 5; player_max_acceleration := 1 / 2;
     ball_radius := 10; ball_mass := 1 / 2;
     ball_max_speed := 15; ball_friction := 98 / 100;
     kick_range := 40; kick_power := 10; kick_cooldown_ticks := 30;
     goal_celebration_ticks := 0; win_score := 5; max_ticks := 3000;
     get_initial_player_positions := fun team =>
       if decide (team = 0%Z) then [(250, 300)] else [(750, 300)];
     get_initial_ball_position := (500, 300) |}.

End Samples.

(** * Properties *)

(** ** Square roots of the distances that occur *)

Section Numerics.
Local Open Scope R_scope.

Lemma sqrt_is (a r : R) : 0 <= r -> r * r = a -> sqrt a = r.
Proof. intros Hr Ha. apply sqrt_lem_1; [nra | assumption | assumption]. Qed.

Lemma sum_sq_nonneg (a b : R) : 0 <= a ^ 2 + b ^ 2.
Proof. nra. Qed.

Lemma sqrt_sum_sq_sq (a b : R) : sqrt (a ^ 2 + b ^ 2) ^ 2 = a ^ 2 + b ^ 2.
Proof.
  replace (sqrt (a ^ 2 + b ^ 2) ^ 2)
    with (sqrt (a ^ 2 + b ^ 2) * sqrt (a ^ 2 + b ^ 2)) by ring.
  apply sqrt_sqrt, sum_sq_nonneg.
Qed.

(** Scaling a vector of length [d] to length [m]. *)
Lemma sqrt_rescaled (a b m : R) :
  let d := sqrt (a ^ 2 + b ^ 2) in
  0 < d -> 0 <= m ->
  sqrt ((a / d * m) ^ 2 + (b / d * m) ^ 2) = m.
Proof.
  intros d Hd Hm. apply sqrt_is; [assumption|].
  pose proof (sqrt_sum_sq_sq a b) as Hsq. fold d in Hsq.
  replace ((a / d * m) ^ 2 + (b / d * m) ^ 2)
    with ((a ^ 2 + b ^ 2) * (m / d) ^ 2) by (field; lra).
  rewrite <- Hsq. field. lra.
Qed.

End Numerics.

(** Equality of entities, field by field. *)
Lemma mkMotion_eq (a b c d a' b' c' d' : R) :
  a = a' -> b = b' -> c = c' -> d = d' ->
  mkMotion a b c d = mkMotion a' b' c' d'.
Proof. congruence. Qed.

Lemma mkPlayer_eq m m' (r r' : R) (t i : Z) (w w' : R) (c c' : Z) :
  m = m' -> r = r' -> w = w' -> c = c' ->
  mkPlayer m r t i w c = mkPlayer m' r' t i w' c'.
Proof. congruence. Qed.

Lemma mkBall_eq m m' (r r' w w' : R) :
  m = m' -> r = r' -> w = w' -> mkBall m r w = mkBall m' r' w'.
Proof. congruence. Qed.

(** Reduction of the setters and projections of entities and configurations
    only, so that the real-number literals stay as they are written. *)
Ltac project :=
  unfold set_p_motion, set_p_kick_cooldown, set_b_motion in *;
  cbn [x y vx vy p_motion p_radius p_team_id p_player_id p_mass p_kick_cooldown
       b_motion b_radius b_mass g_x g_y g_width g_height g_team_id
       field_width field_height corner_radius goal_width goal_height
       player_radius player_mass player_max_speed player_max_acceleration
       ball_radius ball_mass ball_max_speed ball_friction
       kick_range kick_power kick_cooldown_ticks goal_celebration_ticks
       win_score max_ticks a_ax a_ay a_kick fst snd] in *.

(** Equalities between concrete entities, solved field by field. *)
Ltac same_entities :=
  repeat first [ apply (f_equal2 (@pair _ _)) | apply mkPlayer_eq
               | apply mkBall_eq | apply mkMotion_eq
               | apply (f_equal2 (@cons _)) ];
  first [ reflexivity | lra | lia ].

(** ** The outcome of a sequence of calls *)

Lemma bind_Return {A B} (m : result A) (k : A -> result B) (b : B) :
  m ≫= k = Return b -> exists a, m = Return a /\ k a = Return b.
Proof. destruct m as [a|e|]; [by exists a|discriminate..]. Qed.

(** ** [GameState.get_player] *)

Section GetPlayer.

Lemma find_player_first players team_id player_id p :
  find_player players team_id player_id = Return p ->
  exists before after,
    players = before ++ p :: after /\
    player_matches team_id player_id p /\
    Forall (fun q => ~ player_matches team_id player_id q) before.
Proof.
  induction players as [|q players IH]; simpl; [discriminate|].
  case_decide as Hq.
  - intros [= ->]. exists [], players.
    split; [reflexivity|]. split; [exact Hq|constructor].
  - intros Hfind. destruct (IH Hfind) as (before & after & -> & Hp & Hnone).
    exists (q :: before), after.
    split; [reflexivity|]. split; [exact Hp|by constructor].
Qed.

Lemma find_player_raises players team_id player_id e :
  find_player players team_id player_id = Raise e ->
  e = ValueError_player_not_found team_id player_id /\
  Forall (fun q => ~ player_matches team_id player_id q) players.
Proof.
  induction players as [|q players IH]; simpl.
  - intros [= <-]. by split.
  - case_decide as Hq; [discriminate|].
    intros Hfind. destruct (IH Hfind) as [-> Hnone]. split; [done|].
    by constructor.
Qed.

Lemma find_player_never_blocks players team_id player_id :
  find_player players team_id player_id <> Blocks.
Proof.
  induction players as [|q players IH]; simpl; [discriminate|].
  by case_decide.
Qed.

(** C9. [get_player] returns a contained player state whose team and player
    identifiers both match (the first such state) when one exists, and raises
    [ValueError] when none exists; it never returns anything else. *)
Theorem get_player_found_or_raises (s : GameState) (team_id player_id : Z) :
  ((exists p, p ∈ gs_players s /\ player_matches team_id player_id p) ->
   exists p before after,
     get_player s team_id player_id = Return p /\
     gs_players s = before ++ p :: after /\
     player_matches team_id player_id p /\
     Forall (fun q => ~ player_matches team_id player_id q) before) /\
  ((forall p, p ∈ gs_players s -> ~ player_matches team_id player_id p) ->
   get_player s team_id player_id
   = Raise (ValueError_player_not_found team_id player_id)).
Proof.
  unfold get_player. split.
  - intros (p & Hin & Hp).
    destruct (find_player (gs_players s) team_id player_id) as [q|e|] eqn:Hfind.
    + destruct (find_player_first _ _ _ _ Hfind) as (before & after & ? & ? & ?).
      by exists q, before, after.
    + destruct (find_player_raises _ _ _ _ Hfind) as [_ Hnone].
      rewrite Forall_forall in Hnone. destruct (Hnone p Hin Hp).
    + by destruct (find_player_never_blocks _ _ _ Hfind).
  - intros Hnone.
    destruct (find_player (gs_players s) team_id player_id) as [q|e|] eqn:Hfind.
    + destruct (find_player_first _ _ _ _ Hfind) as (before & after & Hs & Hq & _).
      destruct (Hnone q); [|done]. rewrite Hs. set_solver.
    + by destruct (find_player_raises _ _ _ _ Hfind) as [-> _].
    + by destruct (find_player_never_blocks _ _ _ Hfind).
Qed.

Lemma get_player_found_or_raises_witness :
  (exists p before after,
     get_player two_player_state 1 0 = Return p /\
     gs_players two_player_state = before ++ p :: after /\
     player_matches 1 0 p /\
     Forall (fun q => ~ player_matches 1 0 q) before) /\
  get_player two_player_state 0 1 = Raise (ValueError_player_not_found 0 1).
Proof.
  split.
  - apply (proj1 (get_player_found_or_raises two_player_state 1 0)).
    exists (mkPlayerState 750 300 0 0 1 0 0). split; [|by split].
    apply list_elem_of_In. right. by left.
  - apply (proj2 (get_player_found_or_raises two_player_state 0 1)).
    intros p Hin [Hteam Hid].
    apply list_elem_of_In in Hin. simpl in Hin.
    destruct Hin as [<-|[<-|[]]]; simpl in *; lia.
Defined.

End GetPlayer.

(** ** [Physics.check_goal] *)

Section CheckGoal.
Local Open Scope R_scope.
Variable config : GameConfig.

(** [check_goal] on the goals of [_setup_goals], branch by branch. *)
Lemma check_goal_setup_goals (ball : Ball) :
  check_goal config ball (_setup_goals config) =
  if decide (in_goal_mouth config ball) then
    if decide (x (b_motion ball) + b_radius ball <= 0) then Some 1%Z
    else if decide (x (b_motion ball) - b_radius ball >= field_width config)
         then Some 0%Z else None
  else None.
Proof.
  unfold _setup_goals, check_goal, g_top, g_bottom.
  cbn [g_y g_height g_team_id].
  destruct (decide (in_goal_mouth config ball)) as [Hy|Hy].
  - rewrite !bool_decide_eq_true_2 by exact Hy. cbn [negb].
    repeat case_decide; try reflexivity; exfalso; lia.
  - rewrite !bool_decide_eq_false_2 by exact Hy. reflexivity.
Qed.

(** C2. For the two goals of the engine, a ball of non-negative radius on a
    field wider than 0.01: [check_goal] returns team 1, the opponent of the
    left goal's defender, exactly when the ball is within the goal's span
    and [ball.x + radius <= 0]; team 0 exactly when it is within the span
    and [ball.x - radius >= field_width]; nothing exactly when neither
    holds.  A ball in the span centred at [-radius + 0.01] scores nothing,
    one centred at [-radius - 0.01] scores for team 1. *)
Theorem check_goal_exact (ball : Ball) :
  0 <= b_radius ball ->
  1 / 100 < field_width config ->
  let bx := x (b_motion ball) in
  let r := b_radius ball in
  let scored := check_goal config ball (_setup_goals config) in
  (scored = Some 1%Z <-> in_goal_mouth config ball /\ bx + r <= 0) /\
  (scored = Some 0%Z <-> in_goal_mouth config ball /\ bx - r >= field_width config) /\
  (scored = None <->
     ~ (in_goal_mouth config ball /\ bx + r <= 0) /\
     ~ (in_goal_mouth config ball /\ bx - r >= field_width config)) /\
  (in_goal_mouth config ball -> bx = - r + 1 / 100 -> scored = None) /\
  (in_goal_mouth config ball -> bx = - r - 1 / 100 -> scored = Some 1%Z).
Proof.
  intros Hr Hw. cbv zeta. rewrite check_goal_setup_goals.
  destruct (decide (in_goal_mouth config ball)) as [Hm|Hm];
    [destruct (decide (x (b_motion ball) + b_radius ball <= 0)) as [Ha|Ha];
     [|destruct (decide (x (b_motion ball) - b_radius ball
                         >= field_width config)) as [Hb|Hb]]|];
    repeat split; intros;
    first [ reflexivity | congruence | assumption | tauto | lra
          | apply Hm | exfalso; lra | exfalso; tauto ].
Qed.

End CheckGoal.

Section CheckGoalSample.
Local Open Scope R_scope.

Lemma check_goal_exact_witness :
  check_goal sample_config (goal_line_ball (- 10 + 1 / 100))
             (_setup_goals sample_config) = None /\
  check_goal sample_config (goal_line_ball (- 10 - 1 / 100))
             (_setup_goals sample_config) = Some 1%Z.
Proof.
  assert (Hmouth : forall bx, in_goal_mouth sample_config (goal_line_ball bx)).
  { intros bx. unfold in_goal_mouth. simpl. lra. }
  split.
  - apply (check_goal_exact sample_config (goal_line_ball (- 10 + 1 / 100)));
      [simpl; lra | simpl; lra | apply Hmouth | reflexivity].
  - apply (check_goal_exact sample_config (goal_line_ball (- 10 - 1 / 100)));
      [simpl; lra | simpl; lra | apply Hmouth | reflexivity].
Defined.

End CheckGoalSample.

(** ** [Game._process_kicks] *)

Section Kicks.
Variable config : GameConfig.

Lemma decrement_cooldown_eq (player : Player) :
  (if decide (p_kick_cooldown player > 0)%Z
   then set_p_kick_cooldown (p_kick_cooldown player - 1) player
   else player) = decrement_cooldown player.
Proof.
  unfold decrement_cooldown, cooldown_after_decrement.
  case_decide; [reflexivity|]. by destruct player.
Qed.

(** Without a legal kick the iteration only decrements the cooldown. *)
Lemma kick_one_not_legal actions player ball :
  ~ legal_kick actions player ->
  kick_one config actions player ball = (decrement_cooldown player, ball).
Proof.
  intros Hnot. unfold kick_one. rewrite decrement_cooldown_eq.
  destruct (actions !! _) as [action|] eqn:Hact; [|reflexivity].
  destruct (a_kick action) eqn:Hkick; [|reflexivity].
  rewrite bool_decide_eq_false_2; [reflexivity|].
  intros Hzero. apply Hnot. exists action. by repeat split.
Qed.

(** A legal kick with the ball out of range changes nothing more. *)
Lemma kick_one_out_of_range actions player ball :
  legal_kick actions player ->
  (ball_distance player ball > kick_range config)%R ->
  kick_one config actions player ball = (decrement_cooldown player, ball).
Proof.
  intros (action & Hact & Hkick & Hzero) Hfar.
  unfold kick_one. rewrite decrement_cooldown_eq, Hact, Hkick.
  rewrite bool_decide_eq_true_2 by exact Hzero. cbn [andb].
  rewrite decide_False; [reflexivity|].
  unfold ball_distance in Hfar. cbn [decrement_cooldown set_p_kick_cooldown p_motion].
  lra.
Qed.

(** A legal kick with the ball in range resets the cooldown. *)
Lemma kick_one_in_range actions player ball :
  legal_kick actions player ->
  (ball_distance player ball <= kick_range config)%R ->
  exists ball',
    kick_one config actions player ball
    = (set_p_kick_cooldown (kick_cooldown_ticks config) player, ball') /\
    (ball_distance player ball <= 1 / 1000 ->
     speed (p_motion player) <= 1 / 1000 -> ball' = ball)%R.
Proof.
  intros (action & Hact & Hkick & Hzero) Hnear.
  unfold kick_one. rewrite decrement_cooldown_eq, Hact, Hkick.
  rewrite bool_decide_eq_true_2 by exact Hzero. cbn [andb].
  unfold ball_distance, speed in *.
  cbn [decrement_cooldown set_p_kick_cooldown p_motion p_radius p_team_id
       p_player_id p_mass] in *.
  rewrite decide_True by exact Hnear.
  eexists. split; [reflexivity|].
  intros Hclose Hslow.
  rewrite decide_False by lra. rewrite decide_False by lra. reflexivity.
Qed.

(** A legal kick with the ball in range and not on the player pushes the
    ball along the direction from the player to the ball. *)
Lemma kick_one_push actions player ball :
  let pm := p_motion player in
  let bm := b_motion ball in
  let dist := ball_distance player ball in
  legal_kick actions player ->
  (dist <= kick_range config)%R ->
  (dist > 1 / 1000)%R ->
  kick_one config actions player ball
  = (set_p_kick_cooldown (kick_cooldown_ticks config) player,
     set_b_motion
       (mkMotion (x bm) (y bm)
                 (vx bm + (x bm - x pm) / dist * kick_power config)
                 (vy bm + (y bm - y pm) / dist * kick_power config)) ball).
Proof.
  intros pm bm dist (action & Hact & Hkick & Hzero) Hnear Hapart.
  unfold kick_one. rewrite decrement_cooldown_eq, Hact, Hkick.
  rewrite bool_decide_eq_true_2 by exact Hzero. cbn [andb].
  subst pm bm dist. unfold ball_distance in *.
  cbn [decrement_cooldown set_p_kick_cooldown p_motion] in *.
  rewrite decide_True by exact Hnear.
  rewrite decide_True by exact Hapart. reflexivity.
Qed.

Lemma _process_kicks_app actions before after ball :
  _process_kicks config actions (before ++ after) ball =
  let '(before', ball1) := _process_kicks config actions before ball in
  let '(after', ball2) := _process_kicks config actions after ball1 in
  (before' ++ after', ball2).
Proof.
  revert ball. induction before as [|p before IH]; intros ball; simpl.
  - by destruct (_process_kicks config actions after ball).
  - destruct (kick_one config actions p ball) as [p' ball1].
    rewrite IH.
    destruct (_process_kicks config actions before ball1) as [before' ball2].
    by destruct (_process_kicks config actions after ball2).
Qed.

(** C3, as the code has it.  A player whose cooldown is greater than 1 at the
    start of the tick, so still positive after the decrement: whatever its
    action requests, its iteration leaves the ball as it is and takes exactly
    1 off the cooldown, and the whole of [_process_kicks] is the processing
    of the players before it followed by that of the players after it. *)
Theorem kick_ignored_while_cooling_down actions before player after ball :
  (p_kick_cooldown player > 1)%Z ->
  kick_one config actions player ball
  = (set_p_kick_cooldown (p_kick_cooldown player - 1) player, ball) /\
  _process_kicks config actions (before ++ player :: after) ball =
  let '(before', ball1) := _process_kicks config actions before ball in
  let '(after', ball2) := _process_kicks config actions after ball1 in
  (before' ++ set_p_kick_cooldown (p_kick_cooldown player - 1) player :: after',
   ball2).
Proof.
  intros Hcool.
  assert (Hone : forall b, kick_one config actions player b
            = (set_p_kick_cooldown (p_kick_cooldown player - 1) player, b)).
  { intros b. rewrite kick_one_not_legal.
    - unfold decrement_cooldown, cooldown_after_decrement.
      by rewrite decide_True by lia.
    - intros (action & _ & _ & Hzero). unfold cooldown_after_decrement in Hzero.
      rewrite decide_True in Hzero by lia. lia. }
  split; [apply Hone|].
  rewrite _process_kicks_app.
  destruct (_process_kicks config actions before ball) as [before' ball1].
  simpl. rewrite Hone.
  by destruct (_process_kicks config actions after ball1).
Qed.

(** C5, as the code has it.  On a legal kick the cooldown is reset to the
    configured number of ticks when the ball is within the kick range,
    whether or not an impulse is applied: a player that coincides with the
    ball and stands still leaves the ball untouched and still has its
    cooldown reset.  With the ball out of range nothing is reset: the
    cooldown stays at zero and the ball is untouched. *)
Theorem legal_kick_resets_cooldown_in_range actions player ball :
  legal_kick actions player ->
  ((ball_distance player ball <= kick_range config)%R ->
   p_kick_cooldown (kick_one config actions player ball).1
   = kick_cooldown_ticks config) /\
  ((ball_distance player ball <= kick_range config)%R ->
   (ball_distance player ball <= 1 / 1000)%R ->
   (speed (p_motion player) <= 1 / 1000)%R ->
   kick_one config actions player ball
   = (set_p_kick_cooldown (kick_cooldown_ticks config) player, ball)) /\
  ((ball_distance player ball > kick_range config)%R ->
   kick_one config actions player ball = (set_p_kick_cooldown 0 player, ball)).
Proof.
  intros Hlegal. repeat split.
  - intros Hnear.
    destruct (kick_one_in_range actions player ball Hlegal Hnear)
      as (ball' & -> & _). reflexivity.
  - intros Hnear Hclose Hslow.
    destruct (kick_one_in_range actions player ball Hlegal Hnear)
      as (ball' & -> & Hsame). by rewrite Hsame.
  - intros Hfar. rewrite kick_one_out_of_range by assumption.
    destruct Hlegal as (_ & _ & _ & Hzero).
    unfold decrement_cooldown. by rewrite Hzero.
Qed.

End Kicks.

Section KickSamples.
Local Open Scope R_scope.

Lemma near_ball_distance c : ball_distance (kicker c) near_ball = 30.
Proof. unfold ball_distance, kicker, near_ball. project. apply sqrt_is; lra. Qed.

Lemma far_ball_distance c : ball_distance (kicker c) far_ball = 100.
Proof. unfold ball_distance, kicker, far_ball. project. apply sqrt_is; lra. Qed.

Lemma kicker_legal c :
  cooldown_after_decrement (kicker c) = 0%Z -> legal_kick kick_actions (kicker c).
Proof.
  intros Hzero. exists (mkAction 0 0 true).
  split; [apply lookup_singleton_eq|]. by split.
Qed.

(** A player with cooldown 1 kicks the near ball: the ball is pushed and the
    cooldown is reset. *)
Lemma kick_at_cooldown_one :
  kick_one sample_config kick_actions (kicker 1) near_ball
  = (kicker 30, mkBall (mkMotion 330 300 10 0) 10 (1 / 2)).
Proof.
  rewrite kick_one_push; rewrite ?near_ball_distance.
  - unfold kicker, near_ball, sample_config. project. same_entities.
  - by apply kicker_legal.
  - unfold sample_config. project. lra.
  - lra.
Qed.

(** C3, refuted as stated: a cooldown of 1 is positive at the start of the
    tick, yet the kick requested on that tick pushes the ball and the
    cooldown goes to the configured 30 instead of down by 1. *)
Lemma kick_at_cooldown_one_counterexample :
  (p_kick_cooldown (kicker 1) > 0)%Z /\
  let after := kick_one sample_config kick_actions (kicker 1) near_ball in
  vx (b_motion after.2) <> vx (b_motion near_ball) /\
  p_kick_cooldown after.1 <> (p_kick_cooldown (kicker 1) - 1)%Z.
Proof.
  split; [reflexivity|].
  cbv zeta. rewrite kick_at_cooldown_one. simpl. split; [lra|lia].
Qed.

Lemma kick_ignored_while_cooling_down_witness :
  kick_one sample_config kick_actions (kicker 2) near_ball
  = (set_p_kick_cooldown (2 - 1) (kicker 2), near_ball).
Proof.
  apply (kick_ignored_while_cooling_down sample_config kick_actions
           [] (kicker 2) [] near_ball).
  reflexivity.
Defined.

(** C5, refuted as stated: a legal kick with the ball out of range leaves the
    cooldown at zero instead of the configured 30. *)
Lemma legal_kick_out_of_range_counterexample :
  legal_kick kick_actions (kicker 0) /\
  (ball_distance (kicker 0) far_ball > kick_range sample_config) /\
  p_kick_cooldown (kick_one sample_config kick_actions (kicker 0) far_ball).1
  <> kick_cooldown_ticks sample_config.
Proof.
  assert (Hlegal : legal_kick kick_actions (kicker 0)) by by apply kicker_legal.
  assert (Hfar : ball_distance (kicker 0) far_ball > kick_range sample_config).
  { rewrite far_ball_distance. simpl. lra. }
  repeat split; [exact Hlegal|exact Hfar|].
  rewrite kick_one_out_of_range by assumption.
  unfold decrement_cooldown, cooldown_after_decrement, kicker, sample_config.
  project. rewrite decide_False by lia. lia.
Qed.

Lemma legal_kick_resets_cooldown_in_range_witness :
  p_kick_cooldown (kick_one sample_config kick_actions (kicker 0) near_ball).1
  = 30%Z.
Proof.
  apply (legal_kick_resets_cooldown_in_range sample_config kick_actions
           (kicker 0) near_ball).
  - by apply kicker_legal.
  - rewrite near_ball_distance. simpl. lra.
Defined.

End KickSamples.

(** ** [Physics._resolve_circle_collision] *)

Section Collision.
Local Open Scope R_scope.

Lemma centre_distance_nonneg e1 e2 : 0 <= centre_distance e1 e2.
Proof. apply sqrt_pos. Qed.

(** The contact normal is a unit vector when the centres are apart. *)
Lemma unit_normal (dx dy : R) :
  let dist := sqrt (dx ^ 2 + dy ^ 2) in
  0 < dist -> (dx / dist) ^ 2 + (dy / dist) ^ 2 = 1.
Proof.
  intros dist Hpos. pose proof (sqrt_sum_sq_sq dx dy) as Hsq. fold dist in Hsq.
  replace ((dx / dist) ^ 2 + (dy / dist) ^ 2)
    with ((dx ^ 2 + dy ^ 2) / dist ^ 2) by (field; lra).
  rewrite <- Hsq. field. lra.
Qed.

(** The length of a multiple of a unit vector. *)
Lemma sqrt_scaled_unit (nx ny k : R) :
  nx ^ 2 + ny ^ 2 = 1 -> 0 <= k -> sqrt ((nx * k) ^ 2 + (ny * k) ^ 2) = k.
Proof.
  intros Hunit Hk. apply sqrt_is; [assumption|].
  replace ((nx * k) ^ 2 + (ny * k) ^ 2) with ((nx ^ 2 + ny ^ 2) * (k * k)) by ring.
  rewrite Hunit. ring.
Qed.

(** No overlap: nothing changes and the call returns [False]. *)
Lemma resolve_apart e1 r1 e2 r2 m1 m2 restitution :
  centre_distance e1 e2 >= r1 + r2 ->
  _resolve_circle_collision e1 r1 e2 r2 m1 m2 restitution = (e1, e2, false).
Proof.
  intros Hapart. unfold _resolve_circle_collision.
  by rewrite decide_True by exact Hapart.
Qed.

(** Overlap with the centres at least 0.001 apart: the positions after the
    call. *)
Lemma resolve_overlap_positions e1 r1 e2 r2 m1 m2 restitution :
  let dist := centre_distance e1 e2 in
  let nx := (x e2 - x e1) / dist in
  let ny := (y e2 - y e1) / dist in
  let overlap := r1 + r2 - dist in
  dist < r1 + r2 -> 1 / 1000 <= dist ->
  let after := _resolve_circle_collision e1 r1 e2 r2 m1 m2 restitution in
  after.2 = true /\
  x after.1.1 = x e1 - nx * overlap * (m2 / (m1 + m2)) /\
  y after.1.1 = y e1 - ny * overlap * (m2 / (m1 + m2)) /\
  x after.1.2 = x e2 + nx * overlap * (m1 / (m1 + m2)) /\
  y after.1.2 = y e2 + ny * overlap * (m1 / (m1 + m2)).
Proof.
  intros dist nx ny overlap Hover Hapart after.
  subst after. unfold _resolve_circle_collision.
  fold (centre_distance e1 e2). fold dist.
  rewrite decide_False by lra. rewrite decide_False by lra.
  fold nx ny overlap.
  case_decide; cbn [fst snd x y]; repeat split; reflexivity.
Qed.

(** Overlap with the centres less than 0.001 apart: the code separates along
    the x axis as if the centres were at distance 1. *)
Lemma resolve_near_coincident_positions e1 r1 e2 r2 m1 m2 restitution :
  let dist := centre_distance e1 e2 in
  dist < r1 + r2 -> dist < 1 / 1000 ->
  let after := _resolve_circle_collision e1 r1 e2 r2 m1 m2 restitution in
  x after.1.1 = x e1 - (r1 + r2 - 1) * (m2 / (m1 + m2)) /\
  y after.1.1 = y e1 /\
  x after.1.2 = x e2 + (r1 + r2 - 1) * (m1 / (m1 + m2)) /\
  y after.1.2 = y e2.
Proof.
  intros dist Hover Hnear after.
  subst after. unfold _resolve_circle_collision.
  fold (centre_distance e1 e2). fold dist.
  rewrite decide_False by lra. rewrite decide_True by lra.
  case_decide; cbn [fst snd x y]; repeat split;
    unfold Rdiv; rewrite ?Rinv_1; ring.
Qed.

(** C6, as the code has it.  Two overlapping circles whose centres are at
    least 0.001 apart (the threshold under which the code treats them as
    coincident), with positive masses: each circle is moved along the contact
    normal by the overlap times the other circle's share of the total mass,
    and afterwards the centres are exactly [r1 + r2] apart.  With masses 1
    and 3 and an overlap of 10 the lighter circle moves 7.5 and the heavier
    2.5. *)
Theorem collision_separates_by_mass_share e1 r1 e2 r2 m1 m2 restitution :
  let dist := centre_distance e1 e2 in
  let nx := (x e2 - x e1) / dist in
  let ny := (y e2 - y e1) / dist in
  let overlap := r1 + r2 - dist in
  dist < r1 + r2 -> 1 / 1000 <= dist -> 0 < m1 -> 0 < m2 ->
  let after := _resolve_circle_collision e1 r1 e2 r2 m1 m2 restitution in
  let e1' := after.1.1 in
  let e2' := after.1.2 in
  (x e1' = x e1 - nx * (overlap * (m2 / (m1 + m2))) /\
   y e1' = y e1 - ny * (overlap * (m2 / (m1 + m2))) /\
   x e2' = x e2 + nx * (overlap * (m1 / (m1 + m2))) /\
   y e2' = y e2 + ny * (overlap * (m1 / (m1 + m2)))) /\
  centre_distance e1 e1' = overlap * (m2 / (m1 + m2)) /\
  centre_distance e2 e2' = overlap * (m1 / (m1 + m2)) /\
  centre_distance e1' e2' = r1 + r2 /\
  (m1 = 1 -> m2 = 3 -> overlap = 10 ->
   centre_distance e1 e1' = 75 / 10 /\ centre_distance e2 e2' = 25 / 10).
Proof.
  intros dist nx ny overlap Hover Hapart Hm1 Hm2 after e1' e2'.
  destruct (resolve_overlap_positions e1 r1 e2 r2 m1 m2 restitution Hover Hapart)
    as (_ & Hx1 & Hy1 & Hx2 & Hy2).
  fold dist nx ny overlap after e1' e2' in Hx1, Hy1, Hx2, Hy2.
  assert (Hunit : nx ^ 2 + ny ^ 2 = 1).
  { apply unit_normal. change (0 < dist). lra. }
  assert (Hshare1 : 0 <= overlap * (m2 / (m1 + m2))).
  { apply Rmult_le_pos; [unfold overlap; lra|].
    apply Rlt_le, Rdiv_lt_0_compat; lra. }
  assert (Hshare2 : 0 <= overlap * (m1 / (m1 + m2))).
  { apply Rmult_le_pos; [unfold overlap; lra|].
    apply Rlt_le, Rdiv_lt_0_compat; lra. }
  assert (Hmoved1 : centre_distance e1 e1' = overlap * (m2 / (m1 + m2))).
  { unfold centre_distance. rewrite Hx1, Hy1.
    rewrite <- (sqrt_scaled_unit nx ny _ Hunit Hshare1). f_equal. ring. }
  assert (Hmoved2 : centre_distance e2 e2' = overlap * (m1 / (m1 + m2))).
  { unfold centre_distance. rewrite Hx2, Hy2.
    rewrite <- (sqrt_scaled_unit nx ny _ Hunit Hshare2). f_equal. ring. }
  split; [repeat split; [rewrite Hx1|rewrite Hy1|rewrite Hx2|rewrite Hy2]; ring|].
  split; [exact Hmoved1|]. split; [exact Hmoved2|]. split.
  - unfold centre_distance. rewrite Hx1, Hy1, Hx2, Hy2.
    assert (Hsum : 0 <= r1 + r2) by lra.
    rewrite <- (sqrt_scaled_unit nx ny _ Hunit Hsum). f_equal.
    unfold nx, ny, overlap. field. lra.
  - intros -> -> Hten. rewrite Hmoved1, Hmoved2, Hten. split; field.
Qed.

End Collision.

Section CollisionSamples.
Local Open Scope R_scope.

Lemma circles_distance : centre_distance left_circle right_circle = 20.
Proof. unfold centre_distance, left_circle, right_circle. project. apply sqrt_is; lra. Qed.

Lemma collision_separates_by_mass_share_witness :
  let after := _resolve_circle_collision left_circle 15 right_circle 15 1 3 (5 / 10) in
  centre_distance left_circle after.1.1 = 75 / 10 /\
  centre_distance right_circle after.1.2 = 25 / 10.
Proof.
  apply (collision_separates_by_mass_share left_circle 15 right_circle 15 1 3 (5 / 10));
    rewrite ?circles_distance; lra.
Defined.

Lemma close_distance : centre_distance close_left close_right = 1 / 2000.
Proof. unfold centre_distance, close_left, close_right. project. apply sqrt_is; lra. Qed.

(** C6, refuted as stated: the centres differ and the circles overlap by
    19.9995, yet the lighter circle is moved by 19 * 3/4 = 14.25 instead of
    19.9995 * 3/4, and the circles still overlap afterwards. *)
Lemma near_coincident_counterexample :
  let after := _resolve_circle_collision close_left 10 close_right 10 1 3 (5 / 10) in
  let overlap := 10 + 10 - centre_distance close_left close_right in
  x close_left <> x close_right /\
  0 < overlap /\
  centre_distance close_left after.1.1 <> overlap * (3 / (1 + 3)) /\
  centre_distance after.1.1 after.1.2 < 10 + 10.
Proof.
  cbv zeta.
  destruct (resolve_near_coincident_positions close_left 10 close_right 10 1 3 (5 / 10))
    as (Hx1 & Hy1 & Hx2 & Hy2); rewrite ?close_distance; try lra.
  set (after := _resolve_circle_collision _ _ _ _ _ _ _) in *.
  assert (Hmoved : centre_distance close_left after.1.1 = 1425 / 100).
  { unfold centre_distance. rewrite Hx1, Hy1. apply sqrt_is; [lra|].
    unfold close_left. project. field. }
  assert (Hafter : centre_distance after.1.1 after.1.2 = 19 + 1 / 2000).
  { unfold centre_distance. rewrite Hx1, Hy1, Hx2, Hy2. apply sqrt_is; [lra|].
    unfold close_left, close_right. project. field. }
  rewrite Hmoved, Hafter. unfold close_left, close_right. project.
  repeat split; lra.
Qed.

End CollisionSamples.

(** ** [Physics._enforce_boundary] in a corner region *)

Section Corner.
Local Open Scope R_scope.
Variable config : GameConfig.

(** In a corner region the call is the corner branch alone: the straight-wall
    checks are not run. *)
Lemma enforce_boundary_in_corner e radius is_ball cx cy :
  _is_in_corner_region config (x e) (y e) = Some (cx, cy) ->
  _enforce_boundary config e radius is_ball
  = enforce_corner config e radius is_ball cx cy.
Proof. intros Hcorner. unfold _enforce_boundary. by rewrite Hcorner. Qed.

(** What the corner branch does to an entity beyond the limit circle: the
    entity is put on the circle of radius [corner_radius - radius] around the
    arc centre, the tangential velocity is kept, and an outward radial
    velocity [dot] becomes [(1 - 2 * restitution) * dot]. *)
Lemma enforce_corner_beyond_limit e radius is_ball cx cy :
  let dist := sqrt ((x e - cx) ^ 2 + (y e - cy) ^ 2) in
  let nx := (x e - cx) / dist in
  let ny := (y e - cy) / dist in
  let max_dist := corner_radius config - radius in
  let dot := vx e * nx + vy e * ny in
  let e' := enforce_corner config e radius is_ball cx cy in
  dist > max_dist -> dist > 1 / 1000 ->
  x e' = cx + nx * max_dist /\
  y e' = cy + ny * max_dist /\
  (0 <= max_dist -> sqrt ((x e' - cx) ^ 2 + (y e' - cy) ^ 2) = max_dist) /\
  vx e' * - ny + vy e' * nx = vx e * - ny + vy e * nx /\
  (dot > 0 ->
   vx e' * nx + vy e' * ny = (1 - 2 * boundary_restitution is_ball) * dot) /\
  (dot <= 0 -> vx e' = vx e /\ vy e' = vy e).
Proof.
  intros dist nx ny max_dist dot e' Hbeyond Hapart.
  assert (Hunit : nx ^ 2 + ny ^ 2 = 1) by (apply unit_normal; fold dist; lra).
  subst e'. unfold enforce_corner. fold dist max_dist.
  rewrite decide_True by exact Hbeyond. rewrite decide_True by exact Hapart.
  fold nx ny dot.
  assert (Hcircle : 0 <= max_dist ->
            sqrt ((cx + nx * max_dist - cx) ^ 2 + (cy + ny * max_dist - cy) ^ 2)
            = max_dist).
  { intros Hpos. rewrite <- (sqrt_scaled_unit nx ny max_dist Hunit Hpos) at 3.
    f_equal. ring. }
  case_decide; cbn [x y vx vy]; repeat split;
    try reflexivity; try exact Hcircle; try (intros; exfalso; lra).
  - ring.
  - intros _.
    replace ((vx e - 2 * dot * nx * boundary_restitution is_ball) * nx +
             (vy e - 2 * dot * ny * boundary_restitution is_ball) * ny)
      with (dot - 2 * dot * boundary_restitution is_ball * (nx ^ 2 + ny ^ 2))
      by (unfold dot; ring).
    rewrite Hunit. ring.
Qed.

End Corner.

Section CornerSamples.
Local Open Scope R_scope.

Lemma corner_entity_region :
  _is_in_corner_region sample_config (x corner_entity) (y corner_entity)
  = Some (50, 50).
Proof.
  unfold _is_in_corner_region, corner_entity, sample_config. project.
  rewrite decide_True by lra. reflexivity.
Qed.

Lemma corner_entity_distance :
  sqrt ((x corner_entity - 50) ^ 2 + (y corner_entity - 50) ^ 2) = 50.
Proof. unfold corner_entity. project. apply sqrt_is; lra. Qed.

(** C4, evaluated.  The entity moves outwards along the radial direction
    (-3/5, -4/5) with radial velocity 5.  As a player (restitution 0.5) it
    is put on the limit circle and stopped: the radial velocity becomes 0,
    not -0.5 * 5.  As the ball (restitution 0.8) its radial velocity becomes
    -3, not -0.8 * 5. *)
Theorem corner_bounce_is_not_restitution_scaled :
  let nx := -3 / 5 in
  let ny := -4 / 5 in
  let radial e := vx e * nx + vy e * ny in
  let player' := _enforce_boundary sample_config corner_entity 20 false in
  let ball' := _enforce_boundary sample_config corner_entity 10 true in
  radial corner_entity = 5 /\
  player' = mkMotion 32 26 0 0 /\
  radial player' = 0 /\ radial player' <> - (5 / 10) * radial corner_entity /\
  ball' = mkMotion 26 18 (18 / 10) (24 / 10) /\
  radial ball' = -3 /\ radial ball' <> - (8 / 10) * radial corner_entity.
Proof.
  cbv zeta.
  assert (Hplayer : _enforce_boundary sample_config corner_entity 20 false
                    = mkMotion 32 26 0 0).
  { rewrite (enforce_boundary_in_corner _ _ _ _ _ _ corner_entity_region).
    unfold enforce_corner. rewrite corner_entity_distance.
    unfold corner_entity, sample_config, boundary_restitution. project.
    rewrite !decide_True by lra. same_entities. }
  assert (Hball : _enforce_boundary sample_config corner_entity 10 true
                  = mkMotion 26 18 (18 / 10) (24 / 10)).
  { rewrite (enforce_boundary_in_corner _ _ _ _ _ _ corner_entity_region).
    unfold enforce_corner. rewrite corner_entity_distance.
    unfold corner_entity, sample_config, boundary_restitution. project.
    rewrite !decide_True by lra. same_entities. }
  rewrite Hplayer, Hball. unfold corner_entity. project.
  repeat split; lra.
Qed.

End CornerSamples.

(** ** Dictionary encoding of the snapshots *)

Section Serialization.

Lemma PlayerState_roundtrip (p : PlayerState) :
  PlayerState_from_dict (PlayerState_to_dict p) = Some p.
Proof. by destruct p. Qed.

Lemma BallState_roundtrip (b : BallState) :
  BallState_from_dict (BallState_to_dict b) = Some b.
Proof. by destruct b. Qed.

Lemma status_roundtrip (s : GameStatus) :
  status_of_value (status_value s) = Some s.
Proof. by destruct s. Qed.

Lemma decode_all_map {A} (encode : A -> pyval) (decode : pyval -> option A)
    (l : list A) :
  (forall a, decode (encode a) = Some a) ->
  decode_all decode (map encode l) = Some l.
Proof.
  intros Hinv. induction l as [|a l IH]; [reflexivity|].
  simpl. rewrite Hinv, IH. reflexivity.
Qed.

Lemma GameState_roundtrip (s : GameState) :
  GameState_from_dict (GameState_to_dict s) = Some s.
Proof.
  destruct s as [ps b sc t st fw fh gh].
  unfold GameState_from_dict, GameState_to_dict.
  cbn [as_dict mbind option_bind gs_players gs_ball gs_score gs_tick gs_status
       gs_field_width gs_field_height gs_goal_height].
  change (dict_get "players" _) with (Some (VList (map PlayerState_to_dict ps))).
  change (dict_get "ball" _) with (Some (BallState_to_dict b)).
  change (dict_get "score" _) with (Some (VList (map VInt sc))).
  change (dict_get "tick" _) with (Some (VInt t)).
  change (dict_get "status" _) with (Some (VStr (status_value st))).
  change (dict_get "field_width" _) with (Some (VFloat fw)).
  change (dict_get "field_height" _) with (Some (VFloat fh)).
  change (dict_get "goal_height" _) with (Some (VFloat gh)).
  cbn [as_list as_int as_str as_float mbind option_bind].
  rewrite (decode_all_map PlayerState_to_dict PlayerState_from_dict ps
             PlayerState_roundtrip).
  rewrite (decode_all_map VInt as_int sc) by reflexivity.
  cbn [mbind option_bind].
  rewrite BallState_roundtrip, status_roundtrip. reflexivity.
Qed.

(** C7, as the code has it.  Decoding the encoding of a [PlayerState], of a
    [BallState] or of a [GameState] gives the value back; the status is
    encoded as the tag "running" or "ended"; the encoding of the ball's
    snapshot has exactly the keys [x], [y], [vx] and [vy], its position and
    velocity. *)
Theorem snapshot_encoding_roundtrip :
  (forall p, PlayerState_from_dict (PlayerState_to_dict p) = Some p) /\
  (forall b, BallState_from_dict (BallState_to_dict b) = Some b) /\
  (forall s, GameState_from_dict (GameState_to_dict s) = Some s) /\
  (status_value RUNNING = "running" /\ status_value ENDED = "ended" /\
   forall s, as_dict (GameState_to_dict s) ≫= dict_get "status"
             = Some (VStr (status_value (gs_status s)))) /\
  (forall ball,
     BallState_to_dict (from_ball ball)
     = VDict [ ("x", VFloat (x (b_motion ball)));
               ("y", VFloat (y (b_motion ball)));
               ("vx", VFloat (vx (b_motion ball)));
               ("vy", VFloat (vy (b_motion ball))) ]).
Proof.
  split; [exact PlayerState_roundtrip|].
  split; [exact BallState_roundtrip|].
  split; [exact GameState_roundtrip|].
  split; [|reflexivity].
  split; [reflexivity|]. split; reflexivity.
Qed.

(** C7, refuted as stated: the radius and the mass of the ball are not in the
    encoding of its snapshot, so two balls that differ in both have the same
    encoding. *)
Lemma ball_snapshot_drops_radius_and_mass :
  let ball1 := mkBall (mkMotion 500 300 0 0) 10 (1 / 2) in
  let ball2 := mkBall (mkMotion 500 300 0 0) 12 1 in
  b_radius ball1 <> b_radius ball2 /\
  b_mass ball1 <> b_mass ball2 /\
  BallState_to_dict (from_ball ball1) = BallState_to_dict (from_ball ball2) /\
  as_dict (BallState_to_dict (from_ball ball1)) ≫= dict_get "radius" = None /\
  as_dict (BallState_to_dict (from_ball ball1)) ≫= dict_get "mass" = None.
Proof.
  cbv zeta. project.
  split; [lra|]. split; [lra|]. repeat split; reflexivity.
Qed.

End Serialization.

(** ** [Game._get_agent_actions] *)

Section DecisionGathering.
Variables team0_agents team1_agents : list Agent.

Local Abbreviation agents := (all_agents team0_agents team1_agents).

Lemma fill_defaults_present l actions key a :
  actions !! key = Some a ->
  fill_defaults l actions !! key = Some a.
Proof.
  revert actions. induction l as [|agent l IH]; intros actions Hkey; [done|].
  simpl. apply IH.
  destruct (actions !! agent_key agent) eqn:Hagent; [done|].
  rewrite lookup_insert_ne; [done|].
  intros Heq. rewrite Heq in Hagent. congruence.
Qed.

Lemma fill_defaults_missing l actions agent :
  agent ∈ l -> actions !! agent_key agent = None ->
  fill_defaults l actions !! agent_key agent = Some default_action.
Proof.
  revert actions. induction l as [|other l IH]; intros actions Hin Hnone.
  - by apply elem_of_nil in Hin.
  - simpl. destruct (decide (agent_key other = agent_key agent)) as [Hsame|Hdiff].
    + rewrite Hsame, Hnone. apply fill_defaults_present, lookup_insert_eq.
    + apply elem_of_cons in Hin as [->|Hin]; [done|].
      apply IH; [done|].
      destruct (actions !! agent_key other); [done|].
      by rewrite lookup_insert_ne.
Qed.

End DecisionGathering.

Section DecisionSamples.
Local Open Scope R_scope.

Lemma kickoff_draws_ok : uniform_ok kickoff_draws.
Proof.
  unfold uniform_ok, kickoff_draws. pose proof PI_RGT_0.
  split; [lra|]. split; [lra|]. intros k. simpl. lra.
Qed.

Lemma kick_actions_gathered_home :
  kick_actions_gathered !! (0%Z, 0%Z) = Some (mkAction 0 0 true).
Proof. apply fill_defaults_present, lookup_insert_eq. Qed.

Lemma kick_actions_gathered_away :
  kick_actions_gathered !! (1%Z, 0%Z) = Some default_action.
Proof.
  apply (fill_defaults_missing _ _ away_agent).
  - apply list_elem_of_In. right. by left.
  - rewrite lookup_insert_ne by discriminate. apply lookup_empty.
Qed.

Lemma kick_tick_actions :
  _get_agent_actions [home_agent] [away_agent]
    (completed kick_tick) (stuck kick_tick)
  = Return kick_actions_gathered.
Proof. reflexivity. Qed.

Lemma stuck_tick_blocks :
  _get_agent_actions [home_agent] [away_agent]
    (completed stuck_tick) (stuck stuck_tick)
  = Blocks.
Proof. reflexivity. Qed.

(** C8, evaluated on the first tick of a game with one agent per team.  The
    first agent answers in time on both ticks considered.  When the second
    agent answers late, but does answer, the call returns once it has, with
    the first agent's action and the default action (zero acceleration, no
    kick) for the second.  When the second agent never answers, the call
    does not give it the default action: leaving the [with] block waits for
    its thread, so [_get_agent_actions] and with it [step] never return. *)
Theorem unanswered_source_blocks_the_tick :
  reachable sample_config [home_agent] [away_agent]
            (new_game sample_config kickoff_draws) /\
  (exists actions,
     _get_agent_actions [home_agent] [away_agent]
       (completed kick_tick) (stuck kick_tick) = Return actions /\
     actions !! agent_key home_agent = Some (mkAction 0 0 true) /\
     actions !! agent_key away_agent = Some (mkAction 0 0 false)) /\
  completed stuck_tick = completed kick_tick /\
  stuck stuck_tick = [1%nat] /\
  _get_agent_actions [home_agent] [away_agent]
    (completed stuck_tick) (stuck stuck_tick) = Blocks /\
  step sample_config [home_agent] [away_agent] stuck_tick
       (new_game sample_config kickoff_draws) = Blocks.
Proof.
  split; [apply reachable_new, kickoff_draws_ok|].
  split.
  { exists kick_actions_gathered. split; [exact kick_tick_actions|].
    split; [exact kick_actions_gathered_home|exact kick_actions_gathered_away]. }
  split; [reflexivity|]. split; [reflexivity|].
  split; [exact stuck_tick_blocks|].
  unfold step. cbn [status new_game goal_celebration_remaining].
  rewrite decide_False by (intros Hne; by apply Hne).
  rewrite decide_False by lia.
  unfold play_tick. by rewrite stuck_tick_blocks.
Qed.

End DecisionSamples.

(** ** The players keep their identifiers *)

Section Identities.
Variable config : GameConfig.

Lemma identities_cons p q ps qs :
  same_identity p q -> identities qs = identities ps ->
  identities (q :: qs) = identities (p :: ps).
Proof.
  intros [Ht Hp] Hrest. unfold identities in *.
  rewrite !fmap_cons, Hrest, Ht, Hp. reflexivity.
Qed.

Lemma identities_map (f : Player -> Player) ps :
  (forall p, same_identity p (f p)) ->
  identities (map f ps) = identities ps.
Proof.
  intros Hf. induction ps as [|p ps IH]; [reflexivity|].
  simpl. by apply identities_cons.
Qed.

Lemma apply_acceleration_identity p ax ay p' :
  apply_acceleration config p ax ay = Return p' -> same_identity p p'.
Proof.
  unfold apply_acceleration. intros Hcall.
  apply bind_Return in Hcall as ([ax' ay'] & _ & Hcall).
  apply bind_Return in Hcall as (m & _ & [= <-]). by split.
Qed.

Lemma kick_one_identity actions p b :
  same_identity p (kick_one config actions p b).1.
Proof.
  unfold kick_one.
  repeat first [case_decide | case_match]; by split.
Qed.

Lemma _process_kicks_identities actions ps b :
  identities (_process_kicks config actions ps b).1 = identities ps.
Proof.
  revert b. induction ps as [|p ps IH]; intros b; [reflexivity|].
  simpl. pose proof (kick_one_identity actions p b) as Hone.
  destruct (kick_one config actions p b) as [p' b'].
  specialize (IH b').
  destruct (_process_kicks config actions ps b') as [ps' b''].
  by apply identities_cons.
Qed.

Lemma update_positions_identities ps b ps' b' :
  update_positions config ps b = Return (ps', b') ->
  identities ps' = identities ps.
Proof.
  unfold update_positions. intros Hcall.
  apply bind_Return in Hcall as (m & _ & [= <- _]). by apply identities_map.
Qed.

Lemma enforce_players_identities ps :
  identities (enforce_players config ps) = identities ps.
Proof. by apply identities_map. Qed.

Lemma player_ball_collisions_identities ps b :
  identities (player_ball_collisions ps b).1.1 = identities ps.
Proof.
  revert b. induction ps as [|p ps IH]; intros b; [reflexivity|].
  simpl. destruct (_resolve_circle_collision _ _ _ _ _ _ _) as [[e1 e2] hit].
  specialize (IH (set_b_motion e2 b)).
  destruct (player_ball_collisions ps (set_b_motion e2 b)) as [[ps' b'] hits].
  by apply identities_cons.
Qed.

Lemma collide_with_rest_identities p ps :
  same_identity p (collide_with_rest p ps).1.1 /\
  identities (collide_with_rest p ps).1.2 = identities ps.
Proof.
  revert p. induction ps as [|q ps IH]; intros p; [by repeat split|].
  simpl. destruct (_resolve_circle_collision _ _ _ _ _ _ _) as [[e1 e2] hit].
  destruct (IH (set_p_motion e1 p)) as [Hsame Hrest].
  destruct (collide_with_rest (set_p_motion e1 p) ps) as [[p' ps'] hits].
  split; [exact Hsame|]. by apply identities_cons.
Qed.

Lemma player_player_collisions_identities n ps :
  identities (player_player_collisions n ps).1 = identities ps.
Proof.
  revert ps. induction n as [|n IH]; intros [|p ps]; try reflexivity.
  simpl. destruct (collide_with_rest_identities p ps) as [Hsame Hrest].
  destruct (collide_with_rest p ps) as [[p' ps'] hit].
  specialize (IH ps').
  destruct (player_player_collisions n ps') as [ps'' hits].
  apply identities_cons; [exact Hsame|]. simpl in *. congruence.
Qed.

Lemma collision_pass_identities ps b :
  identities (collision_pass config ps b).1.1 = identities ps.
Proof.
  unfold collision_pass.
  pose proof (player_ball_collisions_identities
                (enforce_players config ps) (enforce_ball config b)) as Hball.
  destruct (player_ball_collisions _ _) as [[ps1 b1] hit1].
  pose proof (player_player_collisions_identities (length ps1) ps1) as Hplayers.
  destruct (player_player_collisions _ _) as [ps2 hit2].
  simpl in *. rewrite enforce_players_identities, Hplayers, Hball.
  apply enforce_players_identities.
Qed.

Lemma collision_loop_identities n ps b :
  identities (collision_loop config n ps b).1 = identities ps.
Proof.
  revert ps b. induction n as [|n IH]; intros ps b; [reflexivity|].
  simpl. pose proof (collision_pass_identities ps b) as Hpass.
  destruct (collision_pass config ps b) as [[ps' b'] hit].
  destruct hit; [by rewrite IH|done].
Qed.

Lemma handle_all_collisions_identities ps b gs :
  identities (handle_all_collisions config ps b gs).1 = identities ps.
Proof. apply collision_loop_identities. Qed.

Lemma apply_actions_identities actions ps ps' :
  apply_actions config actions ps = Return ps' ->
  identities ps' = identities ps.
Proof.
  revert ps'. induction ps as [|p ps IH]; intros ps'; [by intros [= <-]|].
  cbn [apply_actions]. intros Hcall.
  apply bind_Return in Hcall as (p' & Hp & Hcall).
  apply bind_Return in Hcall as (rest & Hrest & [= <-]).
  apply identities_cons; [|by apply IH].
  destruct (actions !! _); [by eapply apply_acceleration_identity|].
  injection Hp as <-. by split.
Qed.

End Identities.

(** ** The score along a run of the engine *)

Section Scoring.
Variable config : GameConfig.
Variables team0_agents team1_agents : list Agent.

Lemma team_players_valid team :
  team = 0%Z \/ team = 1%Z ->
  Forall (valid_identity config) (identities (team_players config team)).
Proof.
  intros Hteam. apply Forall_forall. intros k Hin.
  unfold identities in Hin. apply list_elem_of_fmap in Hin as (p & -> & Hin).
  unfold team_players in Hin.
  apply elem_of_lookup_imap in Hin as (i & [px py] & -> & Hi).
  apply lookup_lt_Some in Hi. unfold valid_identity. simpl.
  destruct Hteam as [-> | ->]; [left|right]; lia.
Qed.

Lemma _setup_players_valid :
  Forall (valid_identity config) (identities (_setup_players config)).
Proof.
  unfold _setup_players, identities. rewrite fmap_app.
  apply Forall_app. split; apply team_players_valid; auto.
Qed.

Lemma py_getitem_in_range {A} (l : list A) (i : Z) :
  (0 <= i < Z.of_nat (length l))%Z -> exists a, py_getitem l i = Return a.
Proof.
  intros Hi. unfold py_getitem, py_index. rewrite decide_True by exact Hi.
  simpl. destruct (l !! Z.to_nat i) as [a|] eqn:Hlookup; [by exists a|].
  apply lookup_ge_None in Hlookup. lia.
Qed.

Lemma reset_players_returns rand k ps :
  Forall (valid_identity config) (identities ps) ->
  exists ps', reset_players config rand k ps = Return ps' /\
              identities ps' = identities ps.
Proof.
  revert k. induction ps as [|p ps IH]; intros k Hvalid; [by exists []|].
  unfold identities in Hvalid. rewrite fmap_cons in Hvalid.
  apply Forall_cons in Hvalid as [Hp Hps].
  destruct (IH (S k) Hps) as (ps' & Hreset & Hids).
  assert (Hpos : exists pos,
    (if decide (p_team_id p = 0%Z)
     then py_getitem (get_initial_player_positions config 0) (p_player_id p)
     else py_getitem (get_initial_player_positions config 1) (p_player_id p))
    = Return pos).
  { destruct Hp as [[Hteam Hid]|[Hteam Hid]]; simpl in Hteam, Hid.
    - rewrite decide_True by exact Hteam. by apply py_getitem_in_range.
    - rewrite decide_False by lia. by apply py_getitem_in_range. }
  destruct Hpos as ([px py] & Hpos).
  simpl. rewrite Hpos. simpl. rewrite Hreset. simpl.
  eexists. split; [reflexivity|]. by apply identities_cons.
Qed.

Lemma score_point_pair s0 s1 t :
  t = 0%Z \/ t = 1%Z ->
  score_point [s0; s1] t
  = Return (if decide (t = 0%Z) then [(s0 + 1)%Z; s1] else [s0; (s1 + 1)%Z]).
Proof. by intros [-> | ->]. Qed.

Lemma new_game_inv rand : engine_inv config (new_game config rand).
Proof.
  unfold engine_inv, new_game. simpl. repeat split; try done.
  by exists 0%Z, 0%Z.
Qed.

(** The celebration branch keeps the shape of the game, and changes the
    score only when the countdown goes from 1 to 0. *)
Lemma celebration_tick_spec rand g g' scored :
  engine_inv config g -> (goal_celebration_remaining g > 0)%Z ->
  celebration_tick config rand g = Return (g', scored) ->
  engine_inv config g' /\
  exists s0 s1, score g = [s0; s1] /\
    match decide (goal_celebration_remaining g = 1%Z) with
    | left _ =>
        (pending_goal_scorer g = Some 0%Z /\ score g' = [(s0 + 1)%Z; s1]) \/
        (pending_goal_scorer g = Some 1%Z /\ score g' = [s0; (s1 + 1)%Z])
    | right _ => score g' = [s0; s1]
    end.
Proof.
  intros (Hgoals & (s0 & s1 & Hscore) & Hpending & Hsome & Hids) Hcelebrating.
  unfold celebration_tick. intros Hcall.
  apply bind_Return in Hcall as ([ps1 b1] & Hmoved & Hcall).
  pose proof (update_positions_identities _ _ _ _ _ Hmoved) as Hup.
  pose proof (handle_all_collisions_identities config ps1 b1 (goals g)) as Hcol.
  destruct (handle_all_collisions config ps1 b1 (goals g)) as [ps2 b2].
  simpl in Hcol. cbn [pending_goal_scorer] in Hcall.
  destruct (pending_goal_scorer g) as [t|] eqn:Ht; [|by destruct (Hsome Hcelebrating)].
  specialize (Hpending t eq_refl).
  destruct (decide (goal_celebration_remaining g - 1 = 0)%Z) as [Hzero|Hmore].
  - cbn [score] in Hcall.
    rewrite Hscore, (score_point_pair s0 s1 t Hpending) in Hcall.
    cbn [mbind result_bind] in Hcall. unfold reset_positions in Hcall.
    cbn [players ball goals score tick status goal_celebration_remaining
         pending_goal_scorer] in Hcall.
    destruct (reset_players_returns rand 0 ps2) as (ps3 & Hplayers & Hreset).
    { rewrite Hcol, Hup, Hids. apply _setup_players_valid. }
    rewrite Hplayers in Hcall.
    cbn [mbind result_bind players ball goals score tick status
         goal_celebration_remaining pending_goal_scorer] in Hcall.
    assert (Hpoints : exists points,
      py_getitem (if decide (t = 0%Z) then [(s0 + 1)%Z; s1] else [s0; (s1 + 1)%Z]) t
      = Return points).
    { apply py_getitem_in_range. destruct Hpending as [-> | ->]; simpl; lia. }
    destruct Hpoints as (points & Hpoints). rewrite Hpoints in Hcall.
    cbn [mbind result_bind] in Hcall. injection Hcall as <- <-. split.
    + unfold engine_inv.
      cbn [players goals score pending_goal_scorer goal_celebration_remaining].
      split; [exact Hgoals|]. split; [case_decide; by eexists _, _|].
      split; [discriminate|]. split; [lia|]. by rewrite Hreset, Hcol, Hup.
    + exists s0, s1. split; [exact Hscore|].
      rewrite decide_True by lia. cbn [score].
      destruct Hpending as [-> | ->]; [left|right]; by split.
  - injection Hcall as <- <-. split.
    + unfold engine_inv.
      cbn [players goals score pending_goal_scorer goal_celebration_remaining].
      split; [exact Hgoals|]. split; [by exists s0, s1|].
      split; [by intros t' [= <-]|]. split; [discriminate|].
      by rewrite Hcol, Hup.
    + exists s0, s1. split; [exact Hscore|].
      rewrite decide_False by lia. exact Hscore.
Qed.

Lemma check_goal_team ball t :
  check_goal config ball (_setup_goals config) = Some t -> t = 0%Z \/ t = 1%Z.
Proof.
  rewrite check_goal_setup_goals.
  repeat case_decide; intros [= <-]; auto.
Qed.

(** The normal-play branch keeps the shape of the game and leaves the score
    alone. *)
Lemma play_tick_spec done stuck g g' scored :
  engine_inv config g ->
  play_tick config team0_agents team1_agents done stuck g = Return (g', scored) ->
  engine_inv config g' /\ score g' = score g.
Proof.
  intros (Hgoals & Hscore & Hpending & Hsome & Hids).
  unfold play_tick. intros Hcall.
  apply bind_Return in Hcall as (actions & _ & Hcall).
  apply bind_Return in Hcall as (ps0 & Hacted & Hcall).
  pose proof (apply_actions_identities _ _ _ _ Hacted) as Hact.
  pose proof (_process_kicks_identities config actions ps0 (ball g)) as Hkick.
  destruct (_process_kicks config actions ps0 (ball g)) as [ps1 b1].
  apply bind_Return in Hcall as ([ps2 b2] & Hmoved & Hcall).
  pose proof (update_positions_identities _ _ _ _ _ Hmoved) as Hup.
  pose proof (handle_all_collisions_identities config ps2 b2 (goals g)) as Hcol.
  destruct (handle_all_collisions config ps2 b2 (goals g)) as [ps3 b3].
  simpl in Hkick, Hcol.
  assert (Hplayers : identities ps3 = identities (_setup_players config))
    by by rewrite Hcol, Hup, Hkick, Hact.
  rewrite Hgoals in Hcall.
  destruct (check_goal config b3 (_setup_goals config)) as [t|] eqn:Hgoal;
    injection Hcall as <- <-; (split; [|reflexivity]); unfold engine_inv;
    cbn [players goals score pending_goal_scorer goal_celebration_remaining].
  - repeat split; try done.
    intros t' [= <-]. by eapply check_goal_team.
  - repeat split; done.
Qed.

(** A call to [step] on a running game is one of the two branches followed by
    the advance of the tick and the check of the time limit. *)
Lemma step_running inp g g' scored :
  status g = RUNNING ->
  step config team0_agents team1_agents inp g = Return (g', scored) ->
  exists g1,
    (if decide (goal_celebration_remaining g > 0)%Z
     then celebration_tick config (uniform inp) g
     else play_tick config team0_agents team1_agents
            (completed inp) (stuck inp) g)
    = Return (g1, scored) /\
    g' = mkGame (players g1) (ball g1) (goals g1) (score g1) (tick g1 + 1)
           (if decide (tick g1 + 1 >= max_ticks config)%Z
            then ENDED else status g1)
           (goal_celebration_remaining g1) (pending_goal_scorer g1).
Proof.
  intros Hrunning. unfold step.
  rewrite decide_False by (intros Hne; by apply Hne).
  intros Hcall. apply bind_Return in Hcall as ([g1 sc] & Hbranch & [= <- <-]).
  by exists g1.
Qed.

Lemma step_not_running inp g :
  status g <> RUNNING ->
  step config team0_agents team1_agents inp g = Return (g, None).
Proof. intros Hstatus. unfold step. by rewrite decide_True by exact Hstatus. Qed.

(** [step] keeps the invariant. *)
Lemma step_inv inp g g' scored :
  engine_inv config g ->
  step config team0_agents team1_agents inp g = Return (g', scored) ->
  engine_inv config g'.
Proof.
  intros Hinv Hstep. destruct (status g) eqn:Hstatus.
  - destruct (step_running inp g g' scored Hstatus Hstep)
      as (g1 & Hbranch & ->).
    unfold engine_inv.
    cbn [players goals score pending_goal_scorer goal_celebration_remaining].
    destruct (decide (goal_celebration_remaining g > 0)%Z) as [Hcel|Hplay].
    + by destruct (celebration_tick_spec _ _ _ _ Hinv Hcel Hbranch).
    + by destruct (play_tick_spec _ _ _ _ _ Hinv Hbranch).
  - rewrite step_not_running in Hstep by (rewrite Hstatus; discriminate).
    by injection Hstep as <- <-.
Qed.

Lemma reachable_inv g :
  reachable config team0_agents team1_agents g -> engine_inv config g.
Proof.
  induction 1 as [rand Hrand|g inp g' scored Hg IH Hrand Hstep].
  - apply new_game_inv.
  - by eapply step_inv.
Qed.

(** C10.  Every game that a run of the engine reaches has the shape
    [engine_inv] ([reachable_inv]): the score is a pair, a pending scorer is
    team 0 or team 1, and one is pending while the countdown is positive.
    On every game of that shape, whenever a call to [step] returns: when the
    game is running and the celebration countdown is at 1, so that this tick
    takes it to zero, the pending scoring team is team 0 or team 1 and
    exactly its score is one higher afterwards; on every other tick both
    scores are unchanged.  So no score ever decreases. *)
Theorem step_scores_at_celebration_end g inp g' scored :
  engine_inv config g ->
  step config team0_agents team1_agents inp g = Return (g', scored) ->
  exists s0 s1 s0' s1',
    score g = [s0; s1] /\ score g' = [s0'; s1'] /\
    (s0 <= s0')%Z /\ (s1 <= s1')%Z /\
    if decide (status g = RUNNING /\ goal_celebration_remaining g = 1%Z)
    then (pending_goal_scorer g = Some 0%Z /\ s0' = (s0 + 1)%Z /\ s1' = s1) \/
         (pending_goal_scorer g = Some 1%Z /\ s0' = s0 /\ s1' = (s1 + 1)%Z)
    else s0' = s0 /\ s1' = s1.
Proof.
  intros Hinv Hstep.
  pose proof Hinv as (_ & (s0 & s1 & Hscore) & _).
  destruct (status g) eqn:Hstatus.
  - destruct (step_running inp g g' scored Hstatus Hstep)
      as (g1 & Hbranch & ->).
    cbn [score].
    destruct (decide (goal_celebration_remaining g > 0)%Z) as [Hcel|Hplay].
    + destruct (celebration_tick_spec _ _ _ _ Hinv Hcel Hbranch)
        as (_ & (t0 & t1 & Hbefore & Hafter)).
      rewrite Hscore in Hbefore. injection Hbefore as <- <-.
      destruct (decide (goal_celebration_remaining g = 1%Z)) as [Hone|Hmore].
      * destruct Hafter as [[Hteam ->]|[Hteam ->]].
        -- exists s0, s1, (s0 + 1)%Z, s1. rewrite decide_True by done.
           repeat split; try done; try lia. left. by repeat split.
        -- exists s0, s1, s0, (s1 + 1)%Z. rewrite decide_True by done.
           repeat split; try done; try lia. right. by repeat split.
      * rewrite Hafter. exists s0, s1, s0, s1. rewrite decide_False by tauto.
        repeat split; try done; lia.
    + destruct (play_tick_spec _ _ _ _ _ Hinv Hbranch) as [_ ->].
      exists s0, s1, s0, s1. rewrite decide_False by lia.
      repeat split; try done; lia.
  - rewrite step_not_running in Hstep by (rewrite Hstatus; discriminate).
    injection Hstep as <- <-.
    exists s0, s1, s0, s1.
    rewrite decide_False by (intros [Hrunning _]; discriminate).
    repeat split; try done; lia.
Qed.

End Scoring.

(** ** Speeds after a tick *)

Section Speeds.
Local Open Scope R_scope.
Variable config : GameConfig.

Lemma motion_eta (e : Motion) : mkMotion (x e) (y e) (vx e) (vy e) = e.
Proof. by destruct e. Qed.

Lemma player_eta (p : Player) : set_p_motion (p_motion p) p = p.
Proof. by destruct p. Qed.

Lemma ball_eta (b : Ball) : set_b_motion (b_motion b) b = b.
Proof. by destruct b. Qed.

Lemma _clamp_velocity_within e max_speed :
  speed e <= max_speed -> _clamp_velocity e max_speed = Return e.
Proof.
  intros Hslow. unfold _clamp_velocity, speed in *.
  by rewrite decide_False by lra.
Qed.

(** A zero acceleration leaves a player within the maximum speed as it is. *)
Lemma apply_acceleration_idle player :
  0 <= player_max_acceleration config ->
  speed (p_motion player) <= player_max_speed config ->
  apply_acceleration config player 0 0 = Return player.
Proof.
  intros Hacc Hslow. unfold apply_acceleration.
  replace (sqrt (0 ^ 2 + 0 ^ 2)) with 0 by (symmetry; apply sqrt_is; lra).
  rewrite decide_False by lra. cbn [mbind result_bind].
  rewrite !Rplus_0_r, motion_eta, _clamp_velocity_within by exact Hslow.
  cbn [mbind result_bind]. by rewrite player_eta.
Qed.

(** Away from the corner regions and from the walls nothing is enforced. *)
Lemma _enforce_boundary_interior e radius is_ball :
  corner_radius config <= y e <= field_height config - corner_radius config ->
  0 <= x e - radius -> x e + radius <= field_width config ->
  0 <= y e - radius -> y e + radius <= field_height config ->
  _enforce_boundary config e radius is_ball = e.
Proof.
  intros Hy Hleft Hright Htop Hbottom.
  unfold _enforce_boundary, _is_in_corner_region.
  rewrite !decide_False by lra.
  unfold enforce_walls, left_wall. rewrite decide_False by lra.
  unfold right_wall. rewrite decide_False by lra.
  unfold top_wall. rewrite decide_False by lra.
  unfold bottom_wall. by rewrite decide_False by lra.
Qed.

End Speeds.

Section SpeedSamples.
Local Open Scope R_scope.

Lemma silent_actions_home : silent_actions !! (0%Z, 0%Z) = Some default_action.
Proof.
  apply (fill_defaults_missing _ _ home_agent); [|apply lookup_empty].
  apply list_elem_of_In. by left.
Qed.

Lemma silent_actions_away : silent_actions !! (1%Z, 0%Z) = Some default_action.
Proof.
  apply (fill_defaults_missing _ _ away_agent); [|apply lookup_empty].
  apply list_elem_of_In. right. by left.
Qed.

Lemma at_rest_speed px py : speed (mkMotion px py 0 0) = 0.
Proof. unfold speed. project. apply sqrt_is; lra. Qed.

Lemma struck_apply_actions :
  apply_actions sample_config silent_actions [standing_home; standing_away]
  = Return [standing_home; standing_away].
Proof.
  cbn [apply_actions]. unfold standing_home, standing_away. project.
  rewrite silent_actions_home, silent_actions_away.
  unfold default_action. project.
  rewrite !apply_acceleration_idle;
    first [ reflexivity
          | unfold sample_config; project; rewrite ?at_rest_speed; lra ].
Qed.

Lemma struck_process_kicks :
  _process_kicks sample_config silent_actions
    [standing_home; standing_away] incoming_ball
  = ([standing_home; standing_away], incoming_ball).
Proof.
  assert (Hidle : forall p b,
            silent_actions !! (p_team_id p, p_player_id p) = Some default_action ->
            p_kick_cooldown p = 0%Z ->
            kick_one sample_config silent_actions p b = (p, b)).
  { intros p b Hact Hzero. rewrite kick_one_not_legal.
    - unfold decrement_cooldown, cooldown_after_decrement.
      rewrite decide_False by lia. by destruct p.
    - intros (action & Hact' & Hkick & _).
      rewrite Hact in Hact'. by injection Hact' as <-. }
  cbn [_process_kicks].
  rewrite (Hidle standing_home) by (first [exact silent_actions_home|reflexivity]).
  rewrite (Hidle standing_away) by (first [exact silent_actions_away|reflexivity]).
  reflexivity.
Qed.

Lemma struck_update_positions :
  update_positions sample_config [standing_home; standing_away] incoming_ball
  = Return ([standing_home; standing_away], arrived_ball).
Proof.
  unfold update_positions, advance, standing_home, standing_away,
    incoming_ball, arrived_ball, sample_config.
  cbn [map]. project.
  rewrite _clamp_velocity_within.
  - cbn [mbind result_bind]. f_equal. same_entities.
  - unfold speed. project.
    replace (sqrt ((-15 * (98 / 100)) ^ 2 + (0 * (98 / 100)) ^ 2)) with (147 / 10)
      by (symmetry; apply sqrt_is; lra).
    lra.
Qed.

(** The value [r] of the one square root in a goal about concrete points. *)
Ltac sqrt_here r :=
  match goal with
  | |- context [sqrt ?a] =>
      replace (sqrt a) with r by (symmetry; apply sqrt_is; lra)
  end.

Ltac far_apart r :=
  unfold centre_distance, standing_home, standing_away, pushed_home,
    arrived_ball, bounced_ball, waiting_home, waiting_away, kicking_home,
    pushed_away, flying_ball, rebounding_ball;
  project; sqrt_here r; lra.

Lemma struck_collision :
  _resolve_circle_collision (p_motion standing_home) 20
                            (b_motion arrived_ball) 10 1 (1 / 2) (9 / 10)
  = (p_motion pushed_home, b_motion bounced_ball, true).
Proof.
  unfold _resolve_circle_collision, standing_home, arrived_ball, pushed_home,
    bounced_ball.
  project. sqrt_here 29.
  rewrite decide_False by lra. rewrite decide_False by lra.
  cbn beta iota zeta. rewrite decide_True by lra.
  repeat first [ apply (f_equal2 (@pair _ _)) | apply mkMotion_eq ];
    first [ reflexivity | field ].
Qed.

Lemma interior_player p :
  50 <= y (p_motion p) <= 550 ->
  20 <= x (p_motion p) <= 980 ->
  p_radius p = 20 ->
  set_p_motion (_enforce_boundary sample_config (p_motion p) (p_radius p) false) p
  = p.
Proof.
  intros Hy Hx Hr. rewrite _enforce_boundary_interior.
  - apply player_eta.
  - unfold sample_config. project. lra.
  - lra.
  - unfold sample_config. project. lra.
  - lra.
  - unfold sample_config. project. lra.
Qed.

Lemma interior_ball b :
  50 <= y (b_motion b) <= 550 ->
  10 <= x (b_motion b) <= 990 ->
  b_radius b = 10 ->
  enforce_ball sample_config b = b.
Proof.
  intros Hy Hx Hr. unfold enforce_ball. rewrite _enforce_boundary_interior.
  - apply ball_eta.
  - unfold sample_config. project. lra.
  - lra.
  - unfold sample_config. project. lra.
  - lra.
  - unfold sample_config. project. lra.
Qed.

Ltac interior :=
  first [ rewrite interior_ball | rewrite interior_player ];
  [ | unfold standing_home, standing_away, pushed_home, arrived_ball,
        bounced_ball; project; first [ lra | reflexivity ] .. ].

Lemma struck_first_pass :
  collision_pass sample_config [standing_home; standing_away] arrived_ball
  = ([pushed_home; standing_away], bounced_ball, true).
Proof.
  unfold collision_pass, enforce_players. cbn [map].
  do 3 interior.
  cbn [player_ball_collisions].
  change (p_radius standing_home) with 20. change (b_radius arrived_ball) with 10.
  change (p_mass standing_home) with 1. change (b_mass arrived_ball) with (1 / 2).
  rewrite struck_collision.
  change (set_b_motion (b_motion bounced_ball) arrived_ball) with bounced_ball.
  change (set_p_motion (p_motion pushed_home) standing_home) with pushed_home.
  rewrite resolve_apart by far_apart (1261 / 3).
  cbn [length player_player_collisions collide_with_rest].
  rewrite resolve_apart by far_apart (1351 / 3).
  cbn [player_player_collisions collide_with_rest map orb].
  rewrite ?player_eta, ?ball_eta.
  do 3 interior. reflexivity.
Qed.

Lemma struck_second_pass :
  collision_pass sample_config [pushed_home; standing_away] bounced_ball
  = ([pushed_home; standing_away], bounced_ball, false).
Proof.
  unfold collision_pass, enforce_players. cbn [map].
  do 3 interior.
  cbn [player_ball_collisions].
  rewrite resolve_apart by far_apart 30. rewrite !player_eta, !ball_eta.
  rewrite resolve_apart by far_apart (1261 / 3).
  cbn [length player_player_collisions collide_with_rest].
  rewrite resolve_apart by far_apart (1351 / 3).
  cbn [player_player_collisions collide_with_rest map orb].
  rewrite ?player_eta, ?ball_eta.
  do 3 interior. reflexivity.
Qed.

Lemma struck_collisions :
  handle_all_collisions sample_config [standing_home; standing_away]
    arrived_ball (_setup_goals sample_config)
  = ([pushed_home; standing_away], bounced_ball).
Proof.
  unfold handle_all_collisions. cbn [collision_loop].
  rewrite struck_first_pass. cbn [collision_loop].
  by rewrite struck_second_pass.
Qed.

Lemma struck_no_goal :
  check_goal sample_config bounced_ball (_setup_goals sample_config) = None.
Proof.
  rewrite check_goal_setup_goals.
  unfold bounced_ball, sample_config. project.
  repeat case_decide; first [ reflexivity | exfalso; lra ].
Qed.

Lemma pushed_home_speed : speed (p_motion pushed_home) = 931 / 100.
Proof. unfold speed, pushed_home. project. apply sqrt_is; lra. Qed.

Lemma incoming_ball_speed : speed (b_motion incoming_ball) = 15.
Proof. unfold speed, incoming_ball. project. apply sqrt_is; lra. Qed.

Lemma struck_game_step :
  step sample_config [home_agent] [away_agent] silent_tick struck_game
  = Return (pushed_game, None).
Proof.
  unfold step. cbn [status struck_game goal_celebration_remaining].
  rewrite decide_False by (intros Hne; by apply Hne).
  rewrite decide_False by lia.
  unfold play_tick.
  change (_get_agent_actions _ _ _ _) with (Return silent_actions).
  cbn [mbind result_bind]. unfold struck_game.
  cbn [players ball goals score tick status goal_celebration_remaining
       pending_goal_scorer].
  rewrite struck_apply_actions. cbn [mbind result_bind].
  rewrite struck_process_kicks, struck_update_positions.
  cbn [mbind result_bind].
  rewrite struck_collisions, struck_no_goal.
  cbn [mbind result_bind players ball goals score tick status
       goal_celebration_remaining pending_goal_scorer].
  rewrite decide_False by (unfold sample_config; project; lia).
  reflexivity.
Qed.

(** *** A kicked ball on the first tick of a game *)

Lemma compact_new_game : new_game compact_config kickoff_draws = kickoff_game.
Proof.
  unfold new_game, kickoff_game. f_equal.
  unfold _setup_ball, kickoff_motion, kickoff_ball, compact_config.
  cbn [get_initial_ball_position ball_radius ball_mass kickoff_draws].
  rewrite cos_0, sin_0. same_entities.
Qed.

Lemma kick_apply_actions :
  apply_actions compact_config kick_actions_gathered [waiting_home; waiting_away]
  = Return [waiting_home; waiting_away].
Proof.
  cbn [apply_actions]. unfold waiting_home, waiting_away. project.
  rewrite kick_actions_gathered_home, kick_actions_gathered_away.
  unfold default_action. project.
  rewrite !apply_acceleration_idle;
    first [ reflexivity
          | unfold compact_config; project; rewrite ?at_rest_speed; lra ].
Qed.

Lemma waiting_home_distance : ball_distance waiting_home kickoff_ball = 30.
Proof.
  unfold ball_distance, waiting_home, kickoff_ball. project.
  apply sqrt_is; lra.
Qed.

Lemma kick_process_kicks :
  _process_kicks compact_config kick_actions_gathered
    [waiting_home; waiting_away] kickoff_ball
  = ([kicking_home; waiting_away], kicked_ball).
Proof.
  cbn [_process_kicks].
  rewrite kick_one_push; rewrite ?waiting_home_distance.
  - rewrite kick_one_not_legal.
    + unfold decrement_cooldown, cooldown_after_decrement, waiting_home,
        waiting_away, kicking_home, kickoff_ball, kicked_ball, compact_config.
      project. rewrite decide_False by lia. same_entities.
    + intros (action & Hact & Hkick & _).
      change (p_team_id waiting_away, p_player_id waiting_away)
        with (1%Z, 0%Z) in Hact.
      rewrite kick_actions_gathered_away in Hact. by injection Hact as <-.
  - exists (mkAction 0 0 true).
    split; [exact kick_actions_gathered_home|]. by split.
  - unfold compact_config. project. lra.
  - lra.
Qed.

Lemma kick_update_positions :
  update_positions compact_config [kicking_home; waiting_away] kicked_ball
  = Return ([kicking_home; waiting_away], flying_ball).
Proof.
  unfold update_positions, advance, kicking_home, waiting_away,
    kicked_ball, flying_ball, compact_config.
  cbn [map]. project.
  rewrite _clamp_velocity_within.
  - cbn [mbind result_bind]. f_equal. same_entities.
  - unfold speed. project.
    replace (sqrt ((12 * (98 / 100)) ^ 2 + (0 * (98 / 100)) ^ 2)) with (294 / 25)
      by (symmetry; apply sqrt_is; lra).
    lra.
Qed.

Lemma kick_collision :
  _resolve_circle_collision (p_motion waiting_away) 20
                            (b_motion flying_ball) 10 1 (1 / 2) (9 / 10)
  = (p_motion pushed_away, b_motion rebounding_ball, true).
Proof.
  unfold _resolve_circle_collision, waiting_away, flying_ball, pushed_away,
    rebounding_ball.
  project. sqrt_here 29.
  rewrite decide_False by lra. rewrite decide_False by lra.
  cbn beta iota zeta. rewrite decide_True by lra.
  repeat first [ apply (f_equal2 (@pair _ _)) | apply mkMotion_eq ];
    first [ reflexivity | field ].
Qed.

Lemma compact_interior_player p :
  50 <= y (p_motion p) <= 550 ->
  20 <= x (p_motion p) <= 980 ->
  p_radius p = 20 ->
  set_p_motion (_enforce_boundary compact_config (p_motion p) (p_radius p) false) p
  = p.
Proof.
  intros Hy Hx Hr. rewrite _enforce_boundary_interior.
  - apply player_eta.
  - unfold compact_config. project. lra.
  - lra.
  - unfold compact_config. project. lra.
  - lra.
  - unfold compact_config. project. lra.
Qed.

Lemma compact_interior_ball b :
  50 <= y (b_motion b) <= 550 ->
  10 <= x (b_motion b) <= 990 ->
  b_radius b = 10 ->
  enforce_ball compact_config b = b.
Proof.
  intros Hy Hx Hr. unfold enforce_ball. rewrite _enforce_boundary_interior.
  - apply ball_eta.
  - unfold compact_config. project. lra.
  - lra.
  - unfold compact_config. project. lra.
  - lra.
  - unfold compact_config. project. lra.
Qed.

Ltac compact_interior :=
  first [ rewrite compact_interior_ball | rewrite compact_interior_player ];
  [ | unfold waiting_home, waiting_away, kicking_home, pushed_away,
        flying_ball, rebounding_ball; project;
      first [ lra | reflexivity ] .. ].

Lemma kick_first_pass :
  collision_pass compact_config [kicking_home; waiting_away] flying_ball
  = ([kicking_home; pushed_away], rebounding_ball, true).
Proof.
  unfold collision_pass, enforce_players. cbn [map].
  do 3 compact_interior.
  cbn [player_ball_collisions].
  rewrite resolve_apart by far_apart 42. rewrite !player_eta, !ball_eta.
  change (p_radius waiting_away) with 20. change (b_radius flying_ball) with 10.
  change (p_mass waiting_away) with 1. change (b_mass flying_ball) with (1 / 2).
  rewrite kick_collision.
  change (set_b_motion (b_motion rebounding_ball) flying_ball)
    with rebounding_ball.
  change (set_p_motion (p_motion pushed_away) waiting_away) with pushed_away.
  cbn [length player_player_collisions collide_with_rest].
  rewrite resolve_apart by far_apart (214 / 3).
  cbn [player_player_collisions collide_with_rest map orb].
  rewrite ?player_eta, ?ball_eta.
  do 3 compact_interior. reflexivity.
Qed.

Lemma kick_second_pass :
  collision_pass compact_config [kicking_home; pushed_away] rebounding_ball
  = ([kicking_home; pushed_away], rebounding_ball, false).
Proof.
  unfold collision_pass, enforce_players. cbn [map].
  do 3 compact_interior.
  cbn [player_ball_collisions].
  rewrite resolve_apart by far_apart (124 / 3). rewrite !player_eta, !ball_eta.
  rewrite resolve_apart by far_apart 30. rewrite !player_eta, !ball_eta.
  cbn [length player_player_collisions collide_with_rest].
  rewrite resolve_apart by far_apart (214 / 3).
  cbn [player_player_collisions collide_with_rest map orb].
  rewrite ?player_eta, ?ball_eta.
  do 3 compact_interior. reflexivity.
Qed.

Lemma kick_collisions :
  handle_all_collisions compact_config [kicking_home; waiting_away]
    flying_ball (_setup_goals compact_config)
  = ([kicking_home; pushed_away], rebounding_ball).
Proof.
  unfold handle_all_collisions. cbn [collision_loop].
  rewrite kick_first_pass. cbn [collision_loop].
  by rewrite kick_second_pass.
Qed.

Lemma kick_no_goal :
  check_goal compact_config rebounding_ball (_setup_goals compact_config) = None.
Proof.
  rewrite check_goal_setup_goals.
  unfold rebounding_ball, compact_config. project.
  repeat case_decide; first [ reflexivity | exfalso; lra ].
Qed.

Lemma kickoff_game_step :
  step compact_config [home_agent] [away_agent] kick_tick kickoff_game
  = Return (kicked_game, None).
Proof.
  unfold step. cbn [status kickoff_game goal_celebration_remaining].
  rewrite decide_False by (intros Hne; by apply Hne).
  rewrite decide_False by lia.
  unfold play_tick. rewrite kick_tick_actions.
  cbn [mbind result_bind]. unfold kickoff_game.
  cbn [players ball goals score tick status goal_celebration_remaining
       pending_goal_scorer].
  rewrite kick_apply_actions. cbn [mbind result_bind].
  rewrite kick_process_kicks, kick_update_positions.
  cbn [mbind result_bind].
  rewrite kick_collisions, kick_no_goal.
  cbn [mbind result_bind players ball goals score tick status
       goal_celebration_remaining pending_goal_scorer].
  rewrite decide_False by (unfold compact_config; project; lia).
  reflexivity.
Qed.

Lemma pushed_away_speed : speed (p_motion pushed_away) = 931 / 125.
Proof. unfold speed, pushed_away. project. apply sqrt_is; lra. Qed.

Lemma kickoff_ball_speed : speed (b_motion kickoff_ball) = 2.
Proof. unfold speed, kickoff_ball. project. apply sqrt_is; lra. Qed.

(** C1, evaluated on the first tick of a run.  The game is the new game on
    [compact_config] with the kickoff of [kickoff_draws]: the players stand
    still and the ball moves at 2, so every speed is within its maximum.  On
    the first tick the first agent asks for a kick and the second does not
    answer in time.  The kick sends the ball at 12 into the second player,
    and the impulse of the collision leaves that player with speed 7.448,
    above the maximum player speed of 5, in the game that [step] returns,
    which the run has reached. *)
Theorem collision_exceeds_max_player_speed :
  let g := new_game compact_config kickoff_draws in
  reachable compact_config [home_agent] [away_agent] g /\
  Forall (fun p => speed (p_motion p) <= player_max_speed compact_config)
         (players g) /\
  speed (b_motion (ball g)) <= ball_max_speed compact_config /\
  step compact_config [home_agent] [away_agent] kick_tick g
  = Return (kicked_game, None) /\
  reachable compact_config [home_agent] [away_agent] kicked_game /\
  players kicked_game = [kicking_home; pushed_away] /\
  speed (p_motion pushed_away) = 931 / 125 /\
  speed (p_motion pushed_away) > player_max_speed compact_config.
Proof.
  cbv zeta.
  assert (Hnew : reachable compact_config [home_agent] [away_agent]
                   (new_game compact_config kickoff_draws))
    by apply reachable_new, kickoff_draws_ok.
  assert (Hstep : step compact_config [home_agent] [away_agent] kick_tick
                    (new_game compact_config kickoff_draws)
                  = Return (kicked_game, None))
    by (rewrite compact_new_game; exact kickoff_game_step).
  split; [exact Hnew|]. split; [|split; [|split; [|split; [|split; [|split]]]]].
  - rewrite compact_new_game.
    unfold kickoff_game, waiting_home, waiting_away, compact_config.
    cbn [players].
    constructor; [project; rewrite at_rest_speed; lra|].
    constructor; [project; rewrite at_rest_speed; lra|]. constructor.
  - rewrite compact_new_game. cbn [ball kickoff_game].
    rewrite kickoff_ball_speed. unfold compact_config. project. lra.
  - exact Hstep.
  - eapply reachable_step; [exact Hnew| |exact Hstep].
    exact kickoff_draws_ok.
  - reflexivity.
  - exact pushed_away_speed.
  - rewrite pushed_away_speed. unfold compact_config. project. lra.
Qed.

End SpeedSamples.

Section ScoringSamples.
Local Open Scope R_scope.

Lemma py_getitem_head {A} (a : A) (l : list A) :
  py_getitem (a :: l) 0 = Return a.
Proof.
  unfold py_getitem, py_index.
  rewrite decide_True by (rewrite length_cons; lia). reflexivity.
Qed.

Lemma mkGame_eq ps ps' b b' gs gs' sc sc' t t' st st' c c' pe pe' :
  ps = ps' -> b = b' -> gs = gs' -> sc = sc' -> t = t' -> st = st' ->
  c = c' -> pe = pe' ->
  mkGame ps b gs sc t st c pe = mkGame ps' b' gs' sc' t' st' c' pe'.
Proof. by intros -> -> -> -> -> -> -> ->. Qed.

Lemma celebrating_game_inv : engine_inv sample_config celebrating_game.
Proof.
  unfold engine_inv, celebrating_game.
  cbn [goals score pending_goal_scorer goal_celebration_remaining players].
  split; [reflexivity|]. split; [by exists 0%Z, 0%Z|].
  split; [intros t [= <-]; by right|]. split; [discriminate|reflexivity].
Qed.

Lemma celebrating_reset_players :
  reset_players sample_config kickoff_draws 0 [pushed_home; standing_away]
  = Return [ mkPlayer (mkMotion 250 300 0 0) 20 0 0 1 0;
             mkPlayer (mkMotion 750 300 0 0) 20 1 0 1 0 ].
Proof.
  cbn [reset_players]. unfold pushed_home, standing_away. project.
  rewrite (decide_True (P := (0 = 0)%Z)) by reflexivity.
  rewrite (decide_False (P := (1 = 0)%Z)) by discriminate.
  unfold sample_config. cbn [get_initial_player_positions].
  rewrite (decide_True (P := (0 = 0)%Z)) by reflexivity.
  rewrite (decide_False (P := (1 = 0)%Z)) by discriminate.
  rewrite !py_getitem_head. cbn [mbind result_bind].
  unfold set_p_kick_cooldown, set_p_motion. project.
  cbn [kickoff_draws Nat.add Nat.mul]. f_equal. same_entities.
Qed.

Lemma celebrating_game_step :
  step sample_config [home_agent] [away_agent] kickoff_tick celebrating_game
  = Return (awarded_game, Some 1%Z).
Proof.
  unfold step. cbn [status celebrating_game goal_celebration_remaining].
  rewrite decide_False by (intros Hne; by apply Hne).
  rewrite decide_True by lia.
  unfold celebration_tick, celebrating_game.
  cbn [players ball goals score tick status goal_celebration_remaining
       pending_goal_scorer].
  rewrite struck_update_positions. cbn [mbind result_bind].
  rewrite struck_collisions.
  cbn [players ball goals score tick status goal_celebration_remaining
       pending_goal_scorer].
  rewrite decide_True by reflexivity.
  change (score_point [0; 0]%Z 1) with (Return [0; 1]%Z).
  cbn [mbind result_bind]. unfold reset_positions.
  cbn [players ball goals score tick status goal_celebration_remaining
       pending_goal_scorer uniform kickoff_tick].
  rewrite celebrating_reset_players.
  cbn [mbind result_bind players ball goals score tick status
       goal_celebration_remaining pending_goal_scorer].
  change (py_getitem [0; 1]%Z 1) with (Return 1%Z).
  cbn [mbind result_bind].
  rewrite decide_False by (unfold sample_config; project; lia).
  cbn [mbind result_bind players ball goals score tick status
       goal_celebration_remaining pending_goal_scorer].
  rewrite decide_False by (unfold sample_config; project; lia).
  unfold awarded_game. do 2 f_equal.
  apply mkGame_eq; try reflexivity.
  unfold kickoff_motion, bounced_ball, sample_config, set_b_motion.
  cbn [get_initial_ball_position kickoff_draws b_radius b_mass].
  rewrite cos_0, sin_0. same_entities.
Qed.

Lemma step_scores_at_celebration_end_witness :
  exists s0 s1 s0' s1',
    score celebrating_game = [s0; s1] /\ score awarded_game = [s0'; s1'] /\
    (s0 <= s0')%Z /\ (s1 <= s1')%Z /\
    if decide (status celebrating_game = RUNNING /\
               goal_celebration_remaining celebrating_game = 1%Z)
    then (pending_goal_scorer celebrating_game = Some 0%Z /\
          s0' = (s0 + 1)%Z /\ s1' = s1) \/
         (pending_goal_scorer celebrating_game = Some 1%Z /\
          s0' = s0 /\ s1' = (s1 + 1)%Z)
    else s0' = s0 /\ s1' = s1.
Proof.
  apply (step_scores_at_celebration_end sample_config [home_agent] [away_agent]
           celebrating_game kickoff_tick awarded_game (Some 1%Z)).
  - exact celebrating_game_inv.
  - exact celebrating_game_step.
Defined.

End ScoringSamples.


(** * Further properties of the code *)

(** ** Velocity clamping, acceleration and integration *)

Section Motion.
Local Open Scope R_scope.
Variable config : GameConfig.

Lemma speed_nonneg e : 0 <= speed e.
Proof. apply sqrt_pos. Qed.


Lemma _clamp_velocity_keeps e max_speed e' :
  _clamp_velocity e max_speed = Return e' ->
  x e' = x e /\ y e' = y e /\ (speed e <= max_speed -> e' = e).
Proof.
  unfold _clamp_velocity. fold (speed e).
  destruct (decide (speed e > max_speed)) as [Hfast|Hslow].
  - destruct (decide (speed e = 0)) as [Hrest|Hmoving]; [discriminate|].
    intros [= <-]. cbn [x y]. split; [reflexivity|]. split; [reflexivity|]. lra.
  - intros [= <-]. split; [reflexivity|]. split; [reflexivity|]. done.
Qed.

(** X1.  [_clamp_velocity] raises [ZeroDivisionError] on an entity at rest
    when the maximum is negative.  When it returns, the position is
    untouched; an entity within the maximum is returned as it is; the
    velocity of a faster one is divided by its speed and multiplied by the
    maximum, so that with a non-negative maximum the new velocity is the old
    one scaled by a factor between 0 and 1. *)
Theorem clamp_velocity_scales e max_speed :
  (speed e = 0 -> max_speed < 0 ->
   _clamp_velocity e max_speed = Raise ZeroDivisionError_float) /\
  forall e', _clamp_velocity e max_speed = Return e' ->
    x e' = x e /\ y e' = y e /\
    (speed e <= max_speed -> e' = e) /\
    (speed e > max_speed ->
     vx e' = vx e / speed e * max_speed /\
     vy e' = vy e / speed e * max_speed) /\
    (0 <= max_speed ->
     exists k, 0 <= k <= 1 /\ vx e' = k * vx e /\ vy e' = k * vy e).
Proof.
  unfold _clamp_velocity. fold (speed e). split.
  { intros Hrest Hmax. rewrite decide_True by lra.
    by rewrite decide_True by exact Hrest. }
  intros e'.
  destruct (decide (speed e > max_speed)) as [Hfast|Hslow].
  - destruct (decide (speed e = 0)) as [Hrest|Hmoving]; [discriminate|].
    intros [= <-]. cbn [x y vx vy]. pose proof (speed_nonneg e).
    split; [reflexivity|]. split; [reflexivity|]. split; [lra|].
    split; [by intros _|]. intros Hmax.
    exists (max_speed / speed e). split; [|split; field; lra].
    split.
    + apply Rmult_le_pos; [lra|]. apply Rlt_le, Rinv_0_lt_compat. lra.
    + apply Rmult_le_reg_r with (speed e); [lra|].
      replace (max_speed / speed e * speed e) with max_speed by (field; lra).
      lra.
  - intros [= <-].
    split; [reflexivity|]. split; [reflexivity|]. split; [done|].
    split; [lra|]. intros _. exists 1. split; [lra|]. split; ring.
Qed.

(** X2.  [apply_acceleration] raises [ZeroDivisionError] on the zero
    acceleration when the maximum acceleration is negative.  When it
    returns, the player is at the same position and has the same radius,
    mass, identifiers and cooldown; an acceleration within the maximum that
    keeps the player within the maximum speed is added to the velocity as it
    is. *)
Theorem apply_acceleration_adds player ax ay :
  (ax = 0 -> ay = 0 -> player_max_acceleration config < 0 ->
   apply_acceleration config player ax ay = Raise ZeroDivisionError_float) /\
  forall player', apply_acceleration config player ax ay = Return player' ->
    x (p_motion player') = x (p_motion player) /\
    y (p_motion player') = y (p_motion player) /\
    same_body player player' /\
    (sqrt (ax ^ 2 + ay ^ 2) <= player_max_acceleration config ->
     sqrt ((vx (p_motion player) + ax) ^ 2 + (vy (p_motion player) + ay) ^ 2)
     <= player_max_speed config ->
     vx (p_motion player') = vx (p_motion player) + ax /\
     vy (p_motion player') = vy (p_motion player) + ay).
Proof.
  unfold apply_acceleration. split.
  { intros -> -> Hmax.
    replace (sqrt (0 ^ 2 + 0 ^ 2)) with 0 by (symmetry; apply sqrt_is; lra).
    rewrite decide_True by lra. by rewrite decide_True by reflexivity. }
  intros player' Hcall.
  apply bind_Return in Hcall as ([ax' ay'] & Hacc & Hcall).
  apply bind_Return in Hcall as (m & Hclamp & [= <-]).
  destruct (_clamp_velocity_keeps _ _ _ Hclamp) as (Hx & Hy & Hwithin).
  cbn [x y vx vy] in Hx, Hy.
  cbn [set_p_motion p_motion p_radius p_team_id p_player_id p_mass
       p_kick_cooldown].
  split; [exact Hx|]. split; [exact Hy|]. split; [by repeat split|].
  intros Hsmall Hslow.
  rewrite decide_False in Hacc by lra. injection Hacc as <- <-.
  rewrite Hwithin by (unfold speed; cbn [vx vy]; exact Hslow).
  by split.
Qed.

(** X3.  When [update_positions] returns, every player has moved by exactly
    its velocity and keeps it; the ball has moved by its velocity and keeps
    radius and mass; and where the ball after friction is within the
    maximum ball speed, its velocity is the old one times the friction
    coefficient. *)
Theorem update_positions_integrates ps ball ps' ball' :
  update_positions config ps ball = Return (ps', ball') ->
  ps' = map (fun p => set_p_motion (advance (p_motion p)) p) ps /\
  length ps' = length ps /\
  x (b_motion ball') = x (b_motion ball) + vx (b_motion ball) /\
  y (b_motion ball') = y (b_motion ball) + vy (b_motion ball) /\
  b_radius ball' = b_radius ball /\ b_mass ball' = b_mass ball /\
  (sqrt ((vx (b_motion ball) * ball_friction config) ^ 2
         + (vy (b_motion ball) * ball_friction config) ^ 2)
   <= ball_max_speed config ->
   vx (b_motion ball') = vx (b_motion ball) * ball_friction config /\
   vy (b_motion ball') = vy (b_motion ball) * ball_friction config).
Proof.
  unfold update_positions. intros Hcall.
  apply bind_Return in Hcall as (m & Hclamp & [= <- <-]).
  destruct (_clamp_velocity_keeps _ _ _ Hclamp) as (Hx & Hy & Hwithin).
  unfold advance in Hx, Hy. cbn [x y vx vy] in Hx, Hy.
  cbn [set_b_motion b_motion b_radius b_mass].
  split; [reflexivity|]. split; [apply length_map|].
  split; [exact Hx|]. split; [exact Hy|].
  split; [reflexivity|]. split; [reflexivity|].
  intros Hslow.
  rewrite Hwithin by (unfold speed, advance; cbn [vx vy]; exact Hslow).
  by split.
Qed.

End Motion.

Section MotionSamples.
Local Open Scope R_scope.

Lemma fast_clamp :
  _clamp_velocity (mkMotion 0 0 6 8) 5 = Return (mkMotion 0 0 3 4).
Proof.
  unfold _clamp_velocity. project.
  replace (sqrt (6 ^ 2 + 8 ^ 2)) with 10 by (symmetry; apply sqrt_is; lra).
  rewrite decide_True by lra. rewrite decide_False by lra.
  f_equal. same_entities.
Qed.

Lemma clamp_velocity_scales_witness :
  exists k, 0 <= k <= 1 /\ 3 = k * 6 /\ 4 = k * 8.
Proof.
  apply (proj2 (clamp_velocity_scales (mkMotion 0 0 6 8) 5)
           (mkMotion 0 0 3 4) fast_clamp).
  lra.
Defined.

Lemma nudged_home :
  apply_acceleration sample_config standing_home (3 / 10) (4 / 10)
  = Return (mkPlayer (mkMotion 300 300 (3 / 10) (4 / 10)) 20 0 0 1 0).
Proof.
  unfold apply_acceleration, standing_home, sample_config. project.
  replace (sqrt ((3 / 10) ^ 2 + (4 / 10) ^ 2)) with (1 / 2)
    by (symmetry; apply sqrt_is; lra).
  rewrite decide_False by lra. cbn [mbind result_bind].
  rewrite _clamp_velocity_within.
  - cbn [mbind result_bind]. unfold set_p_motion. project.
    f_equal. same_entities.
  - unfold speed. project.
    replace (sqrt ((0 + 3 / 10) ^ 2 + (0 + 4 / 10) ^ 2)) with (1 / 2)
      by (symmetry; apply sqrt_is; lra).
    lra.
Qed.

Lemma apply_acceleration_adds_witness :
  3 / 10 = vx (p_motion standing_home) + 3 / 10 /\
  4 / 10 = vy (p_motion standing_home) + 4 / 10.
Proof.
  apply (proj2 (apply_acceleration_adds sample_config standing_home
                  (3 / 10) (4 / 10)) _ nudged_home).
  - replace (sqrt ((3 / 10) ^ 2 + (4 / 10) ^ 2)) with (1 / 2)
      by (symmetry; apply sqrt_is; lra).
    unfold sample_config. project. lra.
  - unfold standing_home, sample_config. project.
    replace (sqrt ((0 + 3 / 10) ^ 2 + (0 + 4 / 10) ^ 2)) with (1 / 2)
      by (symmetry; apply sqrt_is; lra).
    lra.
Defined.

Lemma update_positions_integrates_witness :
  x (b_motion arrived_ball)
  = x (b_motion incoming_ball) + vx (b_motion incoming_ball).
Proof.
  apply (update_positions_integrates sample_config
           [standing_home; standing_away] incoming_ball
           [standing_home; standing_away] arrived_ball).
  exact struck_update_positions.
Defined.

End MotionSamples.

(** ** Boundary enforcement *)

Section Boundary.
Local Open Scope R_scope.
Variable config : GameConfig.












(** An entity in the playable area is returned as it is. *)
Lemma _enforce_boundary_playable e radius is_ball :
  playable config e radius -> _enforce_boundary config e radius is_ball = e.
Proof.
  unfold playable, _enforce_boundary.
  destruct (_is_in_corner_region config (x e) (y e)) as [[cx cy]|].
  - intros Hinside. unfold enforce_corner. by rewrite decide_False by lra.
  - intros [Hx Hy]. unfold enforce_walls, left_wall.
    rewrite decide_False by lra.
    unfold right_wall. rewrite decide_False by lra.
    unfold top_wall. rewrite decide_False by lra.
    unfold bottom_wall. by rewrite decide_False by lra.
Qed.

(** X5.  Outside the corner regions, on a field at least as wide and as high
    as the entity, [_enforce_boundary] puts a player within the four walls,
    and the ball as well unless its height is within the goal mouth. *)
Theorem enforce_boundary_within_walls e radius is_ball :
  _is_in_corner_region config (x e) (y e) = None ->
  2 * radius <= field_width config -> 2 * radius <= field_height config ->
  is_ball = false \/
    ~ (field_height config / 2 - goal_height config / 2 <= y e /\
       y e <= field_height config / 2 + goal_height config / 2) ->
  let e' := _enforce_boundary config e radius is_ball in
  radius <= x e' <= field_width config - radius /\
  radius <= y e' <= field_height config - radius.
Proof.
  intros Hcorner Hwide Hhigh Hsolid. cbv zeta.
  unfold _enforce_boundary. rewrite Hcorner. unfold enforce_walls.
  set (goal_top := field_height config / 2 - goal_height config / 2) in *.
  set (goal_bottom := field_height config / 2 + goal_height config / 2) in *.
  assert (Hguard : negb is_ball
                   || negb (bool_decide (goal_top <= y e /\ y e <= goal_bottom))
                   = true).
  { destruct Hsolid as [-> | Hout]; [reflexivity|].
    rewrite bool_decide_eq_false_2 by exact Hout. by destruct is_ball. }
  unfold left_wall. rewrite Hguard.
  destruct (decide (x e - radius < 0)); cbn [x y vx vy];
    unfold right_wall; cbn [x y vx vy]; rewrite Hguard;
    (destruct (decide (_ + radius > field_width config)); cbn [x y vx vy];
     unfold top_wall; cbn [x y vx vy];
     (destruct (decide (_ - radius < 0)); cbn [x y vx vy];
      unfold bottom_wall; cbn [x y vx vy];
      (destruct (decide (_ + radius > field_height config)); cbn [x y vx vy];
       lra))).
Qed.

(** X6.  Outside the corner regions the ball at the height of the goal mouth
    passes the left and right walls: its x coordinate and its horizontal
    velocity are never changed. *)
Theorem ball_passes_goal_mouth e radius :
  _is_in_corner_region config (x e) (y e) = None ->
  field_height config / 2 - goal_height config / 2 <= y e ->
  y e <= field_height config / 2 + goal_height config / 2 ->
  let e' := _enforce_boundary config e radius true in
  x e' = x e /\ vx e' = vx e.
Proof.
  intros Hcorner Htop Hbottom. cbv zeta.
  unfold _enforce_boundary. rewrite Hcorner. unfold enforce_walls.
  set (goal_top := field_height config / 2 - goal_height config / 2) in *.
  set (goal_bottom := field_height config / 2 + goal_height config / 2) in *.
  assert (Hleft : left_wall e radius true goal_top goal_bottom = e).
  { unfold left_wall. rewrite bool_decide_eq_true_2 by done.
    cbn [negb orb]. by case_decide. }
  rewrite Hleft.
  assert (Hright : right_wall config e radius true goal_top goal_bottom = e).
  { unfold right_wall. rewrite bool_decide_eq_true_2 by done.
    cbn [negb orb]. by case_decide. }
  rewrite Hright.
  unfold top_wall, bottom_wall.
  repeat case_decide; cbn [x y vx vy]; by split.
Qed.

(** X7.  In a corner region, an entity further than the limit circle and
    more than 0.001 from the arc centre: it is put on the circle of radius
    [corner_radius - radius] around the centre (when that radius is not
    negative), its tangential velocity is kept, an outward radial velocity
    [dot] becomes [(1 - 2 * restitution) * dot], and a velocity that is not
    outward is kept. *)
Theorem corner_pushes_back_onto_limit_circle e radius is_ball cx cy :
  let dist := sqrt ((x e - cx) ^ 2 + (y e - cy) ^ 2) in
  let nx := (x e - cx) / dist in
  let ny := (y e - cy) / dist in
  let max_dist := corner_radius config - radius in
  let dot := vx e * nx + vy e * ny in
  _is_in_corner_region config (x e) (y e) = Some (cx, cy) ->
  dist > max_dist -> dist > 1 / 1000 -> 0 <= max_dist ->
  let e' := _enforce_boundary config e radius is_ball in
  sqrt ((x e' - cx) ^ 2 + (y e' - cy) ^ 2) = max_dist /\
  vx e' * - ny + vy e' * nx = vx e * - ny + vy e * nx /\
  (dot > 0 ->
   vx e' * nx + vy e' * ny = (1 - 2 * boundary_restitution is_ball) * dot) /\
  (dot <= 0 -> vx e' = vx e /\ vy e' = vy e).
Proof.
  intros dist nx ny max_dist dot Hcorner Hbeyond Hapart Hlimit e'.
  subst e'. rewrite (enforce_boundary_in_corner _ _ _ _ _ _ Hcorner).
  destruct (enforce_corner_beyond_limit config e radius is_ball cx cy
              Hbeyond Hapart) as (_ & _ & Hcircle & Htangent & Hout & Hin).
  split; [by apply Hcircle|]. split; [exact Htangent|]. by split.
Qed.

End Boundary.

Section BoundarySamples.
Local Open Scope R_scope.

Lemma midfield_no_corner px :
  _is_in_corner_region sample_config px 300 = None.
Proof.
  unfold _is_in_corner_region, sample_config. project.
  by rewrite !decide_False by lra.
Qed.

Lemma enforce_boundary_within_walls_witness :
  let e' := _enforce_boundary sample_config (mkMotion (-5) 300 (-2) 0) 20 false in
  20 <= x e' <= field_width sample_config - 20 /\
  20 <= y e' <= field_height sample_config - 20.
Proof.
  apply (enforce_boundary_within_walls sample_config (mkMotion (-5) 300 (-2) 0)
           20 false).
  - apply midfield_no_corner.
  - unfold sample_config. project. lra.
  - unfold sample_config. project. lra.
  - by left.
Defined.

Lemma ball_passes_goal_mouth_witness :
  let e' := _enforce_boundary sample_config (mkMotion (-5) 300 (-2) 0) 10 true in
  x e' = -5 /\ vx e' = -2.
Proof.
  apply (ball_passes_goal_mouth sample_config (mkMotion (-5) 300 (-2) 0) 10).
  - apply midfield_no_corner.
  - unfold sample_config. project. lra.
  - unfold sample_config. project. lra.
Defined.

Lemma corner_pushes_back_onto_limit_circle_witness :
  let e' := _enforce_boundary sample_config corner_entity 20 false in
  sqrt ((x e' - 50) ^ 2 + (y e' - 50) ^ 2) = corner_radius sample_config - 20.
Proof.
  apply (corner_pushes_back_onto_limit_circle sample_config corner_entity
           20 false 50 50).
  - apply corner_entity_region.
  - rewrite corner_entity_distance. unfold sample_config. project. lra.
  - rewrite corner_entity_distance. lra.
  - unfold sample_config. project. lra.
Defined.

End BoundarySamples.

(** ** Collision resolution *)

Section CollisionLaws.
Local Open Scope R_scope.

Lemma contact_normal_unit e1 e2 :
  (contact_normal e1 e2).1 ^ 2 + (contact_normal e1 e2).2 ^ 2 = 1.
Proof.
  unfold contact_normal. case_decide as Hnear; cbn [fst snd]; [ring|].
  apply unit_normal. fold (centre_distance e1 e2). lra.
Qed.

(** The outcome of [_resolve_circle_collision] on two overlapping circles,
    with the separation axis, the distance used and the impulse named. *)
Lemma resolve_overlapping e1 r1 e2 r2 m1 m2 restitution :
  let dist := centre_distance e1 e2 in
  let n := contact_normal e1 e2 in
  let used := if decide (dist < 1 / 1000) then 1 else dist in
  let overlap := r1 + r2 - used in
  let dvn := closing_speed e1 e2 n in
  let j := if decide (dvn < 0)
           then - (1 + restitution) * dvn / (1 / m1 + 1 / m2) else 0 in
  dist < r1 + r2 ->
  _resolve_circle_collision e1 r1 e2 r2 m1 m2 restitution
  = (mkMotion (x e1 - n.1 * overlap * (m2 / (m1 + m2)))
              (y e1 - n.2 * overlap * (m2 / (m1 + m2)))
              (vx e1 - j / m1 * n.1) (vy e1 - j / m1 * n.2),
     mkMotion (x e2 + n.1 * overlap * (m1 / (m1 + m2)))
              (y e2 + n.2 * overlap * (m1 / (m1 + m2)))
              (vx e2 + j / m2 * n.1) (vy e2 + j / m2 * n.2),
     true).
Proof.
  intros dist n used overlap dvn j Hover.
  unfold _resolve_circle_collision.
  fold (centre_distance e1 e2). fold dist.
  rewrite decide_False by lra.
  subst n used overlap dvn j. unfold contact_normal, closing_speed. fold dist.
  destruct (decide (dist < 1 / 1000)); cbn beta iota zeta; cbn [fst snd];
    rewrite ?Rdiv_1_r;
    destruct (decide (_ < 0)); cbn [fst snd];
    repeat first [ apply (f_equal2 (@pair _ _)) | apply mkMotion_eq ];
    first [ reflexivity | unfold Rdiv; ring ].
Qed.

(** X8.  [_resolve_circle_collision] returns [False] exactly when the
    centres are at least [r1 + r2] apart, and then leaves both entities as
    they are. *)
Theorem resolve_reports_overlap e1 r1 e2 r2 m1 m2 restitution :
  let after := _resolve_circle_collision e1 r1 e2 r2 m1 m2 restitution in
  (after.2 = false <-> centre_distance e1 e2 >= r1 + r2) /\
  (after.2 = false -> after.1 = (e1, e2)).
Proof.
  cbv zeta.
  destruct (decide (centre_distance e1 e2 >= r1 + r2)) as [Hapart|Hover].
  - rewrite resolve_apart by exact Hapart. by repeat split.
  - rewrite resolve_overlapping by lra. cbn [fst snd].
    repeat split; intros; first [discriminate | lra].
Qed.

(** X9.  With positive masses [_resolve_circle_collision] conserves the
    momentum along both axes and leaves the mass-weighted centre of the two
    bodies where it was. *)
Theorem resolve_conserves_momentum e1 r1 e2 r2 m1 m2 restitution :
  0 < m1 -> 0 < m2 ->
  let after := _resolve_circle_collision e1 r1 e2 r2 m1 m2 restitution in
  momentum_x after.1.1 after.1.2 m1 m2 = momentum_x e1 e2 m1 m2 /\
  momentum_y after.1.1 after.1.2 m1 m2 = momentum_y e1 e2 m1 m2 /\
  m1 * x after.1.1 + m2 * x after.1.2 = m1 * x e1 + m2 * x e2 /\
  m1 * y after.1.1 + m2 * y after.1.2 = m1 * y e1 + m2 * y e2.
Proof.
  intros Hm1 Hm2. cbv zeta. unfold momentum_x, momentum_y.
  destruct (decide (centre_distance e1 e2 >= r1 + r2)) as [Hapart|Hover].
  - rewrite resolve_apart by exact Hapart. by repeat split.
  - rewrite resolve_overlapping by lra. cbn [fst snd x y vx vy].
    set (n := contact_normal e1 e2).
    set (j := if decide (_ < 0) then _ else 0).
    set (overlap := r1 + r2 - _).
    repeat split; field; lra.
Qed.

(** X10.  On overlapping circles with positive masses, the velocity of the
    second body relative to the first along the separation axis: when the
    bodies approach it is reversed and scaled by the restitution, otherwise
    it is kept. *)
Theorem resolve_restitution_law e1 r1 e2 r2 m1 m2 restitution :
  0 < m1 -> 0 < m2 ->
  centre_distance e1 e2 < r1 + r2 ->
  let n := contact_normal e1 e2 in
  let after := _resolve_circle_collision e1 r1 e2 r2 m1 m2 restitution in
  let before := closing_speed e1 e2 n in
  closing_speed after.1.1 after.1.2 n
  = if decide (before < 0) then - restitution * before else before.
Proof.
  intros Hm1 Hm2 Hover. cbv zeta.
  rewrite resolve_overlapping by lra. cbn [fst snd].
  pose proof (contact_normal_unit e1 e2) as Hunit.
  set (n := contact_normal e1 e2) in *.
  set (dvn := closing_speed e1 e2 n).
  assert (Hsum : 1 / m1 + 1 / m2 <> 0).
  { assert (0 < 1 / m1) by (apply Rdiv_lt_0_compat; lra).
    assert (0 < 1 / m2) by (apply Rdiv_lt_0_compat; lra). lra. }
  unfold closing_speed at 1. cbn [vx vy].
  set (j := if decide (dvn < 0) then _ else 0).
  replace ((vx e2 + j / m2 * n.1 - (vx e1 - j / m1 * n.1)) * n.1 +
           (vy e2 + j / m2 * n.2 - (vy e1 - j / m1 * n.2)) * n.2)
    with (dvn + j * (1 / m1 + 1 / m2) * (n.1 ^ 2 + n.2 ^ 2))
    by (unfold dvn, closing_speed; field; lra).
  rewrite Hunit. subst j. case_decide; [field; lra|ring].
Qed.

(** X11.  Two circles with the same centre and radii that add up to at
    least 1: the call moves them apart along the x axis only, to a distance
    of [r1 + r2 - 1], so that an overlap of exactly 1 is left. *)
Theorem resolve_coincident_leaves_overlap e1 r1 e2 r2 m1 m2 restitution :
  x e2 = x e1 -> y e2 = y e1 -> 1 <= r1 + r2 -> 0 < m1 -> 0 < m2 ->
  let after := _resolve_circle_collision e1 r1 e2 r2 m1 m2 restitution in
  y after.1.1 = y e1 /\ y after.1.2 = y e2 /\
  x after.1.1 <= x e1 /\ x e2 <= x after.1.2 /\
  centre_distance after.1.1 after.1.2 = r1 + r2 - 1.
Proof.
  intros Hx Hy Hradii Hm1 Hm2. cbv zeta.
  assert (Hzero : centre_distance e1 e2 = 0).
  { unfold centre_distance. rewrite Hx, Hy. apply sqrt_is; lra. }
  destruct (resolve_near_coincident_positions e1 r1 e2 r2 m1 m2 restitution)
    as (Hx1 & Hy1 & Hx2 & Hy2); rewrite ?Hzero; try lra.
  set (after := _resolve_circle_collision _ _ _ _ _ _ _) in *.
  assert (Hshare1 : 0 <= (r1 + r2 - 1) * (m2 / (m1 + m2))).
  { apply Rmult_le_pos; [lra|]. apply Rlt_le, Rdiv_lt_0_compat; lra. }
  assert (Hshare2 : 0 <= (r1 + r2 - 1) * (m1 / (m1 + m2))).
  { apply Rmult_le_pos; [lra|]. apply Rlt_le, Rdiv_lt_0_compat; lra. }
  split; [exact Hy1|]. split; [exact Hy2|].
  split; [lra|]. split; [lra|].
  unfold centre_distance. rewrite Hx1, Hy1, Hx2, Hy2, Hx, Hy.
  apply sqrt_is; [lra|]. field. lra.
Qed.

End CollisionLaws.

Section CollisionLawSamples.
Local Open Scope R_scope.

Lemma resolve_conserves_momentum_witness :
  let after := _resolve_circle_collision (p_motion standing_home) 20
                 (b_motion arrived_ball) 10 1 (1 / 2) (9 / 10) in
  momentum_x after.1.1 after.1.2 1 (1 / 2)
  = momentum_x (p_motion standing_home) (b_motion arrived_ball) 1 (1 / 2).
Proof.
  apply (resolve_conserves_momentum (p_motion standing_home) 20
           (b_motion arrived_ball) 10 1 (1 / 2) (9 / 10)); lra.
Defined.

Lemma standing_arrived_distance :
  centre_distance (p_motion standing_home) (b_motion arrived_ball) = 29.
Proof.
  unfold centre_distance, standing_home, arrived_ball. project.
  apply sqrt_is; lra.
Qed.

Lemma resolve_restitution_law_witness :
  let n := contact_normal (p_motion standing_home) (b_motion arrived_ball) in
  let after := _resolve_circle_collision (p_motion standing_home) 20
                 (b_motion arrived_ball) 10 1 (1 / 2) (9 / 10) in
  let before := closing_speed (p_motion standing_home) (b_motion arrived_ball) n in
  closing_speed after.1.1 after.1.2 n
  = if decide (before < 0) then - (9 / 10) * before else before.
Proof.
  apply (resolve_restitution_law (p_motion standing_home) 20
           (b_motion arrived_ball) 10 1 (1 / 2) (9 / 10));
    rewrite ?standing_arrived_distance; lra.
Defined.

Lemma resolve_coincident_leaves_overlap_witness :
  let after := _resolve_circle_collision left_circle 15 left_circle 15 1 3 (5 / 10) in
  centre_distance after.1.1 after.1.2 = 15 + 15 - 1.
Proof.
  apply (resolve_coincident_leaves_overlap left_circle 15 left_circle 15 1 3
           (5 / 10)); first [reflexivity | lra].
Defined.

End CollisionLawSamples.


(** ** What the collision handling keeps *)

Section Frame.
Variable config : GameConfig.
Variable rel : Player -> Player -> Prop.
Hypothesis rel_refl : forall p, rel p p.
Hypothesis rel_trans : forall p q r, rel p q -> rel q r -> rel p r.
Hypothesis rel_motion : forall p m, rel p (set_p_motion m p).

Lemma Forall2_rel_refl ps : Forall2 rel ps ps.
Proof. induction ps; by constructor. Qed.

Lemma Forall2_rel_trans ps qs rs :
  Forall2 rel ps qs -> Forall2 rel qs rs -> Forall2 rel ps rs.
Proof.
  intros Hpq. revert rs. induction Hpq as [|p q ps qs Hp Hps IH]; intros rs Hqr.
  - inversion Hqr. constructor.
  - inversion Hqr as [|? r ? rs' Hq Hqs]; subst. constructor; eauto.
Qed.

Lemma Forall2_rel_map (f : Player -> Player) ps :
  (forall p, rel p (f p)) -> Forall2 rel ps (map f ps).
Proof. intros Hf. induction ps; simpl; by constructor. Qed.

Lemma apply_acceleration_rel p ax ay p' :
  apply_acceleration config p ax ay = Return p' -> rel p p'.
Proof.
  unfold apply_acceleration. intros Hcall.
  apply bind_Return in Hcall as ([ax' ay'] & _ & Hcall).
  apply bind_Return in Hcall as (m & _ & [= <-]). apply rel_motion.
Qed.

Lemma apply_actions_rel actions ps ps' :
  apply_actions config actions ps = Return ps' -> Forall2 rel ps ps'.
Proof.
  revert ps'. induction ps as [|p ps IH]; intros ps'.
  { intros [= <-]. constructor. }
  cbn [apply_actions]. intros Hcall.
  apply bind_Return in Hcall as (p' & Hp & Hcall).
  apply bind_Return in Hcall as (rest & Hrest & [= <-]).
  constructor; [|by apply IH].
  destruct (actions !! _); [by eapply apply_acceleration_rel|].
  injection Hp as <-. apply rel_refl.
Qed.

Lemma update_positions_rel ps b ps' b' :
  update_positions config ps b = Return (ps', b') -> Forall2 rel ps ps'.
Proof.
  unfold update_positions. intros Hcall.
  apply bind_Return in Hcall as (m & _ & [= <- _]).
  apply Forall2_rel_map. intros p. apply rel_motion.
Qed.

Lemma enforce_players_rel ps : Forall2 rel ps (enforce_players config ps).
Proof. apply Forall2_rel_map. intros p. apply rel_motion. Qed.

Lemma player_ball_collisions_rel ps b :
  Forall2 rel ps (player_ball_collisions ps b).1.1.
Proof.
  revert b. induction ps as [|p ps IH]; intros b; [constructor|].
  simpl. destruct (_resolve_circle_collision _ _ _ _ _ _ _) as [[e1 e2] hit].
  specialize (IH (set_b_motion e2 b)).
  destruct (player_ball_collisions ps (set_b_motion e2 b)) as [[ps' b'] hits].
  constructor; [apply rel_motion|exact IH].
Qed.

Lemma collide_with_rest_rel p ps :
  rel p (collide_with_rest p ps).1.1 /\
  Forall2 rel ps (collide_with_rest p ps).1.2.
Proof.
  revert p. induction ps as [|q ps IH]; intros p.
  - split; [apply rel_refl|constructor].
  - simpl. destruct (_resolve_circle_collision _ _ _ _ _ _ _) as [[e1 e2] hit].
    destruct (IH (set_p_motion e1 p)) as [Hp Hrest].
    destruct (collide_with_rest (set_p_motion e1 p) ps) as [[p' ps'] hits].
    split.
    + eapply rel_trans; [apply rel_motion|exact Hp].
    + constructor; [apply rel_motion|exact Hrest].
Qed.

Lemma player_player_collisions_rel n ps :
  Forall2 rel ps (player_player_collisions n ps).1.
Proof.
  revert ps. induction n as [|n IH]; intros [|p ps];
    try apply Forall2_rel_refl.
  simpl. destruct (collide_with_rest_rel p ps) as [Hp Hrest].
  destruct (collide_with_rest p ps) as [[p' ps'] hit].
  specialize (IH ps').
  destruct (player_player_collisions n ps') as [ps'' hits].
  constructor; [exact Hp|]. by eapply Forall2_rel_trans.
Qed.

Lemma collision_pass_rel ps b :
  Forall2 rel ps (collision_pass config ps b).1.1.
Proof.
  unfold collision_pass.
  pose proof (player_ball_collisions_rel
                (enforce_players config ps) (enforce_ball config b)) as Hball.
  destruct (player_ball_collisions _ _) as [[ps1 b1] hit1].
  pose proof (player_player_collisions_rel (length ps1) ps1) as Hplayers.
  destruct (player_player_collisions _ _) as [ps2 hit2].
  simpl in *.
  eapply Forall2_rel_trans; [apply enforce_players_rel|].
  eapply Forall2_rel_trans; [exact Hball|].
  eapply Forall2_rel_trans; [exact Hplayers|].
  apply enforce_players_rel.
Qed.

Lemma collision_loop_rel n ps b :
  Forall2 rel ps (collision_loop config n ps b).1.
Proof.
  revert ps b. induction n as [|n IH]; intros ps b; [apply Forall2_rel_refl|].
  simpl. pose proof (collision_pass_rel ps b) as Hpass.
  destruct (collision_pass config ps b) as [[ps' b'] hit].
  destruct hit; [|exact Hpass].
  eapply Forall2_rel_trans; [exact Hpass|apply IH].
Qed.

Lemma handle_all_collisions_rel ps b gs :
  Forall2 rel ps (handle_all_collisions config ps b gs).1.
Proof. apply collision_loop_rel. Qed.

End Frame.

Section BallFrame.
Variable config : GameConfig.

Lemma same_ball_build_trans b1 b2 b3 :
  same_ball_build b1 b2 -> same_ball_build b2 b3 -> same_ball_build b1 b3.
Proof. intros [? ?] [? ?]. split; congruence. Qed.

Lemma player_ball_collisions_ball ps b :
  same_ball_build b (player_ball_collisions ps b).1.2.
Proof.
  revert b. induction ps as [|p ps IH]; intros b; [by split|].
  simpl. destruct (_resolve_circle_collision _ _ _ _ _ _ _) as [[e1 e2] hit].
  specialize (IH (set_b_motion e2 b)).
  destruct (player_ball_collisions ps (set_b_motion e2 b)) as [[ps' b'] hits].
  simpl in *. eapply same_ball_build_trans; [|exact IH]. by split.
Qed.

Lemma collision_pass_ball ps b :
  same_ball_build b (collision_pass config ps b).1.2.
Proof.
  unfold collision_pass.
  pose proof (player_ball_collisions_ball
                (enforce_players config ps) (enforce_ball config b)) as Hball.
  destruct (player_ball_collisions _ _) as [[ps1 b1] hit1].
  destruct (player_player_collisions _ _) as [ps2 hit2].
  simpl in *. unfold same_ball_build, enforce_ball in *.
  cbn [set_b_motion b_radius b_mass] in *. exact Hball.
Qed.

Lemma collision_loop_ball n ps b :
  same_ball_build b (collision_loop config n ps b).2.
Proof.
  revert ps b. induction n as [|n IH]; intros ps b; [by split|].
  simpl. pose proof (collision_pass_ball ps b) as Hpass.
  destruct (collision_pass config ps b) as [[ps' b'] hit].
  destruct hit; [|exact Hpass].
  eapply same_ball_build_trans; [exact Hpass|apply IH].
Qed.

Lemma same_body_refl p : same_body p p.
Proof. by repeat split. Qed.

Lemma same_body_trans p q r : same_body p q -> same_body q r -> same_body p r.
Proof.
  intros (? & ? & ? & ? & ?) (? & ? & ? & ? & ?). repeat split; congruence.
Qed.

Lemma same_body_motion p m : same_body p (set_p_motion m p).
Proof. by repeat split. Qed.

(** X12.  [handle_all_collisions] changes positions and velocities only:
    the players come back in the same number and order, each with its
    radius, mass, identifiers and kick cooldown, and the ball with its radius
    and mass. *)
Theorem handle_all_collisions_keeps_bodies ps b gs :
  let after := handle_all_collisions config ps b gs in
  Forall2 same_body ps after.1 /\
  length after.1 = length ps /\
  same_ball_build b after.2.
Proof.
  cbv zeta.
  pose proof (handle_all_collisions_rel config same_body same_body_refl
                same_body_trans same_body_motion ps b gs) as Hbodies.
  split; [exact Hbodies|]. split.
  - symmetry. by eapply Forall2_length.
  - apply collision_loop_ball.
Qed.

End BallFrame.

(** ** A configuration without contact is left alone *)

Section FixedPoint.
Local Open Scope R_scope.
Variable config : GameConfig.

Lemma enforce_players_playable ps :
  Forall (fun p => playable config (p_motion p) (p_radius p)) ps ->
  enforce_players config ps = ps.
Proof.
  induction 1 as [|p ps Hp Hps IH]; [reflexivity|].
  unfold enforce_players in *. simpl. rewrite IH.
  by rewrite _enforce_boundary_playable, player_eta.
Qed.

Lemma enforce_ball_playable b :
  playable config (b_motion b) (b_radius b) -> enforce_ball config b = b.
Proof.
  intros Hb. unfold enforce_ball.
  by rewrite _enforce_boundary_playable, ball_eta.
Qed.

Lemma player_ball_collisions_apart ps b :
  Forall (ball_apart b) ps -> player_ball_collisions ps b = (ps, b, false).
Proof.
  induction 1 as [|p ps Hp Hps IH]; [reflexivity|].
  simpl. rewrite resolve_apart by exact Hp.
  by rewrite ball_eta, IH, player_eta.
Qed.

Lemma collide_with_rest_apart p ps :
  Forall (players_apart p) ps -> collide_with_rest p ps = (p, ps, false).
Proof.
  induction 1 as [|q ps Hq Hps IH]; [reflexivity|].
  simpl. rewrite resolve_apart by exact Hq.
  by rewrite !player_eta, IH.
Qed.

Lemma player_player_collisions_apart n ps :
  all_apart ps -> player_player_collisions n ps = (ps, false).
Proof.
  revert ps. induction n as [|n IH]; intros [|p ps] Hps; try reflexivity.
  destruct Hps as [Hp Hps]. simpl.
  by rewrite collide_with_rest_apart, IH.
Qed.

(** X13.  When every player and the ball lie in the playable area and no
    two of them overlap, [handle_all_collisions] stops after its first pass
    and returns the players and the ball exactly as they were. *)
Theorem handle_all_collisions_without_contact ps b gs :
  Forall (fun p => playable config (p_motion p) (p_radius p)) ps ->
  playable config (b_motion b) (b_radius b) ->
  Forall (ball_apart b) ps ->
  all_apart ps ->
  collision_pass config ps b = (ps, b, false) /\
  handle_all_collisions config ps b gs = (ps, b).
Proof.
  intros Hplayers Hball Hfree Hapart.
  assert (Hpass : collision_pass config ps b = (ps, b, false)).
  { unfold collision_pass.
    rewrite enforce_players_playable, enforce_ball_playable by assumption.
    rewrite player_ball_collisions_apart by assumption.
    rewrite player_player_collisions_apart by assumption.
    by rewrite enforce_players_playable, enforce_ball_playable. }
  split; [exact Hpass|].
  unfold handle_all_collisions. cbn [collision_loop]. by rewrite Hpass.
Qed.

(** X14.  [check_goal] on any list of goals: a returned team is the opponent
    of the defender of the first goal in the list whose line the ball has
    entirely crossed within its span, and nothing is returned exactly when
    the ball has crossed no goal of the list. *)
Theorem check_goal_first_crossed ball goals :
  match check_goal config ball goals with
  | Some team =>
      exists before goal after,
        goals = before ++ goal :: after /\
        team = (1 - g_team_id goal)%Z /\
        crossed config goal ball /\
        Forall (fun g => ~ crossed config g ball) before
  | None => Forall (fun g => ~ crossed config g ball) goals
  end.
Proof.
  induction goals as [|goal goals IH]; [constructor|].
  cbn [check_goal].
  destruct (decide (g_top goal <= y (b_motion ball) /\
                    y (b_motion ball) <= g_bottom goal)) as [Hspan|Hspan].
  - rewrite bool_decide_eq_true_2 by exact Hspan. cbn [negb].
    assert (Hcases :
      crossed config goal ball \/
      (~ crossed config goal ball /\
       (if decide (g_team_id goal = 0%Z)
        then if decide (x (b_motion ball) + b_radius ball <= 0)
             then Some (1 - g_team_id goal)%Z else check_goal config ball goals
        else if decide (x (b_motion ball) - b_radius ball >= field_width config)
             then Some (1 - g_team_id goal)%Z else check_goal config ball goals)
       = check_goal config ball goals)).
    { unfold crossed. repeat case_decide; tauto. }
    destruct Hcases as [Hcrossed|[Hnot ->]].
    + assert (Hreturn :
        (if decide (g_team_id goal = 0%Z)
         then if decide (x (b_motion ball) + b_radius ball <= 0)
              then Some (1 - g_team_id goal)%Z else check_goal config ball goals
         else if decide (x (b_motion ball) - b_radius ball >= field_width config)
              then Some (1 - g_team_id goal)%Z else check_goal config ball goals)
        = Some (1 - g_team_id goal)%Z).
      { unfold crossed in Hcrossed. destruct Hcrossed as [_ Hline].
        repeat case_decide; tauto. }
      rewrite Hreturn. exists [], goal, goals.
      split; [reflexivity|]. split; [reflexivity|]. split; [exact Hcrossed|constructor].
    + destruct (check_goal config ball goals) as [team|].
      * destruct IH as (before & g & after & -> & -> & Hg & Hbefore).
        exists (goal :: before), g, after.
        split; [reflexivity|]. split; [reflexivity|].
        split; [exact Hg|by constructor].
      * by constructor.
  - rewrite bool_decide_eq_false_2 by exact Hspan. cbn [negb].
    assert (Hnot : ~ crossed config goal ball) by (unfold crossed; tauto).
    destruct (check_goal config ball goals) as [team|].
    + destruct IH as (before & g & after & -> & -> & Hg & Hbefore).
      exists (goal :: before), g, after.
      split; [reflexivity|]. split; [reflexivity|].
      split; [exact Hg|by constructor].
    + by constructor.
Qed.

End FixedPoint.


Section FixedPointSamples.
Local Open Scope R_scope.

Lemma midfield_playable px radius :
  radius <= px <= 1000 - radius -> radius <= 300 <= 600 - radius ->
  playable sample_config (mkMotion px 300 0 0) radius.
Proof.
  intros Hx Hy. unfold playable. cbn [x y]. rewrite midfield_no_corner.
  unfold sample_config. project. lra.
Qed.

Lemma handle_all_collisions_without_contact_witness :
  handle_all_collisions sample_config [standing_home; standing_away]
    (goal_line_ball 500) (_setup_goals sample_config)
  = ([standing_home; standing_away], goal_line_ball 500).
Proof.
  apply (handle_all_collisions_without_contact sample_config
           [standing_home; standing_away] (goal_line_ball 500)).
  - constructor; [apply (midfield_playable 300 20); lra|].
    constructor; [apply (midfield_playable 750 20); lra|]. constructor.
  - apply (midfield_playable 500 10); lra.
  - constructor; [|constructor; [|constructor]];
      unfold ball_apart, apart, centre_distance, standing_home, standing_away,
        goal_line_ball; project.
    + replace (sqrt ((500 - 300) ^ 2 + (300 - 300) ^ 2)) with 200
        by (symmetry; apply sqrt_is; lra). lra.
    + replace (sqrt ((500 - 750) ^ 2 + (300 - 300) ^ 2)) with 250
        by (symmetry; apply sqrt_is; lra). lra.
  - split; [|split; [constructor|exact I]].
    constructor; [|constructor].
    unfold players_apart, apart, centre_distance, standing_home, standing_away.
    project.
    replace (sqrt ((750 - 300) ^ 2 + (300 - 300) ^ 2)) with 450
      by (symmetry; apply sqrt_is; lra). lra.
Defined.

End FixedPointSamples.

(** ** Kickoff and reset *)

Section Kickoff.
Local Open Scope R_scope.
Variable config : GameConfig.

Lemma kickoff_motion_speed rand :
  0 <= rand 1%nat -> speed (kickoff_motion config rand) = rand 1%nat.
Proof.
  intros Hspeed. unfold kickoff_motion.
  destruct (get_initial_ball_position config) as [bx by_].
  unfold speed. cbn [vx vy]. apply sqrt_scaled_unit; [|exact Hspeed].
  pose proof (sin2_cos2 (rand 0%nat)) as Hunit.
  rewrite !Rsqr_pow2 in Hunit. lra.
Qed.

Lemma kickoff_motion_kicked_off rand b :
  uniform_ok rand -> kicked_off config (set_b_motion (kickoff_motion config rand) b).
Proof.
  intros (_ & Hspeed & _). unfold kicked_off. cbn [set_b_motion b_motion].
  rewrite kickoff_motion_speed by lra. split; [|exact Hspeed].
  unfold kickoff_motion. by destruct (get_initial_ball_position config).
Qed.

(** X15.  A new game: the ball is at the initial ball position with a speed
    between 2 and 5 and the configured radius and mass; every player stands
    still with the configured radius and mass and is free to kick; the
    players are those of team 0 followed by those of team 1, numbered from 0
    within each team. *)
Theorem new_game_kickoff rand :
  uniform_ok rand ->
  let g := new_game config rand in
  kicked_off config (ball g) /\
  b_radius (ball g) = ball_radius config /\ b_mass (ball g) = ball_mass config /\
  Forall (fun p => vx (p_motion p) = 0 /\ vy (p_motion p) = 0 /\
                   p_radius p = player_radius config /\
                   p_mass p = player_mass config /\
                   p_kick_cooldown p = 0%Z) (players g) /\
  identities (players g)
  = ((fun i => (0%Z, Z.of_nat i))
       <$> seq 0 (length (get_initial_player_positions config 0)))
    ++ ((fun i => (1%Z, Z.of_nat i))
          <$> seq 0 (length (get_initial_player_positions config 1))).
Proof.
  intros Hrand. cbv zeta. cbn [new_game ball players].
  split; [exact (kickoff_motion_kicked_off rand (_setup_ball config rand) Hrand)|].
  split; [reflexivity|]. split; [reflexivity|].
  assert (Hteam : forall team,
    Forall (fun p => vx (p_motion p) = 0 /\ vy (p_motion p) = 0 /\
                     p_radius p = player_radius config /\
                     p_mass p = player_mass config /\
                     p_kick_cooldown p = 0%Z) (team_players config team) /\
    identities (team_players config team)
    = (fun i => (team, Z.of_nat i))
        <$> seq 0 (length (get_initial_player_positions config team))).
  { intros team. unfold team_players. split.
    - apply Forall_forall. intros p Hin.
      apply elem_of_lookup_imap in Hin as (i & [px py] & -> & _).
      by repeat split.
    - unfold identities. rewrite fmap_imap.
      generalize (get_initial_player_positions config team). intros l.
      apply list_eq. intros i. rewrite list_lookup_imap, list_lookup_fmap.
      destruct (l !! i) as [[px py]|] eqn:Hi.
      + rewrite lookup_seq_lt by (by eapply lookup_lt_Some). reflexivity.
      + rewrite lookup_seq_ge by (by apply lookup_ge_None). reflexivity. }
  unfold _setup_players. split.
  - apply Forall_app. split; apply Hteam.
  - unfold identities in *. rewrite fmap_app.
    by rewrite (proj2 (Hteam 0%Z)), (proj2 (Hteam 1%Z)).
Qed.

Lemma reset_players_lined_up rand k ps :
  (forall j, -20 <= rand (2 + j)%nat <= 20) ->
  Forall (valid_identity config) (identities ps) ->
  exists ps', reset_players config rand k ps = Return ps' /\
              Forall2 same_build ps ps' /\
              Forall (lined_up config) ps'.
Proof.
  intros Hjitter. revert k.
  induction ps as [|p ps IH]; intros k Hvalid.
  { exists []. by repeat constructor. }
  unfold identities in Hvalid. rewrite fmap_cons in Hvalid.
  apply Forall_cons in Hvalid as [Hp Hps].
  destruct (IH (S k) Hps) as (ps' & Hreset & Hbuild & Hlined).
  assert (Hslot : exists px py, formation_slot config p = Return (px, py)).
  { unfold formation_slot.
    destruct Hp as [[Hteam Hid]|[Hteam Hid]]; simpl in Hteam, Hid.
    - rewrite decide_True by exact Hteam.
      destruct (py_getitem_in_range (get_initial_player_positions config 0)
                  (p_player_id p) Hid) as ([px py] & ->). by exists px, py.
    - rewrite decide_False by lia.
      destruct (py_getitem_in_range (get_initial_player_positions config 1)
                  (p_player_id p) Hid) as ([px py] & ->). by exists px, py. }
  destruct Hslot as (px & py & Hslot).
  cbn [reset_players]. unfold formation_slot in Hslot. rewrite Hslot.
  cbn [mbind result_bind]. rewrite Hreset. cbn [mbind result_bind].
  eexists. split; [reflexivity|]. split.
  - constructor; [by repeat split|exact Hbuild].
  - constructor; [|exact Hlined].
    unfold lined_up, formation_slot.
    cbn [set_p_kick_cooldown set_p_motion p_motion p_team_id p_player_id
         p_kick_cooldown x y vx vy].
    split; [reflexivity|]. split; [reflexivity|]. split; [reflexivity|].
    exists px, py. split; [exact Hslot|].
    pose proof (Hjitter (2 * k)%nat) as Hjx.
    pose proof (Hjitter (1 + 2 * k)%nat) as Hjy.
    replace (2 + (1 + 2 * k))%nat with (3 + 2 * k)%nat in Hjy by lia.
    split; lra.
Qed.


End Kickoff.


Section KickoffSamples.
Local Open Scope R_scope.

Lemma new_game_kickoff_witness :
  kicked_off sample_config (ball (new_game sample_config kickoff_draws)).
Proof.
  apply (new_game_kickoff sample_config kickoff_draws), kickoff_draws_ok.
Defined.


End KickoffSamples.

(** ** Kick processing, continued *)

Section KickFrame.
Local Open Scope R_scope.
Variable config : GameConfig.

Lemma same_build_refl p : same_build p p.
Proof. by repeat split. Qed.

Lemma same_build_trans p q r :
  same_build p q -> same_build q r -> same_build p r.
Proof. intros (? & ? & ? & ?) (? & ? & ? & ?). repeat split; congruence. Qed.

Lemma same_body_build p q : same_body p q -> same_build p q.
Proof. intros (? & ? & ? & ? & ?). by repeat split. Qed.

Lemma kick_one_keeps actions p b :
  same_but_cooldown p (kick_one config actions p b).1 /\
  x (b_motion (kick_one config actions p b).2) = x (b_motion b) /\
  y (b_motion (kick_one config actions p b).2) = y (b_motion b) /\
  same_ball_build b (kick_one config actions p b).2.
Proof.
  unfold kick_one, same_but_cooldown, same_build, same_ball_build.
  repeat first [case_decide | case_match]; by repeat split.
Qed.

Lemma kick_one_cooldown actions p b :
  (0 <= kick_cooldown_ticks config)%Z ->
  cooldown_in_range config p ->
  cooldown_in_range config (kick_one config actions p b).1.
Proof.
  unfold kick_one, cooldown_in_range. intros Hticks Hp.
  repeat first [case_decide | case_match];
    cbn [fst set_p_kick_cooldown p_kick_cooldown]; lia.
Qed.

Lemma _process_kicks_keeps actions ps b :
  Forall2 same_but_cooldown ps (_process_kicks config actions ps b).1 /\
  x (b_motion (_process_kicks config actions ps b).2) = x (b_motion b) /\
  y (b_motion (_process_kicks config actions ps b).2) = y (b_motion b) /\
  same_ball_build b (_process_kicks config actions ps b).2.
Proof.
  revert b. induction ps as [|p ps IH]; intros b.
  { split; [constructor|]. by repeat split. }
  cbn [_process_kicks].
  destruct (kick_one_keeps actions p b) as (Hp & Hx & Hy & Hb).
  destruct (kick_one config actions p b) as [p' b1].
  destruct (IH b1) as (Hps & Hx' & Hy' & Hb').
  destruct (_process_kicks config actions ps b1) as [ps' b2].
  cbn [fst snd] in *. split; [by constructor|].
  split; [congruence|]. split; [congruence|].
  by eapply same_ball_build_trans.
Qed.

(** X17.  [_process_kicks] never moves anything: the players come back in
    the same number and order with their positions, velocities, radii,
    masses and identifiers, and the ball keeps its position, radius and mass;
    only cooldowns and the ball's velocity can change. *)
Theorem process_kicks_moves_nothing actions ps b :
  let after := _process_kicks config actions ps b in
  Forall2 same_but_cooldown ps after.1 /\
  length after.1 = length ps /\
  x (b_motion after.2) = x (b_motion b) /\
  y (b_motion after.2) = y (b_motion b) /\
  same_ball_build b after.2.
Proof.
  cbv zeta.
  destruct (_process_kicks_keeps actions ps b) as (Hps & Hx & Hy & Hb).
  split; [exact Hps|]. split; [symmetry; by eapply Forall2_length|].
  split; [exact Hx|]. split; [exact Hy|exact Hb].
Qed.

Lemma _process_kicks_cooldowns actions ps b :
  (0 <= kick_cooldown_ticks config)%Z ->
  Forall (cooldown_in_range config) ps ->
  Forall (cooldown_in_range config) (_process_kicks config actions ps b).1.
Proof.
  intros Hticks Hps. revert b.
  induction Hps as [|p ps Hp Hps IH]; intros b; [constructor|].
  cbn [_process_kicks].
  pose proof (kick_one_cooldown actions p b Hticks Hp) as Hp'.
  destruct (kick_one config actions p b) as [p' b1].
  specialize (IH b1).
  destruct (_process_kicks config actions ps b1) as [ps' b2].
  by constructor.
Qed.

(** X18.  A legal kick at a ball within range and more than 0.001 away, with
    a non-negative kick power: the velocity of the ball changes by a vector
    of length exactly [kick_power] that points from the player to the ball,
    and the position of the ball does not change. *)
Theorem kick_adds_kick_power actions p b :
  let dist := ball_distance p b in
  let b' := (kick_one config actions p b).2 in
  legal_kick actions p ->
  dist <= kick_range config -> dist > 1 / 1000 ->
  0 <= kick_power config ->
  vx (b_motion b') - vx (b_motion b)
  = (x (b_motion b) - x (p_motion p)) / dist * kick_power config /\
  vy (b_motion b') - vy (b_motion b)
  = (y (b_motion b) - y (p_motion p)) / dist * kick_power config /\
  sqrt ((vx (b_motion b') - vx (b_motion b)) ^ 2
        + (vy (b_motion b') - vy (b_motion b)) ^ 2) = kick_power config /\
  x (b_motion b') = x (b_motion b) /\ y (b_motion b') = y (b_motion b).
Proof.
  intros dist b' Hlegal Hnear Hapart Hpower. subst b'.
  rewrite (kick_one_push config actions p b Hlegal Hnear Hapart).
  cbn [snd set_b_motion b_motion x y vx vy]. fold dist.
  set (dx := x (b_motion b) - x (p_motion p)).
  set (dy := y (b_motion b) - y (p_motion p)).
  assert (Hunit : (dx / dist) ^ 2 + (dy / dist) ^ 2 = 1).
  { apply unit_normal. change (0 < dist). lra. }
  split; [ring|]. split; [ring|]. split; [|by split].
  rewrite <- (sqrt_scaled_unit (dx / dist) (dy / dist) (kick_power config)
                Hunit Hpower) at 3.
  f_equal. ring.
Qed.

End KickFrame.

Section KickFrameSamples.
Local Open Scope R_scope.

Lemma kick_adds_kick_power_witness :
  let b' := (kick_one sample_config kick_actions (kicker 0) near_ball).2 in
  sqrt ((vx (b_motion b') - vx (b_motion near_ball)) ^ 2
        + (vy (b_motion b') - vy (b_motion near_ball)) ^ 2)
  = kick_power sample_config.
Proof.
  apply (kick_adds_kick_power sample_config kick_actions (kicker 0) near_ball).
  - by apply kicker_legal.
  - rewrite near_ball_distance. unfold sample_config. project. lra.
  - rewrite near_ball_distance. lra.
  - unfold sample_config. project. lra.
Defined.

End KickFrameSamples.

(** ** The two branches of a tick, case by case *)

Section TickCases.
Variable config : GameConfig.
Variables team0_agents team1_agents : list Agent.

Ltac body_frame :=
  first [ exact same_body_refl | exact same_body_trans | exact same_body_motion ].

Lemma Forall2_same_build_trans ps qs rs :
  Forall2 same_build ps qs -> Forall2 same_build qs rs ->
  Forall2 same_build ps rs.
Proof. apply Forall2_rel_trans. exact same_build_trans. Qed.

Lemma Forall2_same_body_trans ps qs rs :
  Forall2 same_body ps qs -> Forall2 same_body qs rs -> Forall2 same_body ps rs.
Proof. apply Forall2_rel_trans. exact same_body_trans. Qed.

Lemma Forall2_body_build ps qs :
  Forall2 same_body ps qs -> Forall2 same_build ps qs.
Proof.
  intros Hbodies. eapply Forall2_impl; [exact Hbodies|exact same_body_build].
Qed.

Lemma Forall2_kicks_build ps qs :
  Forall2 same_but_cooldown ps qs -> Forall2 same_build ps qs.
Proof.
  intros Hkept. eapply Forall2_impl; [exact Hkept|]. by intros p q [_ Hbuild].
Qed.

Lemma Forall2_body_cooldowns ps qs :
  Forall2 same_body ps qs ->
  Forall (cooldown_in_range config) ps -> Forall (cooldown_in_range config) qs.
Proof.
  induction 1 as [|p q ps qs Hpq Hps IH]; [constructor|].
  intros Hcool. apply Forall_cons in Hcool as [Hp Hcool].
  constructor; [|by apply IH].
  destruct Hpq as (_ & _ & _ & _ & Hc). unfold cooldown_in_range in *.
  by rewrite Hc.
Qed.

(** The physics of a tick: integration followed by collision handling. *)
Lemma physics_keeps_bodies ps b gs ps1 b1 ps2 b2 :
  update_positions config ps b = Return (ps1, b1) ->
  handle_all_collisions config ps1 b1 gs = (ps2, b2) ->
  Forall2 same_body ps ps2 /\ same_ball_build b b2.
Proof.
  intros Hmoved Hhandled.
  assert (Forall2 same_body ps ps1) as Hstep1
    by (eapply update_positions_rel; [body_frame|exact Hmoved]).
  assert (Forall2 same_body ps1 (handle_all_collisions config ps1 b1 gs).1)
    as Hstep2 by (apply handle_all_collisions_rel; body_frame).
  pose proof (collision_loop_ball config 10 ps1 b1) as Hball.
  fold (handle_all_collisions config ps1 b1 gs) in Hball.
  rewrite Hhandled in Hstep2, Hball.
  cbn [fst snd] in Hstep2, Hball. split.
  - by eapply Forall2_same_body_trans.
  - eapply (same_ball_build_trans b b1); [|exact Hball].
    unfold update_positions in Hmoved.
    apply bind_Return in Hmoved as (m & _ & [= _ <-]). by split.
Qed.

Lemma reset_players_build rand k ps ps' :
  reset_players config rand k ps = Return ps' ->
  Forall2 same_build ps ps' /\ Forall (fun p => p_kick_cooldown p = 0%Z) ps'.
Proof.
  revert k ps'. induction ps as [|p ps IH]; intros k ps'.
  { intros [= <-]. by split; constructor. }
  cbn [reset_players]. intros Hcall.
  apply bind_Return in Hcall as ([px py] & _ & Hcall).
  apply bind_Return in Hcall as (rest & Hrest & [= <-]).
  destruct (IH _ _ Hrest) as [Hbuild Hzero].
  split; constructor; done.
Qed.

(** What a celebration tick that returns has done. *)
Lemma celebration_tick_cases rand g g' scored :
  celebration_tick config rand g = Return (g', scored) ->
  tick g' = tick g /\ goals g' = goals g /\
  Forall2 same_build (players g) (players g') /\
  same_ball_build (ball g) (ball g') /\
  ((exists team points,
      pending_goal_scorer g = Some team /\
      goal_celebration_remaining g = 1%Z /\
      scored = Some team /\
      score_point (score g) team = Return (score g') /\
      py_getitem (score g') team = Return points /\
      status g' = (if decide (points >= win_score config)%Z
                   then ENDED else status g) /\
      pending_goal_scorer g' = None /\ goal_celebration_remaining g' = 0%Z /\
      Forall (fun p => p_kick_cooldown p = 0%Z) (players g') /\
      exists before,
        reset_positions config rand before = Return
          (mkGame (players g') (ball g') (goals g') (score g') (tick g')
                  (status g) 0 (Some team)) /\
        identities (players before) = identities (players g))
   \/
   (scored = None /\
    ~ (goal_celebration_remaining g = 1%Z /\ pending_goal_scorer g <> None) /\
    score g' = score g /\ status g' = status g /\
    pending_goal_scorer g' = pending_goal_scorer g /\
    goal_celebration_remaining g' = (goal_celebration_remaining g - 1)%Z /\
    Forall2 same_body (players g) (players g'))).
Proof.
  unfold celebration_tick. intros Hcall.
  apply bind_Return in Hcall as ([ps1 b1] & Hmoved & Hcall).
  pose proof (update_positions_identities _ _ _ _ _ Hmoved) as Hup.
  pose proof (handle_all_collisions_identities config ps1 b1 (goals g)) as Hcol.
  destruct (handle_all_collisions config ps1 b1 (goals g)) as [ps2 b2]
    eqn:Hhandled.
  destruct (physics_keeps_bodies _ _ _ _ _ _ _ Hmoved Hhandled)
    as [Hbodies Hball].
  cbn [fst snd] in Hcol.
  cbn [pending_goal_scorer] in Hcall.
  destruct (pending_goal_scorer g) as [team|] eqn:Hpending.
  - destruct (decide (goal_celebration_remaining g - 1 = 0)%Z) as [Hzero|Hmore].
    + cbn [score players ball goals tick status goal_celebration_remaining]
        in Hcall.
      apply bind_Return in Hcall as (new_score & Hpoint & Hcall).
      apply bind_Return in Hcall as (g1 & Hreset & Hcall).
      apply bind_Return in Hcall as (points & Hpoints & [= <- <-]).
      cbn [players ball goals score tick status goal_celebration_remaining
           pending_goal_scorer].
      pose proof Hreset as Hreset'.
      unfold reset_positions in Hreset.
      cbn [players ball goals score tick status goal_celebration_remaining
           pending_goal_scorer] in Hreset.
      apply bind_Return in Hreset as (ps3 & Hplayers & [= <-]).
      cbn [players ball goals score tick status goal_celebration_remaining
           pending_goal_scorer] in *.
      destruct (reset_players_build _ _ _ _ Hplayers) as [Hbuild Hcool].
      split; [reflexivity|]. split; [reflexivity|].
      split.
      { eapply Forall2_same_build_trans; [|exact Hbuild].
        by apply Forall2_body_build. }
      split.
      { eapply same_ball_build_trans; [exact Hball|]. by split. }
      left. exists team, points.
      split; [reflexivity|]. split; [lia|]. split; [reflexivity|].
      split; [exact Hpoint|]. split; [exact Hpoints|].
      split; [reflexivity|]. split; [reflexivity|]. split; [exact Hzero|].
      split; [exact Hcool|].
      eexists. split.
      * rewrite Hreset'. by rewrite Hzero.
      * cbn [players]. by rewrite Hcol, Hup.
    + injection Hcall as <- <-.
      cbn [players ball goals score tick status goal_celebration_remaining
           pending_goal_scorer].
      split; [reflexivity|]. split; [reflexivity|].
      split; [by apply Forall2_body_build|]. split; [exact Hball|].
      right. repeat split; try done. intros [Hone _]. lia.
  - injection Hcall as <- <-.
    cbn [players ball goals score tick status goal_celebration_remaining
         pending_goal_scorer].
    split; [reflexivity|]. split; [reflexivity|].
    split; [by apply Forall2_body_build|]. split; [exact Hball|].
    right. repeat split; try done. by intros [_ Hsome].
Qed.

(** What a normal-play tick that returns has done. *)
Lemma play_tick_cases done stuck g g' scored :
  play_tick config team0_agents team1_agents done stuck g
  = Return (g', scored) ->
  tick g' = tick g /\ goals g' = goals g /\ score g' = score g /\
  status g' = status g /\
  Forall2 same_build (players g) (players g') /\
  same_ball_build (ball g) (ball g') /\
  ((0 <= kick_cooldown_ticks config)%Z ->
   Forall (cooldown_in_range config) (players g) ->
   Forall (cooldown_in_range config) (players g')) /\
  scored = check_goal config (ball g') (goals g) /\
  match scored with
  | Some team =>
      pending_goal_scorer g' = Some team /\
      goal_celebration_remaining g' = goal_celebration_ticks config
  | None =>
      pending_goal_scorer g' = pending_goal_scorer g /\
      goal_celebration_remaining g' = goal_celebration_remaining g
  end.
Proof.
  unfold play_tick. intros Hcall.
  apply bind_Return in Hcall as (actions & _ & Hcall).
  apply bind_Return in Hcall as (ps0 & Hacted & Hcall).
  pose proof (apply_actions_rel config same_body same_body_refl same_body_motion
                _ _ _ Hacted) as Hact.
  pose proof (_process_kicks_keeps config actions ps0 (ball g))
    as (Hkick & _ & _ & Hkball).
  pose proof (_process_kicks_cooldowns config actions ps0 (ball g)) as Hcool.
  destruct (_process_kicks config actions ps0 (ball g)) as [ps1 b1].
  apply bind_Return in Hcall as ([ps2 b2] & Hmoved & Hcall).
  destruct (handle_all_collisions config ps2 b2 (goals g)) as [ps3 b3]
    eqn:Hhandled.
  destruct (physics_keeps_bodies _ _ _ _ _ _ _ Hmoved Hhandled)
    as [Hbodies Hball].
  cbn [fst snd] in *.
  assert (Hbuild : Forall2 same_build (players g) ps3).
  { eapply Forall2_same_build_trans; [by apply Forall2_body_build|].
    eapply Forall2_same_build_trans; [by apply Forall2_kicks_build|].
    by apply Forall2_body_build. }
  assert (Hballs : same_ball_build (ball g) b3)
    by (eapply same_ball_build_trans; [exact Hkball|exact Hball]).
  assert (Hcools : (0 <= kick_cooldown_ticks config)%Z ->
                   Forall (cooldown_in_range config) (players g) ->
                   Forall (cooldown_in_range config) ps3).
  { intros Hticks Hin. eapply Forall2_body_cooldowns; [exact Hbodies|].
    apply Hcool; [exact Hticks|].
    by eapply Forall2_body_cooldowns. }
  destruct (check_goal config b3 (goals g)) as [team|] eqn:Hgoal;
    injection Hcall as <- <-;
    cbn [players ball goals score tick status goal_celebration_remaining
         pending_goal_scorer];
    rewrite Hgoal;
    repeat (split; [first [reflexivity | assumption]|]); reflexivity.
Qed.

(** X19.  A call to [step] that returns on a running game advances the tick
    by exactly one, keeps the goals, the radius, mass and identifiers of
    every player and the radius and mass of the ball; the game is ended
    afterwards exactly when the new tick has reached [max_ticks], or the call
    took the celebration countdown from 1 to 0 and the pending scorer's new
    score has reached [win_score]. *)
Theorem step_advances_one_tick inp g g' scored :
  status g = RUNNING ->
  step config team0_agents team1_agents inp g = Return (g', scored) ->
  tick g' = (tick g + 1)%Z /\ goals g' = goals g /\
  Forall2 same_build (players g) (players g') /\
  same_ball_build (ball g) (ball g') /\
  (status g' = ENDED <->
     (tick g + 1 >= max_ticks config)%Z \/
     (goal_celebration_remaining g = 1%Z /\
      exists team points,
        pending_goal_scorer g = Some team /\
        py_getitem (score g') team = Return points /\
        (points >= win_score config)%Z)).
Proof.
  intros Hrunning Hstep.
  destruct (step_running _ _ _ inp g g' scored Hrunning Hstep) as (g1 & Hbranch & ->).
  cbn [players ball goals score tick status].
  destruct (decide (goal_celebration_remaining g > 0)%Z) as [Hcel|Hplay].
  - destruct (celebration_tick_cases _ _ _ _ Hbranch)
      as (Htick & Hgoals & Hbuild & Hball & Hcases).
    rewrite Htick. split; [reflexivity|]. split; [exact Hgoals|].
    split; [exact Hbuild|]. split; [exact Hball|].
    destruct Hcases as [(team & points & Hpending & Hone & _ & _ & Hpoints
                          & Hstatus & _)
                       |(_ & Hnot & _ & Hstatus & _)].
    + rewrite Hstatus, Hrunning. split.
      * intros Hended. case_decide; [by left|]. right.
        split; [exact Hone|]. exists team, points.
        split; [exact Hpending|]. split; [exact Hpoints|].
        by case_decide.
      * intros [Hlimit|(_ & team' & points' & Hpending' & Hpoints' & Hwin)].
        { by rewrite decide_True by exact Hlimit. }
        assert (team' = team) as -> by congruence.
        assert (points' = points) as -> by congruence.
        rewrite (decide_True (P := (points >= win_score config)%Z)) by exact Hwin.
        by destruct (decide (tick g + 1 >= max_ticks config)%Z).
    + rewrite Hstatus, Hrunning. split.
      * intros Hended. case_decide; [by left|discriminate].
      * intros [Hlimit|(Hone & team' & points' & Hpending' & _)].
        { by rewrite decide_True by exact Hlimit. }
        destruct Hnot. split; [exact Hone|]. by rewrite Hpending'.
  - destruct (play_tick_cases _ _ _ _ _ Hbranch)
      as (Htick & Hgoals & _ & Hstatus & Hbuild & Hball & _).
    rewrite Htick. split; [reflexivity|]. split; [exact Hgoals|].
    split; [exact Hbuild|]. split; [exact Hball|].
    rewrite Hstatus, Hrunning. split.
    + intros Hended. case_decide; [by left|discriminate].
    + intros [Hlimit|(Hone & _)]; [|lia].
      by rewrite decide_True by exact Hlimit.
Qed.

(** X20.  In normal play, that is on a running game whose celebration
    countdown is not positive, the value that [step] returns is the result of
    [check_goal] on the ball as the tick leaves it; the score is untouched;
    a detected goal starts the countdown at [goal_celebration_ticks] and is
    recorded as pending, and without one countdown and pending scorer stay
    as they were. *)
Theorem step_reports_detected_goal inp g g' scored :
  status g = RUNNING -> ~ (goal_celebration_remaining g > 0)%Z ->
  step config team0_agents team1_agents inp g = Return (g', scored) ->
  scored = check_goal config (ball g') (goals g') /\
  score g' = score g /\
  match scored with
  | Some team =>
      pending_goal_scorer g' = Some team /\
      goal_celebration_remaining g' = goal_celebration_ticks config
  | None =>
      pending_goal_scorer g' = pending_goal_scorer g /\
      goal_celebration_remaining g' = goal_celebration_remaining g
  end.
Proof.
  intros Hrunning Hplay Hstep.
  destruct (step_running _ _ _ inp g g' scored Hrunning Hstep) as (g1 & Hbranch & ->).
  rewrite decide_False in Hbranch by exact Hplay.
  destruct (play_tick_cases _ _ _ _ _ Hbranch)
    as (_ & Hgoals & Hscore & _ & _ & _ & _ & Hscored & Hpending).
  cbn [ball goals score pending_goal_scorer goal_celebration_remaining].
  rewrite Hgoals. by repeat split.
Qed.

(** X21.  During a celebration, on a game of the engine's shape, [step]
    lowers the countdown by one.  When that takes it from 1 to 0 the call
    returns the pending scorer, clears it, and leaves every player lined up
    at its formation slot and the ball kicked off; on every earlier tick of
    the celebration it returns [None], keeps pending scorer and score, and
    changes nothing of a player but its position and velocity. *)
Theorem step_awards_pending_goal inp g g' scored :
  engine_inv config g -> uniform_ok (uniform inp) ->
  status g = RUNNING -> (goal_celebration_remaining g > 0)%Z ->
  step config team0_agents team1_agents inp g = Return (g', scored) ->
  goal_celebration_remaining g' = (goal_celebration_remaining g - 1)%Z /\
  if decide (goal_celebration_remaining g = 1%Z) then
    scored = pending_goal_scorer g /\ scored <> None /\
    pending_goal_scorer g' = None /\
    Forall (lined_up config) (players g') /\ kicked_off config (ball g')
  else
    scored = None /\ pending_goal_scorer g' = pending_goal_scorer g /\
    score g' = score g /\ Forall2 same_body (players g) (players g').
Proof.
  intros Hinv Hrand Hrunning Hcel Hstep.
  destruct (step_running _ _ _ inp g g' scored Hrunning Hstep) as (g1 & Hbranch & ->).
  rewrite decide_True in Hbranch by exact Hcel.
  cbn [players ball score pending_goal_scorer goal_celebration_remaining].
  destruct Hinv as (_ & _ & _ & Hsome & Hids).
  destruct (celebration_tick_cases _ _ _ _ Hbranch)
    as (_ & _ & _ & _ & Hcases).
  destruct Hcases as [(team & points & Hpending & Hone & -> & _ & _ & _
                        & Hcleared & Hzero & _ & before & Hreset & Hbefore)
                     |(-> & Hnot & Hscore & _ & Hpending & Hless & Hbodies)].
  - rewrite Hzero, Hone. split; [reflexivity|].
    rewrite decide_True by reflexivity.
    split; [by rewrite Hpending|]. split; [discriminate|].
    split; [exact Hcleared|].
    pose proof Hrand as (_ & _ & Hjitter).
    assert (Hvalid : Forall (valid_identity config) (identities (players before))).
    { rewrite Hbefore, Hids. apply _setup_players_valid. }
    destruct (reset_players_lined_up config (uniform inp) 0 (players before)
                Hjitter Hvalid) as (ps' & Hplayers & _ & Hlined).
    unfold reset_positions in Hreset. rewrite Hplayers in Hreset.
    cbn [mbind result_bind] in Hreset. injection Hreset as <- <-.
    split; [exact Hlined|]. by apply kickoff_motion_kicked_off.
  - split; [exact Hless|].
    rewrite decide_False.
    + by repeat split.
    + intros Hone. apply Hnot. split; [exact Hone|]. by apply Hsome.
Qed.

(** The tick advances by one on a running game, and the time limit ends
    the game. *)
Lemma step_tick inp g g' scored :
  status g = RUNNING ->
  step config team0_agents team1_agents inp g = Return (g', scored) ->
  tick g' = (tick g + 1)%Z /\
  ((tick g + 1 >= max_ticks config)%Z -> status g' = ENDED).
Proof.
  intros Hrunning Hstep.
  destruct (step_running _ _ _ inp g g' scored Hrunning Hstep) as (g1 & Hbranch & ->).
  cbn [tick status].
  assert (Htick : tick g1 = tick g).
  { destruct (decide (goal_celebration_remaining g > 0)%Z).
    - by destruct (celebration_tick_cases _ _ _ _ Hbranch) as (Htick & _).
    - by destruct (play_tick_cases _ _ _ _ _ Hbranch) as (Htick & _). }
  rewrite Htick. split; [reflexivity|].
  intros Hlimit. by rewrite decide_True by exact Hlimit.
Qed.

(** What any call to [step] keeps of the players and the ball. *)
Lemma step_keeps inp g g' scored :
  step config team0_agents team1_agents inp g = Return (g', scored) ->
  Forall2 same_build (players g) (players g') /\
  same_ball_build (ball g) (ball g') /\
  ((0 <= kick_cooldown_ticks config)%Z ->
   Forall (cooldown_in_range config) (players g) ->
   Forall (cooldown_in_range config) (players g')).
Proof.
  intros Hstep. destruct (status g) eqn:Hstatus.
  - destruct (step_running _ _ _ inp g g' scored Hstatus Hstep)
      as (g1 & Hbranch & ->).
    cbn [players ball].
    destruct (decide (goal_celebration_remaining g > 0)%Z).
    + destruct (celebration_tick_cases _ _ _ _ Hbranch)
        as (_ & _ & Hbuild & Hball & Hcases).
      split; [exact Hbuild|]. split; [exact Hball|].
      intros Hticks Hcool.
      destruct Hcases as [(team & points & _ & _ & _ & _ & _ & _ & _ & _
                            & Hfree & _)
                         |(_ & _ & _ & _ & _ & _ & Hbodies)].
      * eapply Forall_impl; [exact Hfree|].
        intros p Hp. unfold cooldown_in_range. rewrite Hp. lia.
      * by eapply Forall2_body_cooldowns.
    + destruct (play_tick_cases _ _ _ _ _ Hbranch)
        as (_ & _ & _ & _ & Hbuild & Hball & Hcool & _).
      split; [exact Hbuild|]. split; [exact Hball|exact Hcool].
  - unfold step in Hstep. rewrite Hstatus in Hstep.
    rewrite decide_True in Hstep by discriminate.
    injection Hstep as <- <-.
    split; [apply Forall2_rel_refl; exact same_build_refl|].
    split; [by split|]. by intros _ Hcool.
Qed.

Lemma _setup_players_configured :
  Forall (fun p => p_radius p = player_radius config /\
                   p_mass p = player_mass config /\
                   p_kick_cooldown p = 0%Z) (_setup_players config).
Proof.
  unfold _setup_players. apply Forall_app.
  split; apply Forall_forall; intros p Hin; unfold team_players in Hin;
    apply elem_of_lookup_imap in Hin as (i & [px py] & -> & _);
    by repeat split.
Qed.

Lemma Forall2_build_configured ps qs :
  Forall2 same_build ps qs ->
  Forall (fun p => p_radius p = player_radius config /\
                   p_mass p = player_mass config) ps ->
  Forall (fun p => p_radius p = player_radius config /\
                   p_mass p = player_mass config) qs.
Proof.
  induction 1 as [|p q ps qs Hpq Hps IH]; [constructor|].
  intros Hconf. apply Forall_cons in Hconf as [[Hr Hm] Hconf].
  constructor; [|by apply IH].
  destruct Hpq as (Hr' & _ & _ & Hm'). split; congruence.
Qed.

(** X22.  In every game that a run of the engine reaches, the players are
    those that [_setup_players] made, by team and player identifier and in
    that order, each with the configured player radius and mass; the ball has
    the configured ball radius and mass; and with a non-negative
    [kick_cooldown_ticks] every cooldown lies between 0 and that number. *)
Theorem reachable_keeps_builds g :
  reachable config team0_agents team1_agents g ->
  identities (players g) = identities (_setup_players config) /\
  Forall (fun p => p_radius p = player_radius config /\
                   p_mass p = player_mass config) (players g) /\
  b_radius (ball g) = ball_radius config /\
  b_mass (ball g) = ball_mass config /\
  ((0 <= kick_cooldown_ticks config)%Z ->
   Forall (cooldown_in_range config) (players g)).
Proof.
  intros Hreach.
  split; [by destruct (reachable_inv _ _ _ _ Hreach) as (_ & _ & _ & _ & Hids)|].
  induction Hreach as [rand Hrand|g inp g' scored Hg IH Hrand Hstep].
  - cbn [new_game players ball _setup_ball b_radius b_mass].
    split.
    { eapply Forall_impl; [exact _setup_players_configured|].
      by intros p (? & ? & _). }
    split; [reflexivity|]. split; [reflexivity|].
    intros Hticks. eapply Forall_impl; [exact _setup_players_configured|].
    intros p (_ & _ & Hfree). unfold cooldown_in_range. rewrite Hfree. lia.
  - destruct IH as (Hconf & Hradius & Hmass & Hcool).
    destruct (step_keeps _ _ _ _ Hstep) as (Hbuild & [Hr Hm] & Hkeeps).
    split; [by eapply Forall2_build_configured|].
    split; [congruence|]. split; [congruence|].
    intros Hticks. by apply Hkeeps, Hcool.
Qed.

(** X23.  With a celebration of no tick, that is with
    [goal_celebration_ticks] at most 0, no goal is ever awarded: every game
    that a run reaches has the score 0:0 and a celebration countdown that is
    not positive, however often [check_goal] detects a goal. *)
Theorem no_celebration_no_score g :
  (goal_celebration_ticks config <= 0)%Z ->
  reachable config team0_agents team1_agents g ->
  score g = [0; 0]%Z /\ (goal_celebration_remaining g <= 0)%Z.
Proof.
  intros Hnone Hreach.
  induction Hreach as [rand Hrand|g inp g' scored Hg IH Hrand Hstep].
  - cbn [new_game score goal_celebration_remaining]. split; [reflexivity|lia].
  - destruct IH as [Hscore Hcount]. destruct (status g) eqn:Hstatus.
    + destruct (step_running _ _ _ inp g g' scored Hstatus Hstep)
        as (g1 & Hbranch & ->).
      cbn [score goal_celebration_remaining].
      rewrite decide_False in Hbranch by lia.
      destruct (play_tick_cases _ _ _ _ _ Hbranch)
        as (_ & _ & Hkept & _ & _ & _ & _ & _ & Hpending).
      split; [congruence|].
      destruct scored as [team|]; destruct Hpending as [_ ->]; lia.
    + unfold step in Hstep. rewrite Hstatus in Hstep.
      rewrite decide_True in Hstep by discriminate.
      by injection Hstep as <- <-.
Qed.

Lemma fill_defaults_dom (l : list Agent) (actions : gmap (Z * Z) Action) :
  dom (fill_defaults l actions)
  = dom actions ∪ list_to_set (agent_key <$> l).
Proof.
  revert actions. induction l as [|agent l IH]; intros actions;
    apply set_eq; intros key.
  { cbn [fill_defaults fmap list_fmap].
    rewrite elem_of_union, elem_of_list_to_set, elem_of_nil. tauto. }
  cbn [fill_defaults]. rewrite IH, fmap_cons.
  rewrite !elem_of_union, !elem_of_list_to_set, elem_of_cons.
  destruct (actions !! agent_key agent) as [a|] eqn:Hkey.
  - apply elem_of_dom_2 in Hkey. split; [tauto|].
    intros [Hold|[->|Hrest]]; auto.
  - rewrite dom_insert_L, elem_of_union, elem_of_singleton. tauto.
Qed.

Lemma record_completed_outcome (done : list (nat * FutureResult))
    (actions : gmap (Z * Z) Action) :
  match record_completed team0_agents team1_agents done actions with
  | Return actions' =>
      (forall i agent,
         all_agents team0_agents team1_agents !! i = Some agent ->
         (i, BaseException) ∉ done) /\
      forall key, key ∈ dom actions' ->
        key ∈ dom actions \/
        key ∈ agent_key <$> all_agents team0_agents team1_agents
  | Raise e =>
      e = BaseException_in_agent /\
      exists i agent,
        all_agents team0_agents team1_agents !! i = Some agent /\
        (i, BaseException) ∈ done
  | Blocks => False
  end.
Proof.
  revert actions. induction done as [|[i r] done IH]; intros actions.
  { cbn [record_completed]. split; [|by left].
    intros i agent _ Hin. by apply elem_of_nil in Hin. }
  cbn [record_completed].
  destruct (all_agents team0_agents team1_agents !! i) as [agent|] eqn:Hi.
  - assert (Hkey : agent_key agent
                   ∈ agent_key <$> all_agents team0_agents team1_agents).
    { apply list_elem_of_fmap. exists agent. split; [reflexivity|].
      by eapply list_elem_of_lookup_2. }
    destruct r as [a| |].
    + specialize (IH (<[agent_key agent := a]> actions)).
      destruct (record_completed _ _ done _) as [actions'|e|]; [|..|done].
      * destruct IH as [Hnone Hdom]. split.
        -- intros j other Hj Hin. apply elem_of_cons in Hin as [[=]|Hin].
           by eapply Hnone.
        -- intros key Hin. apply Hdom in Hin as [Hin|Hin]; [|by right].
           rewrite dom_insert_L, elem_of_union, elem_of_singleton in Hin.
           destruct Hin as [->|Hin]; [by right|by left].
      * destruct IH as (-> & j & other & Hj & Hin). split; [reflexivity|].
        exists j, other. split; [exact Hj|]. by apply elem_of_cons; right.
    + specialize (IH (<[agent_key agent := default_action]> actions)).
      destruct (record_completed _ _ done _) as [actions'|e|]; [|..|done].
      * destruct IH as [Hnone Hdom]. split.
        -- intros j other Hj Hin. apply elem_of_cons in Hin as [[=]|Hin].
           by eapply Hnone.
        -- intros key Hin. apply Hdom in Hin as [Hin|Hin]; [|by right].
           rewrite dom_insert_L, elem_of_union, elem_of_singleton in Hin.
           destruct Hin as [->|Hin]; [by right|by left].
      * destruct IH as (-> & j & other & Hj & Hin). split; [reflexivity|].
        exists j, other. split; [exact Hj|]. by apply elem_of_cons; right.
    + split; [reflexivity|]. exists i, agent. split; [exact Hi|].
      by apply elem_of_cons; left.
  - specialize (IH actions).
    destruct (record_completed _ _ done _) as [actions'|e|]; [|..|done].
    + destruct IH as [Hnone Hdom]. split; [|exact Hdom].
      intros j other Hj Hin. apply elem_of_cons in Hin as [[= -> _]|Hin].
      * rewrite Hi in Hj. discriminate.
      * by eapply Hnone.
    + destruct IH as (-> & j & other & Hj & Hin). split; [reflexivity|].
      exists j, other. split; [exact Hj|]. by apply elem_of_cons; right.
Qed.

Lemma workers_finish_spec stuck :
  workers_finish team0_agents team1_agents stuck = true <->
  forall i, i ∈ stuck -> all_agents team0_agents team1_agents !! i = None.
Proof.
  unfold workers_finish. rewrite forallb_forall. split.
  - intros Hall i Hin. apply list_elem_of_In, Hall in Hin.
    apply bool_decide_eq_true in Hin. by apply lookup_ge_None.
  - intros Hall i Hin. apply list_elem_of_In, Hall in Hin.
    apply bool_decide_eq_true. by apply lookup_ge_None.
Qed.

(** X24.  The outcomes of [_get_agent_actions].  It raises the thread pool's
    [ValueError] exactly when there is no agent at all.  With agents, it
    never returns exactly when the [get_action] of one of them never does.
    When every worker finishes, it raises exactly when a future that
    completed in time holds an exception that is no [Exception], and the
    dictionary it returns otherwise has an action for the key of every agent
    and for no other key, whatever futures completed and with whatever
    result. *)
Theorem get_agent_actions_keys done stuck :
  match _get_agent_actions team0_agents team1_agents done stuck with
  | Raise e =>
      (e = ValueError_max_workers /\
       all_agents team0_agents team1_agents = []) \/
      (e = BaseException_in_agent /\
       (forall i, i ∈ stuck ->
          all_agents team0_agents team1_agents !! i = None) /\
       exists i agent,
         all_agents team0_agents team1_agents !! i = Some agent /\
         (i, BaseException) ∈ done)
  | Blocks =>
      exists i agent,
        all_agents team0_agents team1_agents !! i = Some agent /\ i ∈ stuck
  | Return actions =>
      all_agents team0_agents team1_agents <> [] /\
      (forall i, i ∈ stuck ->
         all_agents team0_agents team1_agents !! i = None) /\
      (forall i agent,
         all_agents team0_agents team1_agents !! i = Some agent ->
         (i, BaseException) ∉ done) /\
      dom actions
      = list_to_set (agent_key <$> all_agents team0_agents team1_agents)
  end.
Proof.
  unfold _get_agent_actions.
  destruct (decide (length (all_agents team0_agents team1_agents) = 0%nat))
    as [Hnone|Hsome].
  { left. split; [reflexivity|]. by apply length_zero_iff_nil. }
  assert (Hagents : all_agents team0_agents team1_agents <> [])
    by (intros Hnil; by rewrite Hnil in Hsome).
  cbv zeta.
  destruct (workers_finish team0_agents team1_agents stuck) eqn:Hfinish.
  - pose proof (proj1 (workers_finish_spec stuck) Hfinish) as Hall.
    clear Hfinish. rename Hall into Hfinish.
    pose proof (record_completed_outcome done ∅) as Hgathered.
    destruct (record_completed _ _ done ∅) as [actions|e|];
      cbn [mbind result_bind]; [|..|done].
    + destruct Hgathered as [Hordinary Hdom].
      split; [exact Hagents|]. split; [exact Hfinish|].
      split; [exact Hordinary|].
      rewrite fill_defaults_dom. apply set_eq. intros key.
      rewrite elem_of_union, elem_of_list_to_set. split; [|by right].
      intros [Hdone|Hfilled]; [|exact Hfilled].
      apply Hdom in Hdone as [Hempty|Hagent]; [|exact Hagent].
      rewrite dom_empty_L in Hempty. by apply elem_of_empty in Hempty.
    + destruct Hgathered as [-> Hfatal]. right. by split.
  - assert (Hstuck : ~ forall i, i ∈ stuck ->
                       all_agents team0_agents team1_agents !! i = None).
    { intros Hall. pose proof (proj2 (workers_finish_spec stuck) Hall).
      congruence. }
    clear Hfinish. induction stuck as [|i stuck IH].
    { destruct Hstuck. intros i Hin. by apply elem_of_nil in Hin. }
    destruct (all_agents team0_agents team1_agents !! i) as [agent|] eqn:Hi.
    + exists i, agent. split; [exact Hi|]. by apply elem_of_cons; left.
    + destruct IH as (j & agent & Hj & Hin).
      * intros Hall. apply Hstuck. intros j Hin.
        apply elem_of_cons in Hin as [->|Hin]; [exact Hi|by apply Hall].
      * exists j, agent. split; [exact Hj|]. by apply elem_of_cons; right.
Qed.

(** The loop of [run] comes to an end within the ticks that are left. *)
Lemma run_loop_ends fuel inputs k g :
  (Z.max 1 (max_ticks config - tick g) <= Z.of_nat fuel)%Z ->
  exists outcome,
    run_loop config team0_agents team1_agents fuel inputs k g = Some outcome /\
    forall g', outcome = Return g' ->
      status g' = ENDED /\
      (tick g <= tick g' <= Z.max (tick g + 1) (max_ticks config))%Z.
Proof.
  revert k g. induction fuel as [|fuel IH]; intros k g Hfuel; [lia|].
  destruct (status g) eqn:Hstatus.
  - cbn [run_loop]. rewrite decide_True by exact Hstatus.
    destruct (step config team0_agents team1_agents (inputs k) g)
      as [[g1 sc]|e|] eqn:Hstep.
    + destruct (step_tick _ _ _ _ Hstatus Hstep) as [Htick Hlimit].
      destruct (status g1) eqn:Hstatus1.
      * assert (Hleft : (tick g + 1 < max_ticks config)%Z).
        { destruct (decide (tick g + 1 >= max_ticks config)%Z) as [Hge|Hlt];
            [|lia].
          specialize (Hlimit Hge). congruence. }
        destruct (IH (S k) g1) as (outcome & Hrun & Hended); [lia|].
        exists outcome. split; [exact Hrun|].
        intros g' Hreturned. destruct (Hended g' Hreturned) as [Hend Hticks].
        split; [exact Hend|lia].
      * exists (Return g1). split.
        -- destruct fuel; cbn [run_loop]; rewrite Hstatus1;
             by rewrite decide_False by discriminate.
        -- intros g' [= <-]. split; [exact Hstatus1|lia].
    + exists (Raise e). by split.
    + exists Blocks. by split.
  - exists (Return g). split.
    + cbn [run_loop]. rewrite Hstatus. by rewrite decide_False by discriminate.
    + intros g' [= <-]. split; [exact Hstatus|lia].
Qed.

(** X25.  The loop of [run] makes at most [max(1, max_ticks - tick)] calls
    to [step], whatever the game, the agents and the random draws: within
    that many iterations [run] has returned, or a call to [step] has raised
    or does not return.  When [run] returns, the game has ended, its tick
    has advanced by at most that number, and the returned score is that of
    the final game. *)
Theorem run_steps_bounded fuel inputs g :
  (Z.max 1 (max_ticks config - tick g) <= Z.of_nat fuel)%Z ->
  exists outcome,
    run config team0_agents team1_agents fuel inputs g = Some outcome /\
    forall g' final_score, outcome = Return (g', final_score) ->
      final_score = score g' /\ status g' = ENDED /\
      (tick g <= tick g' <= Z.max (tick g + 1) (max_ticks config))%Z.
Proof.
  intros Hfuel.
  destruct (run_loop_ends fuel inputs 0 g Hfuel) as (outcome & Hrun & Hended).
  unfold run. rewrite Hrun. destruct outcome as [g1|e|].
  - eexists. split; [reflexivity|].
    intros g' final_score [= <- <-]. split; [reflexivity|]. by apply Hended.
  - eexists. by split.
  - eexists. by split.
Qed.

(** X26.  [get_winner] on a game that a run of the engine reaches never
    raises; it names a team exactly when the game has ended and that team has
    strictly more points than the other, so a running game and a draw both
    give [None]. *)
Theorem get_winner_strictly_ahead g :
  reachable config team0_agents team1_agents g ->
  exists s0 s1 winner,
    score g = [s0; s1] /\ get_winner g = Return winner /\
    forall team,
      winner = Some team <->
      status g = ENDED /\
      ((team = 0%Z /\ (s0 > s1)%Z) \/ (team = 1%Z /\ (s1 > s0)%Z)).
Proof.
  intros Hreach.
  destruct (reachable_inv _ _ _ _ Hreach) as (_ & (s0 & s1 & Hscore) & _).
  exists s0, s1. unfold get_winner. rewrite Hscore.
  destruct (decide (status g <> ENDED)) as [Hopen|Hended].
  { eexists. split; [reflexivity|]. split; [reflexivity|].
    intros team. split; [discriminate|]. by intros [Hended _]. }
  assert (Hstatus : status g = ENDED).
  { destruct (status g); [by destruct Hended|reflexivity]. }
  cbn [py_getitem py_index mbind result_bind].
  change (py_getitem [s0; s1] 0) with (Return (A := Z) s0).
  change (py_getitem [s0; s1] 1) with (Return (A := Z) s1).
  cbn [mbind result_bind].
  destruct (decide (s0 > s1)%Z) as [Hhome|Hnothome].
  { eexists. split; [reflexivity|]. split; [reflexivity|].
    intros team. split.
    - intros [= <-]. split; [exact Hstatus|]. by left.
    - intros (_ & [[-> _]|[_ Haway]]); [reflexivity|lia]. }
  destruct (decide (s1 > s0)%Z) as [Haway|Hnotaway].
  { eexists. split; [reflexivity|]. split; [reflexivity|].
    intros team. split.
    - intros [= <-]. split; [exact Hstatus|]. by right.
    - intros (_ & [[_ Hhome]|[-> _]]); [lia|reflexivity]. }
  eexists. split; [reflexivity|]. split; [reflexivity|].
  intros team. split; [discriminate|].
  intros (_ & [[_ Hhome]|[_ Haway]]); lia.
Qed.

End TickCases.


Section TickSamples.
Local Open Scope R_scope.

Lemma step_advances_one_tick_witness :
  tick pushed_game = (tick struck_game + 1)%Z /\
  goals pushed_game = goals struck_game.
Proof.
  pose proof (step_advances_one_tick sample_config [home_agent] [away_agent]
                silent_tick struck_game pushed_game None eq_refl
                struck_game_step) as (Htick & Hgoals & _).
  split; [exact Htick|exact Hgoals].
Defined.

Lemma step_reports_detected_goal_witness :
  None = check_goal sample_config (ball pushed_game) (goals pushed_game) /\
  score pushed_game = score struck_game.
Proof.
  assert (Hplaying : ~ (goal_celebration_remaining struck_game > 0)%Z)
    by (cbn [goal_celebration_remaining struck_game]; lia).
  pose proof (step_reports_detected_goal sample_config [home_agent]
                [away_agent] silent_tick struck_game pushed_game None eq_refl
                Hplaying struck_game_step) as (Hscored & Hscore & _).
  split; [exact Hscored|exact Hscore].
Defined.

Lemma step_awards_pending_goal_witness :
  exists g' scored,
    step sample_config [home_agent] [away_agent] kickoff_tick celebrating_game
    = Return (g', scored) /\
    scored = Some 1%Z /\ pending_goal_scorer g' = None /\
    goal_celebration_remaining g' = 0%Z /\
    kicked_off sample_config (ball g').
Proof.
  assert (Hcelebrating : (goal_celebration_remaining celebrating_game > 0)%Z)
    by (cbn [goal_celebration_remaining celebrating_game]; lia).
  exists awarded_game, (Some 1%Z). split; [exact celebrating_game_step|].
  pose proof (step_awards_pending_goal sample_config [home_agent] [away_agent]
                kickoff_tick celebrating_game awarded_game (Some 1%Z)
                celebrating_game_inv kickoff_draws_ok eq_refl Hcelebrating
                celebrating_game_step)
    as (Hcount & Hcases).
  rewrite decide_True in Hcases by reflexivity.
  destruct Hcases as (Hscored & _ & Hcleared & _ & Hball).
  split; [exact Hscored|]. split; [exact Hcleared|].
  split; [exact Hcount|exact Hball].
Defined.

Lemma reachable_keeps_builds_witness :
  Forall (cooldown_in_range sample_config)
         (players (new_game sample_config kickoff_draws)).
Proof.
  pose proof (reachable_keeps_builds sample_config [home_agent] [away_agent]
                (new_game sample_config kickoff_draws)
                (reachable_new sample_config [home_agent] [away_agent]
                   kickoff_draws kickoff_draws_ok))
    as (_ & _ & _ & _ & Hcool).
  apply Hcool. cbn [kick_cooldown_ticks sample_config]. lia.
Defined.

Lemma no_celebration_no_score_witness :
  score (new_game hasty_config kickoff_draws) = [0; 0]%Z /\
  (goal_celebration_remaining (new_game hasty_config kickoff_draws) <= 0)%Z.
Proof.
  apply (no_celebration_no_score hasty_config [home_agent] [away_agent]).
  - cbn [goal_celebration_ticks hasty_config]. lia.
  - apply reachable_new, kickoff_draws_ok.
Defined.

Lemma run_steps_bounded_witness :
  exists outcome,
    run sample_config [home_agent] [away_agent] (Z.to_nat 3000)
        (fun _ => silent_tick) (new_game sample_config kickoff_draws)
    = Some outcome /\
    forall g' final_score, outcome = Return (g', final_score) ->
      final_score = score g' /\ status g' = ENDED /\
      (tick (new_game sample_config kickoff_draws) <= tick g'
       <= Z.max (tick (new_game sample_config kickoff_draws) + 1)
                (max_ticks sample_config))%Z.
Proof.
  apply (run_steps_bounded sample_config [home_agent] [away_agent]).
  cbn [max_ticks sample_config tick new_game]. lia.
Defined.

Lemma get_winner_strictly_ahead_witness :
  exists s0 s1 winner,
    score (new_game sample_config kickoff_draws) = [s0; s1] /\
    get_winner (new_game sample_config kickoff_draws) = Return winner /\
    forall team,
      winner = Some team <->
      status (new_game sample_config kickoff_draws) = ENDED /\
      ((team = 0%Z /\ (s0 > s1)%Z) \/ (team = 1%Z /\ (s1 > s0)%Z)).
Proof.
  apply (get_winner_strictly_ahead sample_config [home_agent] [away_agent]).
  apply reachable_new, kickoff_draws_ok.
Defined.

End TickSamples.


(** ** The encodings of the live entities *)

Section EntityEncodings.
Local Open Scope R_scope.

(** X27.  Unlike the snapshot of the ball, the encodings of the live
    entities lose nothing: decoding the dictionary of a [Player], of a [Ball]
    or of a [Goal] gives the entity back, radius and mass included. *)
Theorem entity_encoding_roundtrip :
  (forall p, Player_from_dict (Player_to_dict p) = Some p) /\
  (forall b, Ball_from_dict (Ball_to_dict b) = Some b) /\
  (forall g, Goal_from_dict (Goal_to_dict g) = Some g).
Proof.
  split; [by intros [[px py pvx pvy] radius team player mass cooldown]|].
  split; [by intros [[bx by_ bvx bvy] radius mass]|].
  by intros [gx gy width height team].
Qed.

Lemma only_keys_unknown fields d kv :
  kv ∈ d -> kv.1 ∉ fields -> only_keys fields d = false.
Proof.
  intros Hin Hunknown. destruct (only_keys fields d) eqn:Hkeys; [|reflexivity].
  exfalso. unfold only_keys in Hkeys. rewrite forallb_forall in Hkeys.
  apply list_elem_of_In in Hin. apply Hkeys in Hin.
  by apply bool_decide_eq_true in Hin.
Qed.

Ltac read_field key d :=
  let H := fresh "Hfield" in
  destruct (dict_get key d ≫= _) eqn:H; cbn [mbind option_bind];
  [|first [reflexivity | discriminate]].

(** X28.  [Player.from_dict] and [Ball.from_dict] call the dataclass
    constructor on the unpacked dictionary: a key that is no field makes the
    call fail, so does a missing field that has no default, and a dictionary
    without [mass] or [kick_cooldown] gives the defaults: mass 1.0 and
    cooldown 0 for a player, mass 0.5 for the ball. *)
Theorem from_dict_keywords_and_defaults d :
  (forall kv, kv ∈ d ->
     kv.1 ∉ ["x"; "y"; "vx"; "vy"; "radius"; "team_id"; "player_id"; "mass";
             "kick_cooldown"] ->
     Player_from_dict (VDict d) = None) /\
  (forall key, key ∈ ["x"; "y"; "vx"; "vy"; "radius"; "team_id"; "player_id"] ->
     dict_get key d = None -> Player_from_dict (VDict d) = None) /\
  (forall p, Player_from_dict (VDict d) = Some p ->
     (dict_get "mass" d = None -> p_mass p = 1) /\
     (dict_get "kick_cooldown" d = None -> p_kick_cooldown p = 0%Z)) /\
  (forall b, Ball_from_dict (VDict d) = Some b ->
     dict_get "mass" d = None -> b_mass b = 5 / 10).
Proof.
  split; [|split; [|split]].
  - intros kv Hin Hunknown. unfold Player_from_dict.
    cbn [as_dict mbind option_bind].
    by rewrite (only_keys_unknown _ d kv Hin Hunknown).
  - intros key Hkey Hnone. unfold Player_from_dict.
    cbn [as_dict mbind option_bind].
    destruct (only_keys _ d); [|reflexivity].
    read_field "x" d. read_field "y" d. read_field "vx" d. read_field "vy" d.
    read_field "radius" d. read_field "team_id" d. read_field "player_id" d.
    exfalso.
    repeat (apply elem_of_cons in Hkey as [->|Hkey];
            [match goal with
             | H : dict_get _ d ≫= _ = Some _ |- _ =>
                 rewrite Hnone in H; discriminate
             end|]).
    by apply elem_of_nil in Hkey.
  - intros p. unfold Player_from_dict. cbn [as_dict mbind option_bind].
    destruct (only_keys _ d); [|discriminate].
    read_field "x" d. read_field "y" d. read_field "vx" d. read_field "vy" d.
    read_field "radius" d. read_field "team_id" d. read_field "player_id" d.
    unfold field_or.
    destruct (dict_get "mass" d) as [vm|] eqn:Hmass;
      destruct (dict_get "kick_cooldown" d) as [vc|] eqn:Hcool;
      cbn [mbind option_bind];
      repeat match goal with
             | |- context [as_float vm] =>
                 destruct (as_float vm); cbn [mbind option_bind];
                 [|discriminate]
             | |- context [as_int vc] =>
                 destruct (as_int vc); cbn [mbind option_bind];
                 [|discriminate]
             end;
      intros [= <-]; split; intros Hnone;
      first [discriminate | reflexivity].
  - intros b. unfold Ball_from_dict. cbn [as_dict mbind option_bind].
    destruct (only_keys _ d); [|discriminate].
    read_field "x" d. read_field "y" d. read_field "vx" d. read_field "vy" d.
    read_field "radius" d.
    unfold field_or. intros Hball Hnone. rewrite Hnone in Hball.
    cbn [mbind option_bind] in Hball. by injection Hball as <-.
Qed.

End EntityEncodings.

(** ** The logger *)

Section Logger.

Lemma log_states_open interval logged snaps :
  interval <> 0%Z ->
  log_states (mkLogger interval logged false) snaps
  = inr (mkLogger interval
           (logged ++ map GameState_to_dict
                        (filter (fun s => (gs_tick s mod interval = 0)%Z) snaps))
           false).
Proof.
  intros Hinterval. revert logged.
  induction snaps as [|s snaps IH]; intros logged.
  { cbn [log_states filter list_filter map]. by rewrite app_nil_r. }
  cbn [log_states log_state finalized log_interval states].
  rewrite decide_False by exact Hinterval.
  destruct (decide (gs_tick s mod interval = 0)%Z) as [Hdue|Hskip].
  - rewrite IH, filter_cons_True by exact Hdue.
    cbn [map]. by rewrite <- app_assoc.
  - by rewrite IH, filter_cons_False by exact Hskip.
Qed.

(** X29.  A logger with a non-zero interval that is fed a sequence of
    snapshots records, in order, the encodings of exactly those whose tick is
    a multiple of the interval.  [finalize] then dumps these states with
    their number as [total_ticks]; after it [log_state] records nothing more
    and a second [finalize] writes nothing. *)
Theorem logger_records_multiples interval snaps config_dict :
  interval <> 0%Z ->
  let kept := filter (fun s => (gs_tick s mod interval = 0)%Z) snaps in
  exists logger closed,
    log_states (new_logger interval) snaps = inr logger /\
    states logger = map GameState_to_dict kept /\
    finalize config_dict logger
    = (closed,
       Some (VDict [ ("version", VStr "1.0");
                     ("config", config_dict);
                     ("states", VList (map GameState_to_dict kept));
                     ("total_ticks", VInt (Z.of_nat (length kept))) ])) /\
    (forall s, log_state closed s = inr closed) /\
    finalize config_dict closed = (closed, None).
Proof.
  intros Hinterval kept. unfold new_logger.
  rewrite (log_states_open interval [] snaps Hinterval).
  cbn [app]. fold kept. eexists. eexists.
  split; [reflexivity|]. split; [reflexivity|].
  unfold finalize. cbn [finalized states log_interval].
  split; [by rewrite length_map|]. split; [reflexivity|reflexivity].
Qed.

End Logger.

Section LoggerSamples.

Lemma logger_records_multiples_witness :
  exists logger closed,
    log_states (new_logger 1) [two_player_state] = inr logger /\
    states logger = [GameState_to_dict two_player_state] /\
    finalize (VDict []) logger
    = (closed,
       Some (VDict [ ("version", VStr "1.0");
                     ("config", VDict []);
                     ("states", VList [GameState_to_dict two_player_state]);
                     ("total_ticks", VInt 1) ])) /\
    (forall s, log_state closed s = inr closed) /\
    finalize (VDict []) closed = (closed, None).
Proof.
  apply (logger_records_multiples 1 [two_player_state] (VDict [])). lia.
Defined.

End LoggerSamples.

(** ** The line-ups of [create_agents] *)

Section LineUps.

Lemma agent_class_for_known agent_type choice team i :
  agent_type ∈ ["random"; "chaser"; "mixed"; "tactical"; "aggressive";
                "interceptor"; "balanced"; "wings"; "diverse"; "randomized"] ->
  is_Some (agent_class_for agent_type choice team i).
Proof.
  intros Hknown. unfold agent_class_for.
  repeat (case_decide; [by eexists|]).
  case_decide.
  { apply lookup_lt_is_Some. cbn [length]. apply Nat.mod_upper_bound. lia. }
  case_decide; [by eexists|].
  exfalso.
  repeat (apply elem_of_cons in Hknown as [->|Hknown]; [done|]).
  by apply elem_of_nil in Hknown.
Qed.

Lemma agent_class_for_unknown agent_type choice team i :
  agent_type ∉ ["random"; "chaser"; "mixed"; "tactical"; "aggressive";
                "interceptor"; "balanced"; "wings"; "diverse"; "randomized"] ->
  agent_class_for agent_type choice team i = None.
Proof.
  intros Hunknown. unfold agent_class_for.
  repeat (case_decide;
          [exfalso; apply Hunknown; subst agent_type;
           repeat first [apply list_elem_of_here | apply list_elem_of_further]|]).
  reflexivity.
Qed.

Lemma team_agents_known agent_type choice n team :
  (forall i, is_Some (agent_class_for agent_type choice team i)) ->
  agent_of <$> team_agents agent_type choice n team
  = (fun i => mkAgent team (Z.of_nat i)) <$> seq 0 (Z.to_nat n).
Proof.
  intros Hknown. unfold team_agents.
  induction (seq 0 (Z.to_nat n)) as [|i l IH]; [reflexivity|].
  cbn [omap list_omap]. destruct (Hknown i) as [cls ->].
  cbn [mbind option_bind]. rewrite !fmap_cons, IH. reflexivity.
Qed.

Lemma team_agents_unknown agent_type choice n team :
  (forall i, agent_class_for agent_type choice team i = None) ->
  team_agents agent_type choice n team = [].
Proof.
  intros Hunknown. unfold team_agents.
  induction (seq 0 (Z.to_nat n)) as [|i l IH]; [reflexivity|].
  cbn [omap list_omap]. rewrite Hunknown. cbn [mbind option_bind]. exact IH.
Qed.

Lemma team_keys_NoDup team m :
  NoDup (agent_key <$> ((fun i => mkAgent team (Z.of_nat i)) <$> seq 0 m)).
Proof.
  rewrite <- list_fmap_compose. apply NoDup_fmap_2; [|apply NoDup_seq].
  intros i j [= Heq]. lia.
Qed.

(** X30.  [create_agents] with one of the ten known line-up names gives each
    team one agent per player index below [players_per_team], in order, with
    its team and that index as identifiers, so that no two agents decide for
    the same player; with any other name both teams are empty. *)
Theorem create_agents_line_up n agent_type choice :
  let known := ["random"; "chaser"; "mixed"; "tactical"; "aggressive";
                "interceptor"; "balanced"; "wings"; "diverse"; "randomized"] in
  let teams := create_agents n agent_type choice in
  (agent_type ∈ known ->
   agent_of <$> teams.1
   = (fun i => mkAgent 0 (Z.of_nat i)) <$> seq 0 (Z.to_nat n) /\
   agent_of <$> teams.2
   = (fun i => mkAgent 1 (Z.of_nat i)) <$> seq 0 (Z.to_nat n) /\
   distinct_players (agent_of <$> teams.1) (agent_of <$> teams.2)) /\
  (agent_type ∉ known -> teams = ([], [])).
Proof.
  cbv zeta. unfold create_agents. cbn [fst snd]. split.
  - intros Hknown.
    rewrite !team_agents_known
      by (intros i; by apply agent_class_for_known).
    split; [reflexivity|]. split; [reflexivity|].
    unfold distinct_players, all_agents. rewrite fmap_app.
    apply NoDup_app. split; [apply team_keys_NoDup|].
    split; [|apply team_keys_NoDup].
    intros key Hhome Haway.
    apply list_elem_of_fmap in Hhome as (a0 & -> & Hhome).
    apply list_elem_of_fmap in Hhome as (i & -> & _).
    apply list_elem_of_fmap in Haway as (a1 & Hkey & Haway).
    apply list_elem_of_fmap in Haway as (j & -> & _).
    discriminate.
  - intros Hunknown.
    by rewrite !team_agents_unknown
      by (intros i; by apply agent_class_for_unknown).
Qed.

End LineUps.
